(** * Ruckig: Block assembly, duration synchronization and trajectory sampling

    A shallow embedding of [ruckig/block.hpp] and [ruckig/trajectory.hpp]
    (the C++11 patch of the library) together with the properties that the
    design document states about them.

    Numeric model.  A C++ [double] that is known to be finite is a rational
    number ([Q]); arithmetic on it is exact, rounding error is not part of
    the model.  Where the source stores [+infinity] in a [double] (the
    synchronization candidates and everything computed from them) the type
    [double] below is used, that is [Q] extended by one point.  NaN and
    negative infinity never arise from the modelled operations on finite
    inputs and are left out.  The one expression whose rounding error
    decides what the code does, the rounding of a candidate to the quantum
    in [synchronize], is a parameter of [synchronize_with]; the statements
    about it say what they need of it. *)

From Stdlib Require Import QArith Qabs Qround Qminmax ZArith List Bool Lia Lqa.
From Stdlib Require Import Permutation Sorted.
Import ListNotations.

Open Scope Q_scope.

(** ** Doubles *)

(** [std::numeric_limits<double>::epsilon()], i.e. 2^-52. *)
Definition eps : Q := 1 # 4503599627370496.

(** [x < y] on finite doubles. *)
Definition Qltb (x y : Q) : bool := negb (Qle_bool y x).

(** A double that may be [+infinity]. *)
Inductive double : Type :=
| Fin (q : Q)
| Inf.

(** [x < y] *)
Definition dlt (x y : double) : bool :=
  match x, y with
  | Fin a, Fin b => Qltb a b
  | Fin _, Inf => true
  | Inf, _ => false
  end.

(** [x >= y] *)
Definition dge (x y : double) : bool :=
  match x, y with
  | Fin a, Fin b => Qle_bool b a
  | Inf, _ => true
  | Fin _, Inf => false
  end.

(** [x - y] for a finite [y]. *)
Definition dsub (x : double) (y : Q) : double :=
  match x with
  | Fin a => Fin (a - y)
  | Inf => Inf
  end.

(** [std::abs(x - y) < e] for finite [y] and [e]. *)
Definition near (x : double) (y e : Q) : bool :=
  match dsub x y with
  | Fin d => Qltb (Qabs d) e
  | Inf => false
  end.

(** [x == 0.0] *)
Definition dzero (x : double) : bool :=
  match x with
  | Fin a => Qeq_bool a 0
  | Inf => false
  end.

(** [std::ceil(x / delta_time) * delta_time] for a positive [delta_time],
    computed without rounding error: the least multiple of [delta_time]
    that is not below [x]; infinity is a fixed point of it.  (The machine
    evaluates the division and the product in floating point, and its
    result can differ from this one by a unit in the last place, also
    downwards.) *)
Definition round_up (delta_time : Q) (x : double) : double :=
  match x with
  | Fin a => Fin (inject_Z (Qceiling (a / delta_time)) * delta_time)
  | Inf => Inf
  end.

(** Order on doubles as propositions, for statements. *)
Definition dle (x y : double) : Prop :=
  match x, y with
  | Fin a, Fin b => a <= b
  | _, Inf => True
  | Inf, Fin _ => False
  end.

(** ** Arrays *)

(** [arr[i]] of a [std::array<double, N>]. *)
Definition get (arr : list Q) (i : nat) : Q := nth i arr 0.

(** [arr[i] = x]; an index past the end is undefined behaviour in the source
    and leaves the model's array as it is. *)
Fixpoint set {A : Type} (arr : list A) (i : nat) (x : A) : list A :=
  match arr, i with
  | [], _ => []
  | _ :: rest, O => x :: rest
  | y :: rest, S i' => y :: set rest i' x
  end.

(** ** Profile (the members that block.hpp and trajectory.hpp touch) *)

Inductive Limits : Type :=
| ACC0_ACC1_VEL | VEL | ACC0 | ACC1 | ACC0_ACC1 | ACC0_VEL | ACC1_VEL | NONE.

Inductive Direction : Type := UP | DOWN.

Inductive JerkSigns : Type := UDDU | UDUD.

Definition Direction_eqb (x y : Direction) : bool :=
  match x, y with
  | UP, UP | DOWN, DOWN => true
  | _, _ => false
  end.

Module BrakeProfile.
Record BrakeProfile : Type := mk {
  duration : Q;
  t : list Q;   (* std::array<double, 2> *)
  j : list Q;
  a : list Q;
  v : list Q;
  p : list Q
}.

Definition set_duration (x : Q) (b : BrakeProfile) : BrakeProfile :=
  mk x (t b) (j b) (a b) (v b) (p b).
Definition set_t_j (ts js : list Q) (b : BrakeProfile) : BrakeProfile :=
  mk (duration b) ts js (a b) (v b) (p b).
Definition set_pva (i : nat) (p0 v0 a0 : Q) (b : BrakeProfile) : BrakeProfile :=
  mk (duration b) (t b) (j b) (set (a b) i a0) (set (v b) i v0) (set (p b) i p0).

Definition zero : BrakeProfile :=
  mk 0 [0; 0] [0; 0] [0; 0] [0; 0] [0; 0].
End BrakeProfile.

Module Profile.
Record Profile : Type := mk {
  t : list Q;       (* std::array<double, 7> *)
  t_sum : list Q;
  j : list Q;
  a : list Q;
  v : list Q;
  p : list Q;
  pf : Q;
  vf : Q;
  af : Q;
  limits : Limits;
  direction : Direction;
  jerk_signs : JerkSigns;
  brake : BrakeProfile.BrakeProfile
}.

Definition set_brake (b : BrakeProfile.BrakeProfile) (x : Profile) : Profile :=
  mk (t x) (t_sum x) (j x) (a x) (v x) (p x) (pf x) (vf x) (af x)
     (limits x) (direction x) (jerk_signs x) b.
Definition set_final (p1 v1 a1 : Q) (x : Profile) : Profile :=
  mk (t x) (t_sum x) (j x) (a x) (v x) (p x) p1 v1 a1
     (limits x) (direction x) (jerk_signs x) (brake x).
Definition set_t_sum (ts : list Q) (x : Profile) : Profile :=
  mk (t x) ts (j x) (a x) (v x) (p x) (pf x) (vf x) (af x)
     (limits x) (direction x) (jerk_signs x) (brake x).
Definition set_t (ts : list Q) (x : Profile) : Profile :=
  mk ts (t_sum x) (j x) (a x) (v x) (p x) (pf x) (vf x) (af x)
     (limits x) (direction x) (jerk_signs x) (brake x).
Definition set_jerk_signs (s : JerkSigns) (x : Profile) : Profile :=
  mk (t x) (t_sum x) (j x) (a x) (v x) (p x) (pf x) (vf x) (af x)
     (limits x) (direction x) s (brake x).
Definition set_limits (l : Limits) (x : Profile) : Profile :=
  mk (t x) (t_sum x) (j x) (a x) (v x) (p x) (pf x) (vf x) (af x)
     l (direction x) (jerk_signs x) (brake x).

Definition zero7 : list Q := [0; 0; 0; 0; 0; 0; 0].

(** A value-initialised profile; it is what an index outside an array
    reads in the model. *)
Definition zero : Profile :=
  mk zero7 zero7 zero7 zero7 zero7 zero7 0 0 0 NONE UP UDDU BrakeProfile.zero.

(** Modelled from the spec: [Profile::integrate] is declared in
    profile.hpp, which is not among the sources.  The design document
    gives it: integration of one constant-jerk segment over a duration
    [tau] is [p' = p + v tau + 1/2 a tau^2 + 1/6 j tau^3],
    [v' = v + a tau + 1/2 j tau^2], [a' = a + j tau]. *)
Definition integrate (tau p0 v0 a0 j0 : Q) : Q * Q * Q :=
  (p0 + v0 * tau + (1 # 2) * a0 * (tau * tau) + (1 # 6) * j0 * (tau * tau * tau),
   v0 + a0 * tau + (1 # 2) * j0 * (tau * tau),
   a0 + j0 * tau).

(** The profile's motion time together with its brake prefix,
    [t_sum[6] + brake.duration]. *)
Definition total_duration (x : Profile) : Q :=
  get (t_sum x) 6 + BrakeProfile.duration (brake x).
End Profile.

Abbreviation Profile := Profile.Profile.
Abbreviation BrakeProfile := BrakeProfile.BrakeProfile.

(** ** Block (block.hpp) *)

Module Block.
(** [Block::Interval]: a forbidden range of durations and the profile
    that corresponds to its right (end) time. *)
Record Interval : Type := mkInterval {
  left : Q;
  right : Q;
  profile : Profile
}.

Record Block : Type := mk {
  p_min : Profile;
  t_min : Q;
  a : option Interval;
  b : option Interval
}.

(** [explicit Block(const Profile& p_min)] *)
Definition Block_of (p_min : Profile) : Block :=
  mk p_min
     (get (Profile.t_sum p_min) 6 + BrakeProfile.duration (Profile.brake p_min))
     None None.

Definition set_a (i : Interval) (blk : Block) : Block :=
  mk (p_min blk) (t_min blk) (Some i) (b blk).
Definition set_b (i : Interval) (blk : Block) : Block :=
  mk (p_min blk) (t_min blk) (a blk) (Some i).

(** [Block::add_interval]; the result is what the source assigns to the
    optional it is given. *)
Definition add_interval (left right : Profile) : Interval :=
  let left_duration :=
    get (Profile.t_sum left) 6 + BrakeProfile.duration (Profile.brake left) in
  let right_duraction :=
    get (Profile.t_sum right) 6 + BrakeProfile.duration (Profile.brake right) in
  if Qltb left_duration right_duraction
  then mkInterval left_duration right_duraction right
  else mkInterval right_duraction left_duration left.

(** [valid_profiles[i]] *)
Definition vp (valid_profiles : list Profile) (i : nat) : Profile :=
  nth i valid_profiles Profile.zero.

(** The loop of [Block::remove_profile], [i] running from [index] while
    [i < valid_profile_counter - 1]; [n] is the number of rounds left. *)
Fixpoint remove_profile_loop (valid_profiles : list Profile) (i n : nat)
  : list Profile :=
  match n with
  | O => valid_profiles
  | S n' =>
      remove_profile_loop
        (set valid_profiles i (vp valid_profiles (i + 1))) (i + 1) n'
  end.

(** [Block::remove_profile]: the array and the counter after the call. *)
Definition remove_profile (valid_profiles : list Profile)
    (valid_profile_counter index : nat) : list Profile * nat :=
  (remove_profile_loop valid_profiles index (valid_profile_counter - 1 - index),
   (valid_profile_counter - 1)%nat).

(** [std::min_element] with the comparison on [t_sum[6]]: the index of
    the first smallest element of the range. *)
Fixpoint min_element_from (best : nat) (best_t : Q) (i : nat)
    (range : list Profile) : nat :=
  match range with
  | [] => best
  | x :: rest =>
      if Qltb (get (Profile.t_sum x) 6) best_t
      then min_element_from i (get (Profile.t_sum x) 6) (i + 1) rest
      else min_element_from best best_t (i + 1) rest
  end.

Definition min_element (range : list Profile) : nat :=
  match range with
  | [] => O
  | x :: rest => min_element_from O (get (Profile.t_sum x) 6) 1 rest
  end.

(** [std::abs(x.t_sum[6] - y.t_sum[6]) < k * epsilon] *)
Definition t_sum_close (k : Q) (x y : Profile) : bool :=
  Qltb (Qabs (get (Profile.t_sum x) 6 - get (Profile.t_sum y) 6)) (k * eps).

(** The part of [calculate_block] after the case distinction on the
    counter ("Find index of fastest profile" onwards). *)
Definition assemble (valid_profiles : list Profile)
    (valid_profile_counter : nat) : Block * bool :=
  let idx_min := min_element (firstn valid_profile_counter valid_profiles) in
  let block := Block_of (vp valid_profiles idx_min) in
  if Nat.eqb valid_profile_counter 3 then
    let idx_else_1 := ((idx_min + 1) mod 3)%nat in
    let idx_else_2 := ((idx_min + 2) mod 3)%nat in
    (set_a (add_interval (vp valid_profiles idx_else_1)
                         (vp valid_profiles idx_else_2)) block, true)
  else if Nat.eqb valid_profile_counter 5 then
    let idx_else_1 := ((idx_min + 1) mod 5)%nat in
    let idx_else_2 := ((idx_min + 2) mod 5)%nat in
    let idx_else_3 := ((idx_min + 3) mod 5)%nat in
    let idx_else_4 := ((idx_min + 4) mod 5)%nat in
    if Direction_eqb (Profile.direction (vp valid_profiles idx_else_1))
                     (Profile.direction (vp valid_profiles idx_else_2))
    then
      (set_b (add_interval (vp valid_profiles idx_else_3)
                           (vp valid_profiles idx_else_4))
         (set_a (add_interval (vp valid_profiles idx_else_1)
                              (vp valid_profiles idx_else_2)) block), true)
    else
      (set_b (add_interval (vp valid_profiles idx_else_2)
                           (vp valid_profiles idx_else_3))
         (set_a (add_interval (vp valid_profiles idx_else_1)
                              (vp valid_profiles idx_else_4)) block), true)
  else (block, false).

(** [Block::calculate_block<N, numerical_robust>]: the block after the
    call and the returned flag.  [block] is the block passed in, which
    stays as it is on the paths that return before assigning it. *)
Definition calculate_block (numerical_robust : bool) (block : Block)
    (valid_profiles : list Profile) (valid_profile_counter : nat)
  : Block * bool :=
  if Nat.eqb valid_profile_counter 1 then
    (Block_of (vp valid_profiles 0), true)
  else if Nat.eqb valid_profile_counter 2 then
    if t_sum_close 8 (vp valid_profiles 0) (vp valid_profiles 1) then
      (Block_of (vp valid_profiles 0), true)
    else if numerical_robust then
      let idx_min :=
        if Qltb (get (Profile.t_sum (vp valid_profiles 0)) 6)
                (get (Profile.t_sum (vp valid_profiles 1)) 6)
        then O else 1%nat in
      let idx_else_1 := ((idx_min + 1) mod 2)%nat in
      (set_a (add_interval (vp valid_profiles idx_min)
                           (vp valid_profiles idx_else_1))
         (Block_of (vp valid_profiles idx_min)), true)
    else assemble valid_profiles valid_profile_counter
  else if Nat.eqb valid_profile_counter 4 then
    if t_sum_close 32 (vp valid_profiles 0) (vp valid_profiles 1)
       && negb (Direction_eqb (Profile.direction (vp valid_profiles 0))
                              (Profile.direction (vp valid_profiles 1)))
    then
      let (vps, counter) := remove_profile valid_profiles valid_profile_counter 1 in
      assemble vps counter
    else if t_sum_close 256 (vp valid_profiles 2) (vp valid_profiles 3)
       && negb (Direction_eqb (Profile.direction (vp valid_profiles 2))
                              (Profile.direction (vp valid_profiles 3)))
    then
      let (vps, counter) := remove_profile valid_profiles valid_profile_counter 3 in
      assemble vps counter
    else if t_sum_close 256 (vp valid_profiles 0) (vp valid_profiles 3)
       && negb (Direction_eqb (Profile.direction (vp valid_profiles 0))
                              (Profile.direction (vp valid_profiles 3)))
    then
      let (vps, counter) := remove_profile valid_profiles valid_profile_counter 3 in
      assemble vps counter
    else (block, false)
  else if Nat.eqb (valid_profile_counter mod 2) 0 then
    (block, false)
  else assemble valid_profiles valid_profile_counter.

(** [Block::is_blocked] *)
Definition is_blocked (blk : Block) (t : double) : bool :=
  dlt t (Fin (t_min blk))
  || match a blk with
     | Some i => dlt (Fin (left i)) t && dlt t (Fin (right i))
     | None => false
     end
  || match b blk with
     | Some i => dlt (Fin (left i)) t && dlt t (Fin (right i))
     | None => false
     end.
End Block.

Abbreviation Block := Block.Block.
Abbreviation Interval := Block.Interval.

(** ** Input parameter and result codes (input_parameter.hpp, as used) *)

Inductive ControlInterface : Type := Position | Velocity.

Module Synchronization.
Inductive Synchronization : Type := Time | TimeIfNecessary | Phase | None.

Definition eqb (x y : Synchronization) : bool :=
  match x, y with
  | Time, Time | TimeIfNecessary, TimeIfNecessary
  | Phase, Phase | None, None => true
  | _, _ => false
  end.
End Synchronization.

Abbreviation Synchronization := Synchronization.Synchronization.

Inductive DurationDiscretization : Type := Continuous | Discrete.

Inductive Result : Type :=
| Working
| Error
| ErrorExecutionTimeCalculation
| ErrorSynchronizationCalculation
| ErrorTrajectoryDuration.

(** How a call of [calculate] ends: by returning a result code or, in the
    [throw_error] instantiation, by throwing [std::runtime_error]. *)
Inductive Thrown : Type :=
| error_in_step_1 (dof : nat)
| error_in_time_synchronization
| error_in_step_2 (dof : nat).

Inductive Outcome : Type :=
| Returns (r : Result)
| Throws (what : Thrown).

Module InputParameter.
Record InputParameter : Type := mk {
  control_interface : ControlInterface;
  synchronization : Synchronization;
  duration_discretization : DurationDiscretization;
  per_dof_control_interface : option (list ControlInterface);
  per_dof_synchronization : option (list Synchronization);
  minimum_duration : option Q;
  enabled : list bool;
  current_position : list Q;
  current_velocity : list Q;
  current_acceleration : list Q;
  target_position : list Q;
  target_velocity : list Q;
  target_acceleration : list Q;
  max_velocity : list Q;
  max_acceleration : list Q;
  max_jerk : list Q;
  min_velocity : option (list Q);
  min_acceleration : option (list Q)
}.
End InputParameter.

Abbreviation InputParameter := InputParameter.InputParameter.

(** ** The collaborators of [calculate] whose code is in other headers

    brake.hpp, position.hpp, velocity.hpp and profile.hpp are not among the
    sources (src/step1.cpp is the Step 1 of an earlier revision, with another
    [Block] layout and another [get_profile] signature, and is not what
    trajectory.hpp calls).  Their entry points are taken as operations of a
    class, with the arguments [calculate] passes them in the order it passes
    them; an out-parameter becomes part of the result. *)
Class Planner : Type := {
  (* BrakeProfile::get_position_brake_trajectory(v0, a0, vMax, vMin, aMax,
     aMin, jMax, t_brake, j_brake) *)
  get_position_brake_trajectory :
    Q -> Q -> Q -> Q -> Q -> Q -> Q -> list Q -> list Q -> list Q * list Q;
  (* BrakeProfile::get_velocity_brake_trajectory(a0, aMax, aMin, jMax,
     t_brake, j_brake) *)
  get_velocity_brake_trajectory :
    Q -> Q -> Q -> Q -> list Q -> list Q -> list Q * list Q;
  (* PositionStep1 {p0, v0, a0, pf, vf, af, vMax, vMin, aMax, aMin, jMax}
       .get_profile(input, block) *)
  position_step1_get_profile :
    Q -> Q -> Q -> Q -> Q -> Q -> Q -> Q -> Q -> Q -> Q ->
    Profile -> Block -> bool * Block;
  (* VelocityStep1 {p0, v0, a0, vf, af, aMax, aMin, jMax}
       .get_profile(input, block) *)
  velocity_step1_get_profile :
    Q -> Q -> Q -> Q -> Q -> Q -> Q -> Q ->
    Profile -> Block -> bool * Block;
  (* PositionStep2 {tf, p0, v0, a0, pf, vf, af, vMax, vMin, aMax, aMin, jMax}
       .get_profile(profile) *)
  position_step2_get_profile :
    double -> Q -> Q -> Q -> Q -> Q -> Q -> Q -> Q -> Q -> Q -> Q ->
    Profile -> bool * Profile;
  (* VelocityStep2 {tf, p0, v0, a0, vf, af, aMax, aMin, jMax}
       .get_profile(profile) *)
  velocity_step2_get_profile :
    double -> Q -> Q -> Q -> Q -> Q -> Q -> Q -> Q ->
    Profile -> bool * Profile;
  (* p.set_boundary(p0, v0, a0, pf, vf, af) *)
  set_boundary : Profile -> Q -> Q -> Q -> Q -> Q -> Q -> Profile;
  (* p.check_with_timing<jerk_signs, Limits::NONE>(tf, jf, vMax, vMin, aMax,
     aMin, jMax) *)
  check_with_timing :
    JerkSigns -> Profile -> double -> Q -> Q -> Q -> Q -> Q -> Q ->
    bool * Profile
}.

(** The calls into the collaborators that one run of [calculate] makes, in
    the order it makes them. *)
Inductive Call : Type :=
| call_brake (dof : nat)
| call_step1 (dof : nat)
| call_check_with_timing (dof : nat)
| call_step2 (dof : nat).

(** ** Trajectory (trajectory.hpp) *)

Module Trajectory.

(** [blocks[dof]] and [profiles[dof]]; an index outside the vector, which
    the source never uses, reads a value-initialised element in the model. *)
Definition block_at (blocks : list Block) (dof : nat) : Block :=
  nth dof blocks (Block.Block_of Profile.zero).

Definition profile_at (profiles : list Profile) (dof : nat) : Profile :=
  nth dof profiles Profile.zero.

(** [possible_t_syncs] after the first loop of [synchronize] and the
    assignment of the optional minimum duration: entry [dof] is the DoF's
    [t_min], entry [degrees_of_freedom + dof] its [a->right], entry
    [2 * degrees_of_freedom + dof] its [b->right], the last one the floor. *)
Definition collect_t_syncs (degrees_of_freedom : nat) (blocks : list Block)
    (t_min : option Q) : list double :=
  map (fun dof => Fin (Block.t_min (block_at blocks dof)))
      (seq 0 degrees_of_freedom)
  ++ map (fun dof => match Block.a (block_at blocks dof) with
                     | Some i => Fin (Block.right i)
                     | None => Inf
                     end) (seq 0 degrees_of_freedom)
  ++ map (fun dof => match Block.b (block_at blocks dof) with
                     | Some i => Fin (Block.right i)
                     | None => Inf
                     end) (seq 0 degrees_of_freedom)
  ++ [match t_min with Some f => Fin f | None => Inf end].

(** [any_interval] *)
Definition any_interval_of (degrees_of_freedom : nat) (blocks : list Block)
    (t_min : option Q) : bool :=
  existsb (fun dof => match Block.a (block_at blocks dof) with
                      | Some _ => true
                      | None => match Block.b (block_at blocks dof) with
                                | Some _ => true
                                | None => false
                                end
                      end) (seq 0 degrees_of_freedom)
  || match t_min with Some _ => true | None => false end.

(** [possible_t_syncs] as the scan reads it: when the duration is discrete
    every entry has been replaced by
    [std::ceil(possible_t_syncs[i] / delta_time) * delta_time]; [round] is
    that expression, whatever it evaluates to. *)
Definition possible_t_syncs_with (round : double -> double)
    (degrees_of_freedom : nat) (blocks : list Block) (t_min : option Q)
    (discrete_duration : bool) : list double :=
  let collected := collect_t_syncs degrees_of_freedom blocks t_min in
  if discrete_duration then map round collected else collected.


Definition t_sync_at (candidates : list double) (i : nat) : double :=
  nth i candidates Inf.

(** [std::sort] of the index range by the candidate each index points to.
    The standard leaves the relative order of equal candidates open; the
    model keeps them in index order (insertion from the right, an index
    going in front of the first one that is not smaller). *)
Fixpoint insert_idx (candidates : list double) (i : nat) (sorted : list nat)
  : list nat :=
  match sorted with
  | [] => [i]
  | k :: rest =>
      if dlt (t_sync_at candidates k) (t_sync_at candidates i)
      then k :: insert_idx candidates i rest
      else i :: sorted
  end.

Definition sort_idx (candidates : list double) (idx : list nat) : list nat :=
  fold_right (insert_idx candidates) [] idx.

(** The test the scan applies to one candidate: [true] means [continue]. *)
Definition rejected (blocks : list Block) (t_min : option Q)
    (possible_t_sync : double) : bool :=
  existsb (fun block => Block.is_blocked block possible_t_sync) blocks
  || dlt possible_t_sync
         (Fin (match t_min with Some f => f | None => 0 end)).

(** The scan "Start at last tmin (or worse)": the first index of the range
    whose candidate is not rejected. *)
Fixpoint scan (blocks : list Block) (t_min : option Q)
    (candidates : list double) (range : list nat) : option nat :=
  match range with
  | [] => None
  | i :: rest =>
      if rejected blocks t_min (t_sync_at candidates i)
      then scan blocks t_min candidates rest
      else Some i
  end.

(** What the scan does with the index it stops at: the limiting DoF and the
    profile vector.  Reading [a->profile] of an absent interval is
    undefined in the source; the model leaves the profiles alone there. *)
Definition take_profile (degrees_of_freedom : nat) (blocks : list Block)
    (profiles : list Profile) (i : nat) : Z * list Profile :=
  if Nat.eqb i (3 * degrees_of_freedom) then (-1, profiles)%Z
  else
    let quot := (i / degrees_of_freedom)%nat in
    let limiting_dof := (i mod degrees_of_freedom)%nat in
    let block := block_at blocks limiting_dof in
    (Z.of_nat limiting_dof,
     match quot with
     | 0%nat => set profiles limiting_dof (Block.p_min block)
     | 1%nat => match Block.a block with
                | Some iv => set profiles limiting_dof (Block.profile iv)
                | None => profiles
                end
     | 2%nat => match Block.b block with
                | Some iv => set profiles limiting_dof (Block.profile iv)
                | None => profiles
                end
     | _ => profiles
     end).

(** [Trajectory::synchronize]: [None] when it returns [false], otherwise
    [t_sync], [limiting_dof] and the profile vector as it leaves them.
    [round] is the rounding of a candidate to the quantum,
    [std::ceil(possible_t_syncs[i] / delta_time) * delta_time], which is
    the only place where [delta_time] is used. *)
Definition synchronize_with (round : double -> double)
    (degrees_of_freedom : nat) (blocks : list Block)
    (t_min : option Q) (profiles : list Profile)
    (discrete_duration : bool)
  : option (double * Z * list Profile) :=
  if Nat.eqb degrees_of_freedom 1
     && match t_min with Some _ => false | None => true end
     && negb discrete_duration
  then
    Some (Fin (Block.t_min (block_at blocks 0)), 0%Z,
          set profiles 0 (Block.p_min (block_at blocks 0)))
  else
    let candidates :=
      possible_t_syncs_with round degrees_of_freedom blocks t_min
                            discrete_duration in
    let idx_end :=
      if any_interval_of degrees_of_freedom blocks t_min
      then (3 * degrees_of_freedom + 1)%nat else degrees_of_freedom in
    let idx := sort_idx candidates (seq 0 idx_end) in
    match scan blocks t_min candidates (skipn (degrees_of_freedom - 1) idx) with
    | None => None
    | Some i =>
        let (limiting_dof, profiles') :=
          take_profile degrees_of_freedom blocks profiles i in
        Some (t_sync_at candidates i, limiting_dof, profiles')
    end.

(** [Trajectory::synchronize] with the rounding to the quantum evaluated
    without rounding error. *)
Definition synchronize (degrees_of_freedom : nat) (blocks : list Block)
    (t_min : option Q) (profiles : list Profile)
    (discrete_duration : bool) (delta_time : Q)
  : option (double * Z * list Profile) :=
  synchronize_with (round_up delta_time) degrees_of_freedom blocks t_min
    profiles discrete_duration.

(** *** The trajectory object *)

Record Trajectory : Type := mk {
  profiles : list Profile;
  duration : double;
  independent_min_durations : list Q;
  pd : list Q;
  blocks : list Block;
  p0s : list Q;
  v0s : list Q;
  a0s : list Q;
  inp_min_velocity : list Q;
  inp_min_acceleration : list Q;
  inp_per_dof_control_interface : list ControlInterface;
  inp_per_dof_synchronization : list Synchronization;
  new_max_jerk : list Q;
  degrees_of_freedom : nat
}.

Definition set_profiles (x : list Profile) (tr : Trajectory) : Trajectory :=
  mk x (duration tr) (independent_min_durations tr) (pd tr) (blocks tr)
     (p0s tr) (v0s tr) (a0s tr) (inp_min_velocity tr) (inp_min_acceleration tr)
     (inp_per_dof_control_interface tr) (inp_per_dof_synchronization tr)
     (new_max_jerk tr) (degrees_of_freedom tr).
Definition set_duration (x : double) (tr : Trajectory) : Trajectory :=
  mk (profiles tr) x (independent_min_durations tr) (pd tr) (blocks tr)
     (p0s tr) (v0s tr) (a0s tr) (inp_min_velocity tr) (inp_min_acceleration tr)
     (inp_per_dof_control_interface tr) (inp_per_dof_synchronization tr)
     (new_max_jerk tr) (degrees_of_freedom tr).
Definition set_independent_min_durations (x : list Q) (tr : Trajectory)
  : Trajectory :=
  mk (profiles tr) (duration tr) x (pd tr) (blocks tr)
     (p0s tr) (v0s tr) (a0s tr) (inp_min_velocity tr) (inp_min_acceleration tr)
     (inp_per_dof_control_interface tr) (inp_per_dof_synchronization tr)
     (new_max_jerk tr) (degrees_of_freedom tr).
Definition set_pd_jerk (x y : list Q) (tr : Trajectory) : Trajectory :=
  mk (profiles tr) (duration tr) (independent_min_durations tr) x (blocks tr)
     (p0s tr) (v0s tr) (a0s tr) (inp_min_velocity tr) (inp_min_acceleration tr)
     (inp_per_dof_control_interface tr) (inp_per_dof_synchronization tr)
     y (degrees_of_freedom tr).
Definition set_blocks (x : list Block) (tr : Trajectory) : Trajectory :=
  mk (profiles tr) (duration tr) (independent_min_durations tr) (pd tr) x
     (p0s tr) (v0s tr) (a0s tr) (inp_min_velocity tr) (inp_min_acceleration tr)
     (inp_per_dof_control_interface tr) (inp_per_dof_synchronization tr)
     (new_max_jerk tr) (degrees_of_freedom tr).
Definition set_start (x y z : list Q) (tr : Trajectory) : Trajectory :=
  mk (profiles tr) (duration tr) (independent_min_durations tr) (pd tr)
     (blocks tr) x y z (inp_min_velocity tr) (inp_min_acceleration tr)
     (inp_per_dof_control_interface tr) (inp_per_dof_synchronization tr)
     (new_max_jerk tr) (degrees_of_freedom tr).
Definition set_inp (vmin amin : list Q) (ci : list ControlInterface)
    (sy : list Synchronization) (tr : Trajectory) : Trajectory :=
  mk (profiles tr) (duration tr) (independent_min_durations tr) (pd tr)
     (blocks tr) (p0s tr) (v0s tr) (a0s tr) vmin amin ci sy
     (new_max_jerk tr) (degrees_of_freedom tr).

Definition control_at (l : list ControlInterface) (dof : nat) : ControlInterface :=
  nth dof l Position.
Definition sync_at (l : list Synchronization) (dof : nat) : Synchronization :=
  nth dof l Synchronization.Time.
Definition enabled_at (inp : InputParameter) (dof : nat) : bool :=
  nth dof (InputParameter.enabled inp) false.

(** [dof == limiting_dof], the [size_t] compared with the [int]: the
    converted [-1] equals no index of the vectors. *)
Definition is_limiting (dof : nat) (limiting_dof : Z) : bool :=
  Z.eqb (Z.of_nat dof) limiting_dof.

(** [profiles[limiting_dof]]; with [limiting_dof = -1] the source indexes
    out of the vector, where the model reads the value-initialised profile. *)
Definition limiting_profile (profiles : list Profile) (limiting_dof : Z)
  : Profile :=
  if Z.ltb limiting_dof 0 then Profile.zero
  else profile_at profiles (Z.to_nat limiting_dof).

(** [arr[limiting_dof]]; for [limiting_dof = -1], where the source indexes
    out of the vector, the model reads 0. *)
Definition limiting_get (arr : list Q) (limiting_dof : Z) : Q :=
  if Z.ltb limiting_dof 0 then 0 else get arr (Z.to_nat limiting_dof).

(** *** is_input_collinear *)

(** The four scale factors once a DoF with non-zero displacement is found. *)
Definition Scales : Type := option (Q * Q * Q * Q).

(** First loop of [is_input_collinear]. *)
Fixpoint collinear_scales (inp : InputParameter) (sync : list Synchronization)
    (dofs : list nat) (pd : list Q) (found : Scales) : list Q * Scales :=
  match dofs with
  | [] => (pd, found)
  | dof :: rest =>
      if negb (Synchronization.eqb (sync_at sync dof) Synchronization.Phase)
      then collinear_scales inp sync rest pd found
      else
        let pd' := set pd dof (get (InputParameter.target_position inp) dof
                               - get (InputParameter.current_position inp) dof) in
        let found' :=
          match found with
          | Some _ => found
          | None =>
              if Qltb eps (Qabs (get pd' dof))
              then Some (get (InputParameter.current_velocity inp) dof / get pd' dof,
                         get (InputParameter.current_acceleration inp) dof / get pd' dof,
                         get (InputParameter.target_velocity inp) dof / get pd' dof,
                         get (InputParameter.target_acceleration inp) dof / get pd' dof)
              else None
          end in
        collinear_scales inp sync rest pd' found'
  end.

(** Second loop of [is_input_collinear]: [new_max_jerk] as the loop leaves
    it, and [false] when it returns from inside the loop.  (A division by a
    zero [pd[limiting_dof]] gives an infinity or NaN in the source and is
    outside the numeric model.) *)
Fixpoint collinear_check (inp : InputParameter) (sync : list Synchronization)
    (pd : list Q) (scales : Q * Q * Q * Q) (max_jerk_limiting : Q)
    (limiting_dof : Z) (dofs : list nat) (new_max_jerk : list Q)
  : list Q * bool :=
  match dofs with
  | [] => (new_max_jerk, true)
  | dof :: rest =>
      if is_limiting dof limiting_dof
         || negb (Synchronization.eqb (sync_at sync dof) Synchronization.Phase)
      then collinear_check inp sync pd scales max_jerk_limiting limiting_dof
                           rest new_max_jerk
      else
        let '(v0_scale, a0_scale, vf_scale, af_scale) := scales in
        let eps_colinear := 10 * eps in
        if Qltb eps_colinear
             (Qabs (get (InputParameter.current_velocity inp) dof - v0_scale * get pd dof))
           || Qltb eps_colinear
             (Qabs (get (InputParameter.current_acceleration inp) dof - a0_scale * get pd dof))
           || Qltb eps_colinear
             (Qabs (get (InputParameter.target_velocity inp) dof - vf_scale * get pd dof))
           || Qltb eps_colinear
             (Qabs (get (InputParameter.target_acceleration inp) dof - af_scale * get pd dof))
        then (new_max_jerk, false)
        else
          let scale := get pd dof / limiting_get pd limiting_dof in
          collinear_check inp sync pd scales max_jerk_limiting limiting_dof
                          rest (set new_max_jerk dof (scale * max_jerk_limiting))
  end.

(** [Trajectory::is_input_collinear]: the flag, and [pd] and
    [new_max_jerk] as it leaves them. *)
Definition is_input_collinear (inp : InputParameter) (tr : Trajectory)
    (jMax : list Q) (limiting_direction : Direction) (limiting_dof : Z)
  : bool * Trajectory :=
  let dofs := seq 0 (length (pd tr)) in
  let (pd', found) :=
    collinear_scales inp (inp_per_dof_synchronization tr) dofs (pd tr)
                     Datatypes.None in
  match found with
  | Datatypes.None => (false, set_pd_jerk pd' (new_max_jerk tr) tr)
  | Some scales =>
      let max_jerk_limiting :=
        match limiting_direction with
        | UP => limiting_get jMax limiting_dof
        | DOWN => - limiting_get jMax limiting_dof
        end in
      let (jerk', ok) :=
        collinear_check inp (inp_per_dof_synchronization tr) pd' scales
                        max_jerk_limiting limiting_dof dofs (new_max_jerk tr) in
      (ok, set_pd_jerk pd' jerk' tr)
  end.

(** *** calculate *)

Section Calculate.
Context {planner : Planner}.

(** What a loop of [calculate] hands on: the trajectory object, the calls
    made so far, and the outcome if the loop left the function. *)
Definition Step : Type := Trajectory * list Call * option Outcome.

(** "Integrate brake pre-trajectory": the loop over [i < 2] that stops at
    the first [p.brake.t[i]] that is not positive. *)
Fixpoint integrate_brake (i n : nat) (brake : BrakeProfile) (p0 v0 a0 : Q)
  : BrakeProfile * (Q * Q * Q) :=
  match n with
  | O => (brake, (p0, v0, a0))
  | S n' =>
      if Qltb 0 (get (BrakeProfile.t brake) i) then
        let brake' := BrakeProfile.set_pva i p0 v0 a0 brake in
        let '(p1, v1, a1) :=
          Profile.integrate (get (BrakeProfile.t brake) i) p0 v0 a0
                            (get (BrakeProfile.j brake) i) in
        integrate_brake (i + 1) n' brake' p1 v1 a1
      else (brake, (p0, v0, a0))
  end.

(** Body of the first loop of [calculate] for one DoF. *)
Definition prepare_dof (throw_error : bool) (inp : InputParameter)
    (tr : Trajectory) (dof : nat) : Step :=
  let p := profile_at (profiles tr) dof in
  if negb (enabled_at inp dof) then
    let p1 :=
      Profile.set_final (get (InputParameter.current_position inp) dof)
                        (get (InputParameter.current_velocity inp) dof)
                        (get (InputParameter.current_acceleration inp) dof) p in
    let p2 := Profile.set_t_sum (set (Profile.t_sum p1) 6 0) p1 in
    (set_profiles (set (profiles tr) dof p2) tr, [], Datatypes.None)
  else
    let min_velocity :=
      match InputParameter.min_velocity inp with
      | Some l => get l dof
      | Datatypes.None => - get (InputParameter.max_velocity inp) dof
      end in
    let min_acceleration :=
      match InputParameter.min_acceleration inp with
      | Some l => get l dof
      | Datatypes.None => - get (InputParameter.max_acceleration inp) dof
      end in
    let control :=
      match InputParameter.per_dof_control_interface inp with
      | Some l => control_at l dof
      | Datatypes.None => InputParameter.control_interface inp
      end in
    let sync :=
      match InputParameter.per_dof_synchronization inp with
      | Some l => sync_at l dof
      | Datatypes.None => InputParameter.synchronization inp
      end in
    let tr1 :=
      set_inp (set (inp_min_velocity tr) dof min_velocity)
              (set (inp_min_acceleration tr) dof min_acceleration)
              (set (inp_per_dof_control_interface tr) dof control)
              (set (inp_per_dof_synchronization tr) dof sync) tr in
    let cp := get (InputParameter.current_position inp) dof in
    let cv := get (InputParameter.current_velocity inp) dof in
    let ca := get (InputParameter.current_acceleration inp) dof in
    let vMax := get (InputParameter.max_velocity inp) dof in
    let aMax := get (InputParameter.max_acceleration inp) dof in
    let jMax := get (InputParameter.max_jerk inp) dof in
    let '(brake_t, brake_j) :=
      match control with
      | Position =>
          get_position_brake_trajectory cv ca vMax min_velocity aMax
            min_acceleration jMax
            (BrakeProfile.t (Profile.brake p)) (BrakeProfile.j (Profile.brake p))
      | Velocity =>
          get_velocity_brake_trajectory ca aMax min_acceleration jMax
            (BrakeProfile.t (Profile.brake p)) (BrakeProfile.j (Profile.brake p))
      end in
    let brake1 :=
      BrakeProfile.set_duration (get brake_t 0 + get brake_t 1)
        (BrakeProfile.set_t_j brake_t brake_j (Profile.brake p)) in
    let '(brake2, (p0, v0, a0)) := integrate_brake 0 2 brake1 cp cv ca in
    let p' := Profile.set_brake brake2 p in
    let tr2 :=
      set_start (set (p0s tr1) dof p0) (set (v0s tr1) dof v0)
                (set (a0s tr1) dof a0)
                (set_profiles (set (profiles tr1) dof p') tr1) in
    let '(found_profile, block) :=
      match control with
      | Position =>
          position_step1_get_profile p0 v0 a0
            (get (InputParameter.target_position inp) dof)
            (get (InputParameter.target_velocity inp) dof)
            (get (InputParameter.target_acceleration inp) dof)
            vMax min_velocity aMax min_acceleration jMax
            p' (block_at (blocks tr2) dof)
      | Velocity =>
          velocity_step1_get_profile p0 v0 a0
            (get (InputParameter.target_velocity inp) dof)
            (get (InputParameter.target_acceleration inp) dof)
            aMax min_acceleration jMax
            p' (block_at (blocks tr2) dof)
      end in
    let tr3 := set_blocks (set (blocks tr2) dof block) tr2 in
    let calls := [call_brake dof; call_step1 dof] in
    if negb found_profile then
      (tr3, calls,
       Some (if throw_error then Throws (error_in_step_1 dof)
             else Returns ErrorExecutionTimeCalculation))
    else
      (set_independent_min_durations
         (set (independent_min_durations tr3) dof
              (BrakeProfile.duration
                 (Profile.brake (Block.p_min (block_at (blocks tr3) dof)))
               + Block.t_min (block_at (blocks tr3) dof))) tr3,
       calls, Datatypes.None).

(** A [for] loop over DoFs that a [return] or [throw] in its body leaves. *)
Fixpoint for_each (body : Trajectory -> nat -> Step) (dofs : list nat)
    (tr : Trajectory) : Step :=
  match dofs with
  | [] => (tr, [], Datatypes.None)
  | dof :: rest =>
      match body tr dof with
      | (tr', calls, Some out) => (tr', calls, Some out)
      | (tr', calls, Datatypes.None) =>
          let '(tr'', calls', out) := for_each body rest tr' in
          (tr'', calls ++ calls', out)
      end
  end.

(** "None Synchronization": body of the loop over [blocks]. *)
Definition none_sync_dof (inp : InputParameter) (limiting_dof : Z)
    (tr : Trajectory) (dof : nat) : Step :=
  if enabled_at inp dof && negb (is_limiting dof limiting_dof)
     && Synchronization.eqb (sync_at (inp_per_dof_synchronization tr) dof)
                            Synchronization.None
  then (set_profiles
          (set (profiles tr) dof (Block.p_min (block_at (blocks tr) dof))) tr,
        [], Datatypes.None)
  else (tr, [], Datatypes.None).

(** "Phase Synchronization": body of the loop over the profiles; the flag
    is [found_time_synchronization] after the round. *)
Definition phase_sync_dof (inp : InputParameter) (limiting_dof : Z)
    (acc : Trajectory * list Call * bool) (dof : nat)
  : Trajectory * list Call * bool :=
  let '(tr, calls, found) := acc in
  if negb (enabled_at inp dof) || is_limiting dof limiting_dof
     || negb (Synchronization.eqb (sync_at (inp_per_dof_synchronization tr) dof)
                                  Synchronization.Phase)
  then acc
  else
    let p := profile_at (profiles tr) dof in
    let limiting := limiting_profile (profiles tr) limiting_dof in
    let t_profile := dsub (duration tr) (BrakeProfile.duration (Profile.brake p)) in
    let p1 := Profile.set_jerk_signs (Profile.jerk_signs limiting)
                (Profile.set_t (Profile.t limiting) p) in
    let p2 := set_boundary p1
                (get (InputParameter.current_position inp) dof)
                (get (InputParameter.current_velocity inp) dof)
                (get (InputParameter.current_acceleration inp) dof)
                (get (InputParameter.target_position inp) dof)
                (get (InputParameter.target_velocity inp) dof)
                (get (InputParameter.target_acceleration inp) dof) in
    let '(ok, p3) :=
      check_with_timing (Profile.jerk_signs p2) p2 t_profile
        (get (new_max_jerk tr) dof)
        (get (InputParameter.max_velocity inp) dof)
        (get (inp_min_velocity tr) dof)
        (get (InputParameter.max_acceleration inp) dof)
        (get (inp_min_acceleration tr) dof)
        (get (InputParameter.max_jerk inp) dof) in
    let tr1 := set_profiles (set (profiles tr) dof p3) tr in
    (* the limiting profile is read again after the check *)
    let p4 := Profile.set_limits
                (Profile.limits (limiting_profile (profiles tr1) limiting_dof)) p3 in
    (set_profiles (set (profiles tr1) dof p4) tr1,
     calls ++ [call_check_with_timing dof],
     if ok then found else false).

(** The shortcut of the time synchronization: the stored profile whose end
    time the required profile duration meets within [eps], if any, in the
    order [t_min], [a->right], [b->right]. *)
Definition extremal_profile (block : Block) (t_profile : double)
  : option Profile :=
  if near t_profile (Block.t_min block) eps then Some (Block.p_min block)
  else
    match Block.a block with
    | Some iv =>
        if near t_profile (Block.right iv) eps then Some (Block.profile iv)
        else
          match Block.b block with
          | Some iv' =>
              if near t_profile (Block.right iv') eps
              then Some (Block.profile iv') else Datatypes.None
          | Datatypes.None => Datatypes.None
          end
    | Datatypes.None =>
        match Block.b block with
        | Some iv' =>
            if near t_profile (Block.right iv') eps
            then Some (Block.profile iv') else Datatypes.None
        | Datatypes.None => Datatypes.None
        end
    end.

(** [TimeIfNecessary] with a target at rest: the DoF keeps its fastest
    profile. *)
Definition time_not_necessary (inp : InputParameter) (tr : Trajectory)
    (dof : nat) : bool :=
  Synchronization.eqb (sync_at (inp_per_dof_synchronization tr) dof)
                      Synchronization.TimeIfNecessary
  && Qltb (Qabs (get (InputParameter.target_velocity inp) dof)) eps
  && Qltb (Qabs (get (InputParameter.target_acceleration inp) dof)) eps.

(** "Time Synchronization": body of the loop over the profiles. *)
Definition time_sync_dof (throw_error : bool) (inp : InputParameter)
    (limiting_dof : Z) (tr : Trajectory) (dof : nat) : Step :=
  if negb (enabled_at inp dof) || is_limiting dof limiting_dof
     || Synchronization.eqb (sync_at (inp_per_dof_synchronization tr) dof)
                            Synchronization.None
  then (tr, [], Datatypes.None)
  else
    let p := profile_at (profiles tr) dof in
    let block := block_at (blocks tr) dof in
    let t_profile := dsub (duration tr) (BrakeProfile.duration (Profile.brake p)) in
    if time_not_necessary inp tr dof then
      (set_profiles (set (profiles tr) dof (Block.p_min block)) tr, [],
       Datatypes.None)
    else
      match extremal_profile block t_profile with
      | Some stored =>
          (set_profiles (set (profiles tr) dof stored) tr, [], Datatypes.None)
      | Datatypes.None =>
          let '(found_time_synchronization, p') :=
            match control_at (inp_per_dof_control_interface tr) dof with
            | Position =>
                position_step2_get_profile t_profile
                  (get (p0s tr) dof) (get (v0s tr) dof) (get (a0s tr) dof)
                  (get (InputParameter.target_position inp) dof)
                  (get (InputParameter.target_velocity inp) dof)
                  (get (InputParameter.target_acceleration inp) dof)
                  (get (InputParameter.max_velocity inp) dof)
                  (get (inp_min_velocity tr) dof)
                  (get (InputParameter.max_acceleration inp) dof)
                  (get (inp_min_acceleration tr) dof)
                  (get (InputParameter.max_jerk inp) dof) p
            | Velocity =>
                velocity_step2_get_profile t_profile
                  (get (p0s tr) dof) (get (v0s tr) dof) (get (a0s tr) dof)
                  (get (InputParameter.target_velocity inp) dof)
                  (get (InputParameter.target_acceleration inp) dof)
                  (get (InputParameter.max_acceleration inp) dof)
                  (get (inp_min_acceleration tr) dof)
                  (get (InputParameter.max_jerk inp) dof) p
            end in
          let tr' := set_profiles (set (profiles tr) dof p') tr in
          if negb found_time_synchronization then
            (tr', [call_step2 dof],
             Some (if throw_error then Throws (error_in_step_2 dof)
                   else Returns ErrorSynchronizationCalculation))
          else (tr', [call_step2 dof], Datatypes.None)
      end.

Definition is_none (s : Synchronization) : bool :=
  Synchronization.eqb s Synchronization.None.
Definition is_phase (s : Synchronization) : bool :=
  Synchronization.eqb s Synchronization.Phase.
Definition is_position (c : ControlInterface) : bool :=
  match c with Position => true | Velocity => false end.

(** "Phase Synchronization": the trajectory and the calls after the block,
    and whether the block returned [Working]. *)
Definition phase_synchronization (inp : InputParameter) (limiting_dof : Z)
    (tr : Trajectory) : Trajectory * list Call * bool :=
  if existsb is_phase (inp_per_dof_synchronization tr)
     && forallb is_position (inp_per_dof_control_interface tr)
  then
    let (collinear, tr') :=
      is_input_collinear inp tr (InputParameter.max_jerk inp)
        (Profile.direction (limiting_profile (profiles tr) limiting_dof))
        limiting_dof in
    if collinear then
      let '(tr'', calls, found_time_synchronization) :=
        fold_left (phase_sync_dof inp limiting_dof)
                  (seq 0 (length (profiles tr))) (tr', [], true) in
      (tr'', calls,
       found_time_synchronization
       && forallb (fun s => is_phase s || is_none s)
                  (inp_per_dof_synchronization tr''))
    else (tr', [], false)
  else (tr, [], false).

(** The part of [calculate] from "Phase Synchronization" to the end. *)
Definition phase_then_time (throw_error : bool) (inp : InputParameter)
    (limiting_dof : Z) (tr : Trajectory) : Step :=
  let '(tr1, calls1, done) := phase_synchronization inp limiting_dof tr in
  if done then (tr1, calls1, Some (Returns Working))
  else
    let '(tr2, calls2, out) :=
      for_each (time_sync_dof throw_error inp limiting_dof)
               (seq 0 (length (profiles tr))) tr1 in
    (tr2, calls1 ++ calls2,
     match out with
     | Some o => Some o
     | Datatypes.None => Some (Returns Working)
     end).

(** [Trajectory::calculate<throw_error, return_error_at_maximal_duration>]:
    how the call ends, the trajectory object after it and the collaborator
    calls it made.  ([was_interrupted] is set to [false] and not read.) *)
Definition calculate (throw_error return_error_at_maximal_duration : bool)
    (inp : InputParameter) (delta_time : Q) (tr : Trajectory)
  : Outcome * Trajectory * list Call :=
  match for_each (prepare_dof throw_error inp)
                 (seq 0 (length (profiles tr))) tr with
  | (tr1, calls1, Some out) => (out, tr1, calls1)
  | (tr1, calls1, Datatypes.None) =>
      let discrete_duration :=
        match InputParameter.duration_discretization inp with
        | Discrete => true
        | Continuous => false
        end in
      match synchronize (degrees_of_freedom tr1) (blocks tr1)
                        (InputParameter.minimum_duration inp) (profiles tr1)
                        discrete_duration delta_time with
      | Datatypes.None =>
          (if throw_error then Throws error_in_time_synchronization
           else Returns ErrorSynchronizationCalculation, tr1, calls1)
      | Some (t_sync, limiting_dof, profiles') =>
          let tr2 := set_duration t_sync (set_profiles profiles' tr1) in
          if return_error_at_maximal_duration && dlt (Fin 7600) (duration tr2)
          then (Returns ErrorTrajectoryDuration, tr2, calls1)
          else if dzero (duration tr2) then (Returns Working, tr2, calls1)
          else
            let '(tr3, _, _) :=
              for_each (none_sync_dof inp limiting_dof)
                       (seq 0 (length (blocks tr2))) tr2 in
            if forallb is_none (inp_per_dof_synchronization tr3)
            then (Returns Working, tr3, calls1)
            else
              match phase_then_time throw_error inp limiting_dof tr3 with
              | (tr4, calls2, Some out) => (out, tr4, calls1 ++ calls2)
              | (tr4, calls2, Datatypes.None) =>
                  (Returns Working, tr4, calls1 ++ calls2)
              end
      end
  end.

(** [Trajectory::continue_calculation] *)
Definition continue_calculation (inp : InputParameter) (delta_time : Q)
    (tr : Trajectory) : Result := Error.

End Calculate.

(** *** at_time *)

(** [std::upper_bound] on an array: the binary search of the standard
    library, [first] and [len] being its two loop variables.  On a sorted
    array it is the index of the first element greater than [val]. *)
Fixpoint upper_bound_loop (fuel : nat) (arr : list Q) (val : Q)
    (first len : nat) : nat :=
  match fuel with
  | O => first
  | S fuel' =>
      if Nat.eqb len 0 then first
      else
        let half := (len / 2)%nat in
        let middle := (first + half)%nat in
        if Qltb val (get arr middle)
        then upper_bound_loop fuel' arr val first half
        else upper_bound_loop fuel' arr val (middle + 1) (len - half - 1)
  end.

Definition upper_bound (arr : list Q) (val : Q) : nat :=
  upper_bound_loop (length arr) arr val 0 (length arr).

(** The state one DoF is given when [time >= duration]. *)
Definition sample_after (p : Profile) (time : Q) : Q * Q * Q :=
  let t_diff :=
    time - (BrakeProfile.duration (Profile.brake p) + get (Profile.t_sum p) 6) in
  Profile.integrate t_diff (Profile.pf p) (Profile.vf p) (Profile.af p) 0.

(** The state one DoF is given when [time < duration]. *)
Definition sample_within (p : Profile) (time : Q) : Q * Q * Q :=
  let brake := Profile.brake p in
  let t_diff := time in
  if Qltb 0 (BrakeProfile.duration brake)
     && Qltb t_diff (BrakeProfile.duration brake)
  then
    let index := if Qltb t_diff (get (BrakeProfile.t brake) 0) then O else 1%nat in
    let t_diff :=
      if Nat.ltb 0 index
      then t_diff - get (BrakeProfile.t brake) (index - 1) else t_diff in
    Profile.integrate t_diff (get (BrakeProfile.p brake) index)
      (get (BrakeProfile.v brake) index) (get (BrakeProfile.a brake) index)
      (get (BrakeProfile.j brake) index)
  else
    let t_diff :=
      if Qltb 0 (BrakeProfile.duration brake)
      then t_diff - BrakeProfile.duration brake else t_diff in
    if Qle_bool (get (Profile.t_sum p) 6) t_diff then
      Profile.integrate (t_diff - get (Profile.t_sum p) 6)
        (Profile.pf p) (Profile.vf p) (Profile.af p) 0
    else
      let index := upper_bound (Profile.t_sum p) t_diff in
      let t_diff :=
        if Nat.ltb 0 index
        then t_diff - get (Profile.t_sum p) (index - 1) else t_diff in
      Profile.integrate t_diff (get (Profile.p p) index)
        (get (Profile.v p) index) (get (Profile.a p) index)
        (get (Profile.j p) index).

(** The loop over the profiles that writes the three output vectors. *)
Fixpoint write_samples (sample : Profile -> Q * Q * Q) (profiles : list Profile)
    (dof : nat) (out : list Q * list Q * list Q) : list Q * list Q * list Q :=
  match profiles with
  | [] => out
  | p :: rest =>
      let '(new_position, new_velocity, new_acceleration) := out in
      let '(x, y, z) := sample p in
      write_samples sample rest (dof + 1)
        (set new_position dof x, set new_velocity dof y,
         set new_acceleration dof z)
  end.

(** [Trajectory::at_time] for a finite sampling time: the three output
    vectors and [new_section] after the call; [None] is the
    [std::runtime_error] that the variant with a run-time number of DoFs
    ([DOFs = 0]) throws when an output vector has the wrong size. *)
Definition at_time (DOFs : nat) (tr : Trajectory) (time : Q)
    (new_position new_velocity new_acceleration : list Q)
  : option (list Q * list Q * list Q * nat) :=
  if Nat.eqb DOFs 0
     && (negb (Nat.eqb (degrees_of_freedom tr) (length new_position))
         || negb (Nat.eqb (degrees_of_freedom tr) (length new_velocity))
         || negb (Nat.eqb (degrees_of_freedom tr) (length new_acceleration)))
  then Datatypes.None
  else if dge (Fin time) (duration tr) then
    Some (write_samples (fun p => sample_after p time) (profiles tr) 0
            (new_position, new_velocity, new_acceleration), 1%nat)
  else
    Some (write_samples (fun p => sample_within p time) (profiles tr) 0
            (new_position, new_velocity, new_acceleration), 0%nat).

(** [get_duration] and [get_independent_min_durations] *)
Definition get_duration (tr : Trajectory) : double := duration tr.
Definition get_independent_min_durations (tr : Trajectory) : list Q :=
  independent_min_durations tr.

End Trajectory.

Abbreviation Trajectory := Trajectory.Trajectory.

(** ** Step 1 of the position interface (src/step1.cpp)

    The source file is the Step 1 of an earlier revision of the library.
    Of its candidate families only [ACC0_ACC1_VEL] has segment times that
    are rational in the inputs; the other families take square roots or
    roots of polynomials and are outside the numeric model.  The helper
    [Power] (wolfram.hpp) and the methods [Profile::set] and
    [Profile::check] are declared in headers that are not among the sources
    and are parameters here. *)

Module Step1.

(** The members of [Step1] that the modelled functions touch. *)
Record Step1 : Type := mk {
  p0 : Q;
  v0 : Q;
  a0 : Q;
  pf : Q;
  vf : Q;
  af : Q;
  valid_profiles : list Profile   (* std::vector<Profile> *)
}.

Definition set_valid_profiles (x : list Profile) (s : Step1) : Step1 :=
  mk (p0 s) (v0 s) (a0 s) (pf s) (vf s) (af s) x.

Definition set_direction (d : Direction) (x : Profile) : Profile :=
  Profile.mk (Profile.t x) (Profile.t_sum x) (Profile.j x) (Profile.a x)
    (Profile.v x) (Profile.p x) (Profile.pf x) (Profile.vf x) (Profile.af x)
    (Profile.limits x) d (Profile.jerk_signs x) (Profile.brake x).

(** [Step1::add_profile] *)
Definition add_profile (s : Step1) (profile : Profile) (limits : Limits)
    (jMax : Q) : Step1 :=
  let profile := Profile.set_limits limits profile in
  let profile := set_direction (if Qltb 0 jMax then UP else DOWN) profile in
  set_valid_profiles (valid_profiles s ++ [profile]) s.

Section Helpers.
(* Power(x, n) of wolfram.hpp *)
Variable Power : Q -> Z -> Q.
(* profile.set(j) *)
Variable profile_set : list Q -> Profile -> Profile.
(* profile.check(pf, vf, af, vMax, aMax) *)
Variable profile_check : Profile -> Q -> Q -> Q -> Q -> Q -> bool.

(** The seven segment times [time_up_acc0_acc1_vel] writes to
    [profile.t]. *)
Definition acc0_acc1_vel_times (s : Step1) (vMax aMax jMax : Q) : list Q :=
  let a0_a0 := a0 s * a0 s in
  let af_af := af s * af s in
  let aMax_aMax := aMax * aMax in
  let t0 := (- a0 s + aMax) / jMax in
  let t1 := (a0_a0 / 2 - aMax_aMax - jMax * (v0 s - vMax)) / (aMax * jMax) in
  let t2 := t0 + a0 s / jMax in
  let t3 :=
    (3 * (a0_a0 * a0_a0 + af_af * af_af)
     + 8 * aMax * (af_af * af s - a0_a0 * a0 s)
     + 24 * aMax * jMax * (a0 s * v0 s - af s * vf s)
     + 6 * a0_a0 * (aMax_aMax - 2 * jMax * v0 s)
     + 6 * af_af * (aMax_aMax - 2 * jMax * vf s)
     - 12 * jMax * (2 * aMax * jMax * (p0 s - pf s)
                    + aMax_aMax * (v0 s + vf s + 2 * vMax)
                    - jMax * (Power (v0 s) 2 + Power (vf s) 2
                              - 2 * Power vMax 2)))
    / (24 * aMax * Power jMax 2 * vMax) in
  let t4 := t2 in
  let t5 := (af_af / 2 - aMax_aMax - jMax * (vf s - vMax)) / (aMax * jMax) in
  let t6 := t4 + af s / jMax in
  [t0; t1; t2; t3; t4; t5; t6].

(** The jerks it passes to [profile.set]. *)
Definition acc0_acc1_vel_jerks (jMax : Q) : list Q :=
  [jMax; 0; - jMax; 0; - jMax; 0; jMax].

(** [Step1::time_up_acc0_acc1_vel]: the object and the profile after the
    call. *)
Definition time_up_acc0_acc1_vel (s : Step1) (profile : Profile)
    (vMax aMax jMax : Q) : Step1 * Profile :=
  let profile := Profile.set_t (acc0_acc1_vel_times s vMax aMax jMax) profile in
  let profile := profile_set (acc0_acc1_vel_jerks jMax) profile in
  if profile_check profile (pf s) (vf s) (af s) vMax aMax
  then (add_profile s profile ACC0_ACC1_VEL jMax, profile)
  else (s, profile).

(** [Step1::time_down_acc0_acc1_vel] *)
Definition time_down_acc0_acc1_vel (s : Step1) (profile : Profile)
    (vMax aMax jMax : Q) : Step1 * Profile :=
  time_up_acc0_acc1_vel s profile (- vMax) (- aMax) (- jMax).

End Helpers.
End Step1.

(** ** Vocabulary of the statements *)

(** [t] lies strictly inside the interval. *)
Definition strictly_inside (i : Interval) (t : double) : Prop :=
  dlt (Fin (Block.left i)) t = true /\ dlt t (Fin (Block.right i)) = true.

(** Two profiles that the four-profile case of [calculate_block] takes for
    one: their [t_sum[6]] agree within [k eps] and their directions
    differ. *)
Definition near_duplicates (k : Q) (x y : Profile) : Prop :=
  Qabs (get (Profile.t_sum x) 6 - get (Profile.t_sum y) 6) < k * eps
  /\ Profile.direction x <> Profile.direction y.

(** [blk] is the block that [calculate_block] assembles from the three
    profiles [r]: [p_min] is the first of them that none of the three is
    faster than (by [t_sum[6]]), [t_min] is its total duration, interval
    [a] is built by [add_interval] from the two others, taken cyclically
    after it, and there is no interval [b]. *)
Definition assembled_from_three (r : list Profile) (blk : Block) : Prop :=
  exists m,
    (m < 3)%nat
    /\ (forall j, (j < 3)%nat ->
                  get (Profile.t_sum (Block.vp r m)) 6
                  <= get (Profile.t_sum (Block.vp r j)) 6)
    /\ (forall j, (j < m)%nat ->
                  get (Profile.t_sum (Block.vp r m)) 6
                  < get (Profile.t_sum (Block.vp r j)) 6)
    /\ blk = Block.mk (Block.vp r m)
               (Profile.total_duration (Block.vp r m))
               (Some (Block.add_interval (Block.vp r ((m + 1) mod 3))
                                         (Block.vp r ((m + 2) mod 3))))
               None.

(** An outcome other than the duration error. *)
Definition not_duration_error (out : Outcome) : Prop :=
  out <> Returns ErrorTrajectoryDuration.

(** The required profile duration of a DoF in the time synchronization,
    [duration - p.brake.duration]. *)
Definition required_duration (tr : Trajectory) (dof : nat) : double :=
  dsub (Trajectory.duration tr)
    (BrakeProfile.duration
       (Profile.brake (Trajectory.profile_at (Trajectory.profiles tr) dof))).

(** A DoF that the time synchronization loop does not skip and does not
    treat as independent, and whose required duration meets a stored end
    time of its block, [stored] being the profile the shortcut takes. *)
Definition meets_stored_end (inp : InputParameter) (limiting_dof : Z)
    (tr : Trajectory) (dof : nat) (stored : Profile) : Prop :=
  (dof < length (Trajectory.profiles tr))%nat
  /\ Trajectory.enabled_at inp dof = true
  /\ Trajectory.is_limiting dof limiting_dof = false
  /\ Trajectory.sync_at (Trajectory.inp_per_dof_synchronization tr) dof
     <> Synchronization.None
  /\ Trajectory.time_not_necessary inp tr dof = false
  /\ Trajectory.extremal_profile
       (Trajectory.block_at (Trajectory.blocks tr) dof)
       (required_duration tr dof) = Some stored.

(** The candidate of index [i] is at most the candidate of index [k]. *)
Definition candidate_le (candidates : list double) (i k : nat) : Prop :=
  dle (Trajectory.t_sync_at candidates i) (Trajectory.t_sync_at candidates k).

(** [t] is strictly inside no forbidden interval of any of the blocks. *)
Definition outside_intervals (blocks : list Block) (t : double) : Prop :=
  forall blk i, In blk blocks ->
    Block.a blk = Some i \/ Block.b blk = Some i -> ~ strictly_inside i t.

(** [t] is not below the floor the caller asked for, if any. *)
Definition above_floor (t_min : option Q) (t : double) : Prop :=
  forall f, t_min = Some f -> dle (Fin f) t.


(** The same for a rounding [round], whatever it evaluates to. *)
Definition rounded_by (round : double -> double) (discrete_duration : bool)
    (x : double) : double :=
  if discrete_duration then round x else x.

(** The rounding does not fall below a finite candidate, and is finite
    there. *)
Definition rounds_up (round : double -> double) (candidates : list double)
  : Prop :=
  forall x, In (Fin x) candidates ->
    exists q, round (Fin x) = Fin q /\ x <= q.

(** A rounded candidate that is not below the [t_min] of a block is not
    below the rounding of that [t_min] either, as it is when the roundings
    are multiples of the quantum. *)
Definition rounds_to_multiples (round : double -> double)
    (blocks : list Block) (candidates : list double) : Prop :=
  forall blk x, In blk blocks -> In x candidates ->
    dle (Fin (Block.t_min blk)) (round x) ->
    dle (round (Fin (Block.t_min blk))) (round x).

(** [limiting_dof] is an index into a vector of [n] entries. *)
Definition is_index (limiting_dof : Z) (n : nat) : Prop :=
  (0 <= limiting_dof < Z.of_nat n)%Z.

(** The DoF a collaborator call is made for. *)
Definition call_dof (c : Call) : nat :=
  match c with
  | call_brake dof | call_step1 dof | call_check_with_timing dof
  | call_step2 dof => dof
  end.

(** The profile the set-up loop of [calculate] writes for a disabled DoF
    whose profile was [p]. *)
Definition frozen (inp : InputParameter) (dof : nat) (p : Profile) : Profile :=
  let p1 :=
    Profile.set_final (get (InputParameter.current_position inp) dof)
                      (get (InputParameter.current_velocity inp) dof)
                      (get (InputParameter.current_acceleration inp) dof) p in
  Profile.set_t_sum (set (Profile.t_sum p1) 6 0) p1.

(** The profile [q] rests in the current state of DoF [dof]: its final
    state is the current state, its [t_sum[6]] is zero, and its brake prefix
    is the one of [p]. *)
Definition holds_current_state (inp : InputParameter) (dof : nat)
    (p q : Profile) : Prop :=
  Profile.pf q = get (InputParameter.current_position inp) dof
  /\ Profile.vf q = get (InputParameter.current_velocity inp) dof
  /\ Profile.af q = get (InputParameter.current_acceleration inp) dof
  /\ get (Profile.t_sum q) 6 = 0
  /\ Profile.brake q = Profile.brake p.

(** [p] is one of the profiles the block stores. *)
Definition stored_in (blk : Block) (p : Profile) : Prop :=
  p = Block.p_min blk
  \/ (exists iv, Block.a blk = Some iv /\ p = Block.profile iv)
  \/ (exists iv, Block.b blk = Some iv /\ p = Block.profile iv).

(** A step of [calculate] that leaves the profile and the block of DoF
    [dof] alone and calls collaborators for enabled DoFs only. *)
Definition keeps (inp : InputParameter) (dof : nat) (s s' : Trajectory)
    (calls : list Call) : Prop :=
  length (Trajectory.profiles s') = length (Trajectory.profiles s)
  /\ Trajectory.profile_at (Trajectory.profiles s') dof
     = Trajectory.profile_at (Trajectory.profiles s) dof
  /\ Trajectory.block_at (Trajectory.blocks s') dof
     = Trajectory.block_at (Trajectory.blocks s) dof
  /\ Trajectory.degrees_of_freedom s' = Trajectory.degrees_of_freedom s
  /\ (forall c, In c calls -> Trajectory.enabled_at inp (call_dof c) = true).

(** The state [(p, v, a)] is the current state of DoF [dof] evolved under
    its constant current acceleration for the time [time]. *)
Definition evolved (inp : InputParameter) (dof : nat) (time : Q)
    (state : Q * Q * Q) : Prop :=
  let cp := get (InputParameter.current_position inp) dof in
  let cv := get (InputParameter.current_velocity inp) dof in
  let ca := get (InputParameter.current_acceleration inp) dof in
  let '(x, y, z) := state in
  x == cp + cv * time + (1 # 2) * ca * time * time
  /\ y == cv + ca * time
  /\ z == ca.

(** A step of [calculate] that changes neither the blocks, nor the
    reported independent minimum durations, nor the duration. *)
Definition same_plan (s s' : Trajectory) : Prop :=
  Trajectory.blocks s' = Trajectory.blocks s
  /\ Trajectory.independent_min_durations s'
     = Trajectory.independent_min_durations s
  /\ Trajectory.duration s' = Trajectory.duration s.

(** The invariant of a block: [t_min] is the total duration of [p_min], and
    every forbidden interval lies at or above [t_min] with [left <= right]. *)
Definition well_formed (blk : Block) : Prop :=
  Block.t_min blk = Profile.total_duration (Block.p_min blk)
  /\ forall iv, Block.a blk = Some iv \/ Block.b blk = Some iv ->
       Block.t_min blk <= Block.left iv /\ Block.left iv <= Block.right iv.

(** The outcomes an instantiation of [calculate] can end with. *)
Definition possible_outcome (throw_error return_error_at_maximal_duration : bool)
    (out : Outcome) : Prop :=
  match out with
  | Returns Working => True
  | Returns Error => False
  | Returns ErrorExecutionTimeCalculation
  | Returns ErrorSynchronizationCalculation => throw_error = false
  | Returns ErrorTrajectoryDuration => return_error_at_maximal_duration = true
  | Throws _ => throw_error = true
  end.

(** How [calculate] ends when Step 1 finds no profile for DoF [dof]. *)
Definition step1_failure (throw_error : bool) (dof : nat) : Outcome :=
  if throw_error then Throws (error_in_step_1 dof)
  else Returns ErrorExecutionTimeCalculation.

(** The collaborator calls of the set-up loop of [calculate] over the DoFs
    [dofs]: the brake and Step 1 for every enabled DoF. *)
Definition setup_calls (inp : InputParameter) (dofs : list nat) : list Call :=
  flat_map (fun dof => if Trajectory.enabled_at inp dof
                       then [call_brake dof; call_step1 dof] else []) dofs.

(** A step of [calculate] that passes over DoF [dof]: it leaves the
    profile of the DoF, the blocks and the per-DoF synchronization alone and
    makes no collaborator call for the DoF. *)
Definition passes_over (dof : nat) (s s' : Trajectory) (calls : list Call)
  : Prop :=
  Trajectory.profile_at (Trajectory.profiles s') dof
  = Trajectory.profile_at (Trajectory.profiles s) dof
  /\ Trajectory.blocks s' = Trajectory.blocks s
  /\ Trajectory.inp_per_dof_synchronization s'
     = Trajectory.inp_per_dof_synchronization s
  /\ length (Trajectory.profiles s') = length (Trajectory.profiles s)
  /\ (forall c, In c calls -> call_dof c <> dof).


(** The DoF is phase-synchronized in the trajectory object. *)
Definition phase_synchronized (tr : Trajectory) (dof : nat) : bool :=
  Synchronization.eqb
    (Trajectory.sync_at (Trajectory.inp_per_dof_synchronization tr) dof)
    Synchronization.Phase.


(** The DoFs the phase synchronization loop of [calculate] does not skip:
    enabled, not the limiting one, and phase-synchronized. *)
Definition phase_checked (inp : InputParameter) (limiting_dof : Z)
    (tr : Trajectory) (dof : nat) : bool :=
  Trajectory.enabled_at inp dof
  && negb (Trajectory.is_limiting dof limiting_dof)
  && phase_synchronized tr dof.

(** The state after the segments of durations [ts] with the jerks [js],
    integrated one after the other from [state]. *)
Fixpoint run_segments (ts js : list Q) (state : Q * Q * Q) : Q * Q * Q :=
  match ts, js with
  | t :: ts', j :: js' =>
      let '(p, v, a) := state in
      run_segments ts' js' (Profile.integrate t p v a j)
  | _, _ => state
  end.

(** The problem seen from the other side: every position, velocity and
    acceleration negated. *)
Definition mirrored (s : Step1.Step1) : Step1.Step1 :=
  Step1.mk (- Step1.p0 s) (- Step1.v0 s) (- Step1.a0 s)
    (- Step1.pf s) (- Step1.vf s) (- Step1.af s) (Step1.valid_profiles s).

(** ** Concrete data used by the examples below *)

Module Examples.

(** A profile that is zero everywhere except for its last [t_sum] entry,
    its brake duration and its direction. *)
Definition profile_of (t_sum6 brake_duration : Q) (d : Direction) : Profile :=
  Profile.mk Profile.zero7 [0; 0; 0; 0; 0; 0; t_sum6] Profile.zero7
    Profile.zero7 Profile.zero7 Profile.zero7 0 0 0 NONE d UDDU
    (BrakeProfile.set_duration brake_duration BrakeProfile.zero).

(** Five valid profiles of one DoF: the fastest first, then two pairs of
    which the neighbours differ in direction. *)
Definition five_profiles : list Profile :=
  [profile_of 1 0 UP; profile_of 2 0 UP; profile_of 3 0 DOWN;
   profile_of 4 0 DOWN; profile_of 5 0 UP].

(** The block [calculate_block] assembles from them: [t_min = 1],
    [a = (2, 5)], [b = (3, 4)]. *)
Definition nested_block : Block :=
  fst (Block.calculate_block true (Block.Block_of Profile.zero) five_profiles 5).

(** A finished one-DoF trajectory of duration 3 that ends at position 1
    with velocity 1/2. *)
Definition finished : Trajectory :=
  Trajectory.mk
    [Profile.mk Profile.zero7 [1; 1; 2; 2; 2; 3; 3] Profile.zero7
       Profile.zero7 Profile.zero7 Profile.zero7 1 (1 # 2) 0 NONE UP UDDU
       BrakeProfile.zero]
    (Fin 3) [3] [0] [Block.Block_of Profile.zero] [0] [0] [0] [0] [0]
    [Position] [Synchronization.Time] [0] 1.

(** A stand-in for the collaborators, enough to run [calculate]: the
    position brake lowers a velocity above [vMax] with full negative jerk,
    Step 1 answers with a single profile as long as the displacement,
    Step 2 stretches a profile to the duration it is given. *)
Definition stand_in : Planner := {|
  get_position_brake_trajectory v0 a0 vMax vMin aMax aMin jMax t_brake j_brake :=
    if Qltb vMax v0 then ([(v0 - vMax) / jMax; 0], [- jMax; 0])
    else ([0; 0], [0; 0]);
  get_velocity_brake_trajectory a0 aMax aMin jMax t_brake j_brake :=
    ([0; 0], [0; 0]);
  position_step1_get_profile p0 v0 a0 pf vf af vMax vMin aMax aMin jMax input block :=
    (true,
     Block.Block_of
       (Profile.set_final pf vf af
          (Profile.set_t_sum [0; 0; 0; 0; 0; 0; Qabs (pf - p0)] input)));
  velocity_step1_get_profile p0 v0 a0 vf af aMax aMin jMax input block :=
    (true,
     Block.Block_of
       (Profile.set_final p0 vf af
          (Profile.set_t_sum [0; 0; 0; 0; 0; 0; Qabs (vf - v0)] input)));
  position_step2_get_profile tf p0 v0 a0 pf vf af vMax vMin aMax aMin jMax p :=
    match tf with
    | Fin d => (true, Profile.set_final pf vf af
                        (Profile.set_t_sum [0; 0; 0; 0; 0; 0; d] p))
    | Inf => (false, p)
    end;
  velocity_step2_get_profile tf p0 v0 a0 vf af aMax aMin jMax p :=
    match tf with
    | Fin d => (true, Profile.set_final p0 vf af
                        (Profile.set_t_sum [0; 0; 0; 0; 0; 0; d] p))
    | Inf => (false, p)
    end;
  set_boundary p p0 v0 a0 pf vf af := Profile.set_final pf vf af p;
  check_with_timing signs p tf jf vMax vMin aMax aMin jMax := (true, p)
|}.

(** A stand-in whose Step 1 finds no profile. *)
Definition without_profiles : Planner := {|
  get_position_brake_trajectory v0 a0 vMax vMin aMax aMin jMax t_brake j_brake :=
    ([0; 0], [0; 0]);
  get_velocity_brake_trajectory a0 aMax aMin jMax t_brake j_brake :=
    ([0; 0], [0; 0]);
  position_step1_get_profile p0 v0 a0 pf vf af vMax vMin aMax aMin jMax input block :=
    (false, block);
  velocity_step1_get_profile p0 v0 a0 vf af aMax aMin jMax input block :=
    (false, block);
  position_step2_get_profile tf p0 v0 a0 pf vf af vMax vMin aMax aMin jMax p :=
    (false, p);
  velocity_step2_get_profile tf p0 v0 a0 vf af aMax aMin jMax p :=
    (false, p);
  set_boundary p p0 v0 a0 pf vf af := p;
  check_with_timing signs p tf jf vMax vMin aMax aMin jMax := (false, p)
|}.

(** Two DoFs in position control, the first synchronized in time, the
    second one independent ([Synchronization::None]). *)
Definition one_independent : InputParameter :=
  InputParameter.mk Position Synchronization.Time Continuous None
    (Some [Synchronization.Time; Synchronization.None]) None
    [true; true] [0; 0] [0; 0] [0; 0] [10; 5] [0; 0] [0; 0]
    [1; 1] [1; 1] [1; 1] None None.

(** One DoF at rest that is to reach position 5 at rest in no less than
    8 seconds. *)
Definition with_floor : InputParameter :=
  InputParameter.mk Position Synchronization.Time Continuous None None
    (Some 8) [true] [0] [0] [0] [5] [0] [0] [1] [1] [1] None None.

(** A trajectory object as the time synchronization finds it: duration 5
    from the limiting DoF 0; DoF 1 is synchronized only if necessary and
    its fastest profile takes 2. *)
Definition if_necessary : Trajectory :=
  Trajectory.mk [profile_of 5 0 UP; profile_of 3 0 UP] (Fin 5) [5; 2] [0; 0]
    [Block.Block_of (profile_of 5 0 UP); Block.Block_of (profile_of 2 0 UP)]
    [0; 0] [0; 0] [0; 0] [-1; -1] [-1; -1] [Position; Position]
    [Synchronization.Time; Synchronization.TimeIfNecessary] [0; 0] 2.

(** Step 1 for a DoF at rest at 0 that is to come to rest at 5. *)
Definition rest_to_five : Step1.Step1 := Step1.mk 0 0 0 5 0 0 [].

(** A fresh trajectory object for [n] DoFs. *)
Definition fresh (n : nat) : Trajectory :=
  Trajectory.mk (repeat Profile.zero n) (Fin 0) (repeat 0 n) (repeat 0 n)
    (repeat (Block.Block_of Profile.zero) n) (repeat 0 n) (repeat 0 n)
    (repeat 0 n) (repeat 0 n) (repeat 0 n) (repeat Position n)
    (repeat Synchronization.Time n) (repeat 0 n) n.

(** One DoF in position control that moves faster than its velocity limit:
    current velocity 2 with [vMax = 1], to be brought to rest at position 5. *)
Definition too_fast : InputParameter :=
  InputParameter.mk Position Synchronization.Time Continuous None None None
    [true] [0] [2] [0] [5] [0] [0] [1] [1] [1] None None.

(** The block of the one-DoF rest-to-rest motion of duration 3. *)
Definition rest_to_rest : list Block :=
  [Block.Block_of (profile_of 3 0 UP)].

(** Two DoFs with one forbidden interval each: [t_min = 1], [a = (2, 4)]
    and [t_min = 3], [a = (7/2, 5)]. *)
Definition two_blocks : list Block :=
  [Block.mk (profile_of 1 0 UP) 1
     (Some (Block.mkInterval 2 4 (profile_of 4 0 UP))) None;
   Block.mk (profile_of 3 0 UP) 3
     (Some (Block.mkInterval (7 # 2) 5 (profile_of 5 0 DOWN))) None].

(** Two DoFs in position control; the second one moves at velocity 2 with
    [vMax = 1], so its profile gets a brake prefix. *)
Definition first_plan : InputParameter :=
  InputParameter.mk Position Synchronization.Time Continuous None None None
    [true; true] [0; 0] [0; 2] [0; 0] [10; 5] [0; 0] [0; 0]
    [1; 1] [1; 1] [1; 1] None None.

(** The trajectory object after planning [first_plan] on a fresh object. *)
Definition reused : Trajectory :=
  snd (fst (@Trajectory.calculate stand_in false false first_plan 0 (fresh 2))).

(** The trajectory object after the set-up loop of that plan. *)
Definition prepared : Trajectory :=
  fst (fst (Trajectory.for_each
              (@Trajectory.prepare_dof stand_in false first_plan)
              (seq 0 2) (fresh 2))).

(** The next plan on the same object: the second DoF is disabled and
    stands at position 7. *)
Definition second_plan : InputParameter :=
  InputParameter.mk Position Synchronization.Time Continuous None None None
    [true; false] [0; 7] [0; 0] [0; 0] [10; 7] [0; 0] [0; 0]
    [1; 1] [1; 1] [1; 1] None None.

(** A trajectory object as the time synchronization finds it: duration 5
    from the limiting DoF 0; the block of DoF 1 has [t_min = 2] and the
    interval [a = (3, 5)]. *)
Definition synchronized : Trajectory :=
  Trajectory.mk [profile_of 5 0 UP; profile_of 2 0 UP] (Fin 5) [5; 2] [0; 0]
    [Block.Block_of (profile_of 5 0 UP);
     Block.mk (profile_of 2 0 UP) 2
       (Some (Block.mkInterval 3 5 (profile_of 5 0 DOWN))) None]
    [0; 0] [0; 0] [0; 0] [-1; -1] [-1; -1] [Position; Position]
    [Synchronization.Time; Synchronization.Time] [0; 0] 2.

(** The double nearest to 0.9. *)
Definition nine_tenths : Q := 8106479329266893 # 9007199254740992.

(** [std::ceil(x / 0.3) * 0.3] as double arithmetic evaluates it at the
    double 0.9: the quotient is 3, and the product of 3 and the double
    0.3 is the double just below the double 0.9.  Elsewhere the value
    without rounding error. *)
Definition round_to_three_tenths (x : double) : double :=
  match x with
  | Fin a =>
      if Qeq_bool a nine_tenths
      then Fin (2026619832316723 # 2251799813685248)
      else round_up (5404319552844595 # 18014398509481984) x
  | Inf => Inf
  end.

(** Two DoFs at rest in position control, synchronized in phase: the
    first is to move by 10, the second by 5. *)
Definition in_phase : InputParameter :=
  InputParameter.mk Position Synchronization.Phase Continuous None None None
    [true; true] [0; 0] [0; 0] [0; 0] [10; 5] [0; 0] [0; 0]
    [1; 1] [1; 1] [1; 1] None None.

(** A trajectory object as the phase synchronization finds it for that
    input: duration 10 from the limiting DoF 0. *)
Definition phased : Trajectory :=
  Trajectory.mk [profile_of 10 0 UP; profile_of 5 0 UP] (Fin 10) [10; 5]
    [0; 0]
    [Block.Block_of (profile_of 10 0 UP); Block.Block_of (profile_of 5 0 UP)]
    [0; 0] [0; 0] [0; 0] [-1; -1] [-1; -1] [Position; Position]
    [Synchronization.Phase; Synchronization.Phase] [0; 0] 2.

End Examples.

(** * Properties *)

(** ** Comparisons *)

Lemma Qltb_lt (x y : Q) : Qltb x y = true <-> x < y.
Proof.
  unfold Qltb. rewrite negb_true_iff.
  split; intro H.
  - apply Qnot_le_lt. intro Hle.
    apply Qle_bool_iff in Hle. congruence.
  - destruct (Qle_bool y x) eqn:E; [|reflexivity].
    apply Qle_bool_iff in E. exfalso. apply (Qlt_not_le _ _ H E).
Qed.

Lemma Qltb_ge (x y : Q) : Qltb x y = false <-> y <= x.
Proof.
  unfold Qltb. rewrite negb_false_iff. apply Qle_bool_iff.
Qed.

Lemma Qltb_irrefl (x : Q) : Qltb x x = false.
Proof. apply Qltb_ge. apply Qle_refl. Qed.

Lemma dlt_irrefl (x : double) : dlt x x = false.
Proof. destruct x; simpl; [apply Qltb_irrefl | reflexivity]. Qed.

Lemma dlt_Fin (x y : Q) : dlt (Fin x) (Fin y) = true <-> x < y.
Proof. simpl. apply Qltb_lt. Qed.

Lemma dlt_Fin_false (x y : Q) : dlt (Fin x) (Fin y) = false <-> y <= x.
Proof. simpl. apply Qltb_ge. Qed.

(** ** Block *)

Lemma inside_iff (o : option Interval) (t : double) :
  match o with
  | Some i => dlt (Fin (Block.left i)) t && dlt t (Fin (Block.right i))
  | None => false
  end = true <-> exists i, o = Some i /\ strictly_inside i t.
Proof.
  unfold strictly_inside. destruct o as [i|].
  - rewrite andb_true_iff. split.
    + intros H. exists i. split; [reflexivity | exact H].
    + intros [i' [Heq H]]. injection Heq as <-. exact H.
  - split; [discriminate | intros [i [Heq _]]; discriminate].
Qed.

Lemma is_blocked_iff (blk : Block) (t : double) :
  Block.is_blocked blk t = true <->
  dlt t (Fin (Block.t_min blk)) = true
  \/ (exists i, Block.a blk = Some i /\ strictly_inside i t)
  \/ (exists i, Block.b blk = Some i /\ strictly_inside i t).
Proof.
  unfold Block.is_blocked.
  rewrite !orb_true_iff, !inside_iff. tauto.
Qed.

Lemma endpoints_not_inside (i : Interval) :
  ~ strictly_inside i (Fin (Block.left i))
  /\ ~ strictly_inside i (Fin (Block.right i)).
Proof.
  unfold strictly_inside. split; intros [H1 H2].
  - rewrite dlt_irrefl in H1. discriminate.
  - rewrite dlt_irrefl in H2. discriminate.
Qed.

(** C2, as the code has it: [is_blocked(t)] holds exactly when [t < t_min]
    or [t] is strictly between the ends of interval [a] or of interval [b].
    Neither end of an interval is strictly inside that interval, so an end
    [e >= t_min] of one interval is blocked exactly when it lies strictly
    inside the other interval; it is feasible when it does not. *)
Theorem is_blocked_spec (blk : Block) (t : double) :
  (Block.is_blocked blk t = true <->
     dlt t (Fin (Block.t_min blk)) = true
     \/ (exists i, Block.a blk = Some i /\ strictly_inside i t)
     \/ (exists i, Block.b blk = Some i /\ strictly_inside i t))
  /\ (forall i e,
        Block.a blk = Some i ->
        e = Block.left i \/ e = Block.right i ->
        Block.t_min blk <= e ->
        (Block.is_blocked blk (Fin e) = true <->
           exists i', Block.b blk = Some i' /\ strictly_inside i' (Fin e)))
  /\ (forall i e,
        Block.b blk = Some i ->
        e = Block.left i \/ e = Block.right i ->
        Block.t_min blk <= e ->
        (Block.is_blocked blk (Fin e) = true <->
           exists i', Block.a blk = Some i' /\ strictly_inside i' (Fin e))).
Proof.
  split; [apply is_blocked_iff|].
  split; intros i e Hi He Hmin; rewrite is_blocked_iff; split.
  - intros [H | [[i' [Hi' H]] | H]].
    + apply dlt_Fin in H. exfalso. apply (Qlt_not_le _ _ H Hmin).
    + rewrite Hi in Hi'. injection Hi' as <-.
      destruct (endpoints_not_inside i) as [Hl Hr].
      destruct He as [-> | ->]; contradiction.
    + exact H.
  - intros H. right. right. exact H.
  - intros [H | [H | [i' [Hi' H]]]].
    + apply dlt_Fin in H. exfalso. apply (Qlt_not_le _ _ H Hmin).
    + exact H.
    + rewrite Hi in Hi'. injection Hi' as <-.
      destruct (endpoints_not_inside i) as [Hl Hr].
      destruct He as [-> | ->]; contradiction.
  - intros H. right. left. exact H.
Qed.

(** C2 at the block of five profiles: the left end 3 of interval [b] is not
    below [t_min = 1]; it is blocked, because it lies strictly inside
    interval [a = (2, 5)]. *)
Lemma is_blocked_spec_witness :
  Block.is_blocked Examples.nested_block (Fin 3) = true.
Proof.
  refine (proj2 (proj2 (proj2 (is_blocked_spec Examples.nested_block (Fin 3)))
                   (Block.mkInterval 3 4 (Examples.profile_of 4 0 DOWN)) 3
                   _ _ _) _).
  - reflexivity.
  - left. reflexivity.
  - vm_compute. discriminate.
  - exists (Block.mkInterval 2 5 (Examples.profile_of 5 0 UP)).
    split; [reflexivity|]. split; reflexivity.
Defined.

(** C2 as stated fails: [calculate_block] pairs five profiles into the
    intervals [a = (2, 5)] and [b = (3, 4)]; the left end of [b] is at
    least [t_min], and [is_blocked] returns [true] at it, because it lies
    strictly inside [a]. *)
Lemma endpoint_blocked_by_other_interval :
  exists i,
    Block.b Examples.nested_block = Some i
    /\ Block.t_min Examples.nested_block <= Block.left i
    /\ Block.is_blocked Examples.nested_block (Fin (Block.left i)) = true.
Proof.
  exists (Block.mkInterval 3 4 (Examples.profile_of 4 0 DOWN)).
  split; [reflexivity|].
  split; [vm_compute; discriminate | reflexivity].
Qed.

(** C7: the interval [add_interval] builds from two profiles is oriented,
    [left <= right]; [right] is the larger and [left] the smaller of the two
    total durations [t_sum[6] + brake.duration]; the stored profile is one
    of the two, its total duration is [right], and the other profile is not
    slower than it. *)
Theorem add_interval_oriented (l r : Profile) :
  let i := Block.add_interval l r in
  Block.left i <= Block.right i
  /\ Block.right i = Qmax (Profile.total_duration l) (Profile.total_duration r)
  /\ Block.left i == Qmin (Profile.total_duration l) (Profile.total_duration r)
  /\ Profile.total_duration (Block.profile i) = Block.right i
  /\ ((Block.profile i = r
       /\ Profile.total_duration l = Block.left i)
      \/ (Block.profile i = l
          /\ Profile.total_duration r = Block.left i)).
Proof.
  unfold Block.add_interval, Profile.total_duration.
  set (ld := get (Profile.t_sum l) 6 + BrakeProfile.duration (Profile.brake l)).
  set (rd := get (Profile.t_sum r) 6 + BrakeProfile.duration (Profile.brake r)).
  destruct (Qltb ld rd) eqn:E; cbn [Block.left Block.right Block.profile].
  - apply Qltb_lt in E.
    split; [apply Qlt_le_weak; exact E|].
    split.
    { unfold Qmax, GenericMinMax.gmax.
      rewrite (proj1 (Qlt_alt ld rd) E). reflexivity. }
    split; [symmetry; apply Q.min_l; apply Qlt_le_weak; exact E|].
    split; [reflexivity|].
    left. split; reflexivity.
  - apply Qltb_ge in E.
    split; [exact E|].
    split.
    + unfold Qmax, GenericMinMax.gmax.
      destruct (ld ?= rd) eqn:C; try reflexivity.
      apply Qlt_alt in C. exfalso. apply (Qlt_not_le _ _ C E).
    + split; [symmetry; apply Q.min_r; exact E|].
      split; [reflexivity|].
      right. split; reflexivity.
Qed.

Lemma eps_pos : 0 < eps.
Proof. reflexivity. Qed.

Lemma t_sum_close_iff (k : Q) (x y : Profile) :
  Block.t_sum_close k x y = true <->
  Qabs (get (Profile.t_sum x) 6 - get (Profile.t_sum y) 6) < k * eps.
Proof. unfold Block.t_sum_close. apply Qltb_lt. Qed.

Lemma t_sum_close_false (k : Q) (x y : Profile) :
  Block.t_sum_close k x y = false <->
  k * eps <= Qabs (get (Profile.t_sum x) 6 - get (Profile.t_sum y) 6).
Proof. unfold Block.t_sum_close. apply Qltb_ge. Qed.

Lemma add_interval_lt (l r : Profile) :
  Profile.total_duration l < Profile.total_duration r ->
  Block.add_interval l r =
  Block.mkInterval (Profile.total_duration l) (Profile.total_duration r) r.
Proof.
  intros H. unfold Block.add_interval.
  apply Qltb_lt in H. unfold Profile.total_duration in H.
  rewrite H. reflexivity.
Qed.

(** C5, as the code has it: two valid profiles with the same brake
    duration (as the valid profiles of one DoF have, which are built on
    the one brake prefix of that DoF) in the numerically robust
    instantiation.  The call returns [true]; if the two [t_sum[6]] agree
    within [8 eps] the block is the single-profile block of the first
    profile, without interval; otherwise [p_min] is the faster profile,
    [t_min] is its total duration, and interval [a] runs from the total
    duration of the faster to that of the slower profile and stores the
    slower profile; there is no interval [b]. *)
Theorem calculate_block_two_profiles (block0 : Block) (vps : list Profile) :
  BrakeProfile.duration (Profile.brake (Block.vp vps 0))
  == BrakeProfile.duration (Profile.brake (Block.vp vps 1)) ->
  snd (Block.calculate_block true block0 vps 2) = true
  /\ (Qabs (get (Profile.t_sum (Block.vp vps 0)) 6
            - get (Profile.t_sum (Block.vp vps 1)) 6) < 8 * eps ->
      fst (Block.calculate_block true block0 vps 2)
      = Block.Block_of (Block.vp vps 0))
  /\ (~ Qabs (get (Profile.t_sum (Block.vp vps 0)) 6
              - get (Profile.t_sum (Block.vp vps 1)) 6) < 8 * eps ->
      exists fast slow,
        ((fast = Block.vp vps 0 /\ slow = Block.vp vps 1)
         \/ (fast = Block.vp vps 1 /\ slow = Block.vp vps 0))
        /\ Profile.total_duration fast < Profile.total_duration slow
        /\ fst (Block.calculate_block true block0 vps 2)
           = Block.mk fast (Profile.total_duration fast)
               (Some (Block.mkInterval (Profile.total_duration fast)
                        (Profile.total_duration slow) slow))
               None).
Proof.
  intros Hbrake.
  unfold Block.calculate_block. cbn [Nat.eqb].
  set (p0 := Block.vp vps 0) in *. set (p1 := Block.vp vps 1) in *.
  destruct (Block.t_sum_close 8 p0 p1) eqn:Hclose.
  - apply t_sum_close_iff in Hclose.
    split; [reflexivity|]. split; [reflexivity|].
    intros Hn. contradiction.
  - apply t_sum_close_false in Hclose.
    split; [destruct (Qltb _ _); reflexivity|].
    split.
    { intros Hlt. exfalso. apply (Qlt_not_le _ _ Hlt Hclose). }
    intros _.
    assert (Hne : ~ get (Profile.t_sum p0) 6 == get (Profile.t_sum p1) 6).
    { intros Heq.
      assert (Hz : Qabs (get (Profile.t_sum p0) 6 - get (Profile.t_sum p1) 6) == 0).
      { rewrite Heq. setoid_replace (get (Profile.t_sum p1) 6
                                     - get (Profile.t_sum p1) 6) with 0 by ring.
        reflexivity. }
      rewrite Hz in Hclose. revert Hclose. apply Qlt_not_le. reflexivity. }
    destruct (Qltb (get (Profile.t_sum p0) 6) (get (Profile.t_sum p1) 6)) eqn:Hlt.
    + apply Qltb_lt in Hlt.
      assert (Htot : Profile.total_duration p0 < Profile.total_duration p1).
      { unfold Profile.total_duration. rewrite Hbrake.
        apply Qplus_lt_l. exact Hlt. }
      exists p0, p1. split; [left; split; reflexivity|].
      split; [exact Htot|].
      cbn [Nat.add Nat.modulo Nat.divmod fst snd Nat.sub].
      fold p0 p1. rewrite (add_interval_lt _ _ Htot). reflexivity.
    + apply Qltb_ge in Hlt.
      assert (Hlt' : get (Profile.t_sum p1) 6 < get (Profile.t_sum p0) 6).
      { apply Qle_lt_or_eq in Hlt. destruct Hlt as [H | H]; [exact H|].
        exfalso. apply Hne. symmetry. exact H. }
      assert (Htot : Profile.total_duration p1 < Profile.total_duration p0).
      { unfold Profile.total_duration. rewrite Hbrake.
        apply Qplus_lt_l. exact Hlt'. }
      exists p1, p0. split; [right; split; reflexivity|].
      split; [exact Htot|].
      cbn [Nat.add Nat.modulo Nat.divmod fst snd Nat.sub].
      fold p0 p1. rewrite (add_interval_lt _ _ Htot). reflexivity.
Qed.

(** C5 at two profiles of durations 1 and 2 without brake. *)
Lemma calculate_block_two_profiles_witness :
  snd (Block.calculate_block true (Block.Block_of Profile.zero)
         [Examples.profile_of 2 0 UP; Examples.profile_of 1 0 DOWN] 2) = true.
Proof.
  refine (proj1 (calculate_block_two_profiles (Block.Block_of Profile.zero)
            [Examples.profile_of 2 0 UP; Examples.profile_of 1 0 DOWN] _)).
  reflexivity.
Defined.

(** C5 as stated fails for two profiles with different brake durations:
    the faster profile is chosen by [t_sum[6]] alone, the interval is built
    from the total durations [t_sum[6] + brake.duration].  With [t_sum[6]]
    1 after a brake of 3 against [t_sum[6]] 2 without brake, [p_min] is the
    first profile, whose total duration 4 is the larger one; the interval
    runs from 2 to 4, so [t_min] is its right end, and the profile it
    stores is [p_min] again, not the other profile. *)
Lemma two_profiles_with_different_brakes :
  Block.t_sum_close 8 (Examples.profile_of 1 3 UP)
    (Examples.profile_of 2 0 DOWN) = false
  /\ Profile.total_duration (Examples.profile_of 2 0 DOWN)
     < Profile.total_duration (Examples.profile_of 1 3 UP)
  /\ Block.calculate_block true (Block.Block_of Profile.zero)
       [Examples.profile_of 1 3 UP; Examples.profile_of 2 0 DOWN] 2
     = (Block.mk (Examples.profile_of 1 3 UP) 4
          (Some (Block.mkInterval 2 4 (Examples.profile_of 1 3 UP)))
          None, true).
Proof.
  split; [reflexivity|]. split; reflexivity.
Qed.

Lemma Direction_eqb_eq (x y : Direction) : Direction_eqb x y = true <-> x = y.
Proof. destruct x, y; simpl; split; congruence. Qed.

Lemma near_duplicates_iff (k : Q) (x y : Profile) :
  Block.t_sum_close k x y
  && negb (Direction_eqb (Profile.direction x) (Profile.direction y)) = true
  <-> near_duplicates k x y.
Proof.
  unfold near_duplicates.
  rewrite andb_true_iff, negb_true_iff, t_sum_close_iff.
  rewrite <- (Direction_eqb_eq (Profile.direction x) (Profile.direction y)).
  destruct (Direction_eqb _ _); intuition congruence.
Qed.

Lemma near_duplicates_dec (k : Q) (x y : Profile) :
  {near_duplicates k x y} + {~ near_duplicates k x y}.
Proof.
  destruct (Block.t_sum_close k x y
            && negb (Direction_eqb (Profile.direction x) (Profile.direction y)))
    eqn:E.
  - left. apply near_duplicates_iff. exact E.
  - right. intros H. apply near_duplicates_iff in H. congruence.
Qed.

(** [std::min_element] by [t_sum[6]], started inside a range: [pre] is the
    part already seen, [best] the index of its first smallest element. *)
Lemma min_element_from_spec :
  forall (range pre : list Profile) (best : nat) (best_t : Q) (i : nat),
    best_t = get (Profile.t_sum (Block.vp pre best)) 6 ->
    i = length pre ->
    (best < length pre)%nat ->
    (forall j, (j < length pre)%nat ->
               get (Profile.t_sum (Block.vp pre best)) 6
               <= get (Profile.t_sum (Block.vp pre j)) 6) ->
    (forall j, (j < best)%nat ->
               get (Profile.t_sum (Block.vp pre best)) 6
               < get (Profile.t_sum (Block.vp pre j)) 6) ->
    let l := pre ++ range in
    let m := Block.min_element_from best best_t i range in
    (m < length l)%nat
    /\ (forall j, (j < length l)%nat ->
                  get (Profile.t_sum (Block.vp l m)) 6
                  <= get (Profile.t_sum (Block.vp l j)) 6)
    /\ (forall j, (j < m)%nat ->
                  get (Profile.t_sum (Block.vp l m)) 6
                  < get (Profile.t_sum (Block.vp l j)) 6).
Proof.
  induction range as [|x rest IH]; intros pre best best_t i Ht Hi Hb Hmin Hfirst.
  - cbn [Block.min_element_from]. rewrite app_nil_r. auto.
  - cbn [Block.min_element_from].
    assert (Hpre : forall j, (j < length pre)%nat ->
              Block.vp (pre ++ [x]) j = Block.vp pre j).
    { intros j Hj. unfold Block.vp. apply app_nth1. exact Hj. }
    assert (Hx : Block.vp (pre ++ [x]) (length pre) = x).
    { unfold Block.vp. rewrite app_nth2 by lia.
      rewrite Nat.sub_diag. reflexivity. }
    assert (Hlen : length (pre ++ [x]) = (i + 1)%nat).
    { rewrite length_app. simpl. lia. }
    replace (pre ++ x :: rest) with ((pre ++ [x]) ++ rest)
      by (rewrite <- app_assoc; reflexivity).
    destruct (Qltb (get (Profile.t_sum x) 6) best_t) eqn:E.
    + apply Qltb_lt in E. rewrite Ht in E.
      apply (IH (pre ++ [x]) i (get (Profile.t_sum x) 6) (i + 1)%nat).
      * subst i. rewrite Hx. reflexivity.
      * symmetry. exact Hlen.
      * lia.
      * intros j Hj. subst i. rewrite Hx.
        destruct (Nat.eq_dec j (length pre)) as [-> | Hne].
        -- rewrite Hx. apply Qle_refl.
        -- rewrite Hpre by lia. apply Qlt_le_weak.
           eapply Qlt_le_trans; [exact E | apply Hmin; lia].
      * intros j Hj. subst i. rewrite Hx, Hpre by lia.
        eapply Qlt_le_trans; [exact E | apply Hmin; lia].
    + apply Qltb_ge in E. rewrite Ht in E.
      apply (IH (pre ++ [x]) best best_t (i + 1)%nat).
      * rewrite (Hpre best Hb). exact Ht.
      * symmetry. exact Hlen.
      * lia.
      * intros j Hj. rewrite (Hpre best Hb).
        destruct (Nat.eq_dec j (length pre)) as [-> | Hne].
        -- rewrite Hx. exact E.
        -- rewrite Hpre by lia. apply Hmin. lia.
      * intros j Hj. rewrite (Hpre best Hb), Hpre by lia.
        apply Hfirst. exact Hj.
Qed.

(** [std::min_element] by [t_sum[6]] on a non-empty range returns the index
    of the first profile none is faster than. *)
Lemma min_element_spec (l : list Profile) :
  l <> [] ->
  let m := Block.min_element l in
  (m < length l)%nat
  /\ (forall j, (j < length l)%nat ->
                get (Profile.t_sum (Block.vp l m)) 6
                <= get (Profile.t_sum (Block.vp l j)) 6)
  /\ (forall j, (j < m)%nat ->
                get (Profile.t_sum (Block.vp l m)) 6
                < get (Profile.t_sum (Block.vp l j)) 6).
Proof.
  destruct l as [|x rest]; [congruence|]. intros _.
  apply (min_element_from_spec rest [x] 0 (get (Profile.t_sum x) 6) 1).
  - reflexivity.
  - reflexivity.
  - simpl. lia.
  - intros j Hj. simpl in Hj. assert (j = 0%nat) by lia. subst j.
    apply Qle_refl.
  - intros j Hj. lia.
Qed.

Lemma min_element_firstn (vps : list Profile) (c : nat) :
  (1 <= c <= length vps)%nat ->
  let m := Block.min_element (firstn c vps) in
  (m < c)%nat
  /\ (forall j, (j < c)%nat ->
                get (Profile.t_sum (Block.vp vps m)) 6
                <= get (Profile.t_sum (Block.vp vps j)) 6)
  /\ (forall j, (j < m)%nat ->
                get (Profile.t_sum (Block.vp vps m)) 6
                < get (Profile.t_sum (Block.vp vps j)) 6).
Proof.
  intros Hc.
  assert (Hne : firstn c vps <> []).
  { intros H. apply (f_equal (@length Profile)) in H.
    rewrite length_firstn in H. simpl in H. lia. }
  destruct (min_element_spec (firstn c vps) Hne) as [Hm [Hmin Hfirst]].
  rewrite length_firstn in Hm, Hmin.
  replace (Nat.min c (length vps)) with c in * by lia.
  assert (Hvp : forall j, (j < c)%nat ->
            Block.vp (firstn c vps) j = Block.vp vps j).
  { intros j Hj. unfold Block.vp. rewrite nth_firstn.
    destruct (Nat.ltb_spec j c); [reflexivity | lia]. }
  cbv zeta. split; [exact Hm|]. split.
  - intros j Hj. rewrite <- (Hvp _ Hm), <- (Hvp j Hj). apply Hmin. exact Hj.
  - intros j Hj. rewrite <- (Hvp _ Hm), <- (Hvp j ltac:(lia)).
    apply Hfirst. exact Hj.
Qed.

(** The block assembled from three profiles. *)
Lemma assemble_three_profiles (x y z : Profile) :
  assembled_from_three [x; y; z] (fst (Block.assemble [x; y; z] 3)).
Proof.
  destruct (min_element_firstn [x; y; z] 3 ltac:(simpl; lia))
    as [Hm [Hmin Hfirst]].
  exists (Block.min_element (firstn 3 [x; y; z])).
  split; [exact Hm|]. split; [exact Hmin|]. split; [exact Hfirst|].
  reflexivity.
Qed.

Ltac split_comparisons :=
  repeat match goal with
         | |- context [Qltb ?x ?y] => destruct (Qltb x y)
         | |- context [Direction_eqb ?x ?y] => destruct (Direction_eqb x y)
         end.

(** Assembly looks at the first three entries of the array only. *)
Lemma assemble_three (x y z : Profile) (rest : list Profile) :
  Block.assemble (x :: y :: z :: rest) 3 = Block.assemble [x; y; z] 3
  /\ snd (Block.assemble [x; y; z] 3) = true.
Proof.
  unfold Block.assemble. cbn [Nat.eqb firstn Block.min_element
    Block.min_element_from Nat.add].
  split_comparisons; split; reflexivity.
Qed.

Lemma calculate_block_three (robust : bool) (block0 : Block) (x y z : Profile) :
  Block.calculate_block robust block0 [x; y; z] 3 = Block.assemble [x; y; z] 3.
Proof. reflexivity. Qed.

Lemma even_mod_2 (n : nat) : Nat.even n = true -> (n mod 2 = 0)%nat.
Proof.
  intros H. apply Nat.even_spec in H. destruct H as [k ->].
  rewrite Nat.mul_comm. apply Nat.Div0.mod_mul.
Qed.

(** C6: an even number of valid profiles other than two.  With four
    profiles the pairs (0, 1) within [32 eps], (2, 3) within [256 eps] and
    (0, 3) within [256 eps] are tried in this order; the first pair of near
    duplicates loses its second member and the block is assembled from the
    three profiles that remain: the call returns [true], and the block it
    leaves has as [p_min] the first of the three that none of them is
    faster than, as [t_min] its total duration, as interval [a] the one
    [add_interval] builds from the two others, and no interval [b] (it is
    the block a call with the three profiles alone assembles).  If no pair
    qualifies the call returns [false] and leaves the block alone.  Every
    other even count returns [false] and leaves the block alone. *)
Theorem calculate_block_even_count (robust : bool) (block0 : Block)
    (vps : list Profile) (n : nat) :
  Nat.even n = true -> n <> 2%nat -> (n <= length vps)%nat ->
  (n = 4%nat ->
   (near_duplicates 32 (Block.vp vps 0) (Block.vp vps 1) ->
    Block.calculate_block robust block0 vps n
    = Block.calculate_block robust block0
        [Block.vp vps 0; Block.vp vps 2; Block.vp vps 3] 3
    /\ snd (Block.calculate_block robust block0 vps n) = true
    /\ assembled_from_three [Block.vp vps 0; Block.vp vps 2; Block.vp vps 3]
         (fst (Block.calculate_block robust block0 vps n)))
   /\ (~ near_duplicates 32 (Block.vp vps 0) (Block.vp vps 1) ->
       near_duplicates 256 (Block.vp vps 2) (Block.vp vps 3)
       \/ near_duplicates 256 (Block.vp vps 0) (Block.vp vps 3) ->
       Block.calculate_block robust block0 vps n
       = Block.calculate_block robust block0
           [Block.vp vps 0; Block.vp vps 1; Block.vp vps 2] 3
       /\ snd (Block.calculate_block robust block0 vps n) = true
       /\ assembled_from_three
            [Block.vp vps 0; Block.vp vps 1; Block.vp vps 2]
            (fst (Block.calculate_block robust block0 vps n)))
   /\ (~ near_duplicates 32 (Block.vp vps 0) (Block.vp vps 1) ->
       ~ near_duplicates 256 (Block.vp vps 2) (Block.vp vps 3) ->
       ~ near_duplicates 256 (Block.vp vps 0) (Block.vp vps 3) ->
       Block.calculate_block robust block0 vps n = (block0, false)))
  /\ (n <> 4%nat -> Block.calculate_block robust block0 vps n = (block0, false)).
Proof.
  intros Heven Hn2 Hlen. split.
  - intros ->.
    destruct vps as [|x [|y [|z [|w rest]]]]; simpl in Hlen; try lia.
    cbn [Block.vp nth]. rewrite !calculate_block_three.
    unfold Block.calculate_block.
    cbn [Nat.eqb Block.vp nth Block.remove_profile Block.remove_profile_loop
         Nat.sub Nat.add set].
    split; [|split].
    + intros H01. apply near_duplicates_iff in H01. rewrite H01.
      destruct (assemble_three x z w (w :: rest)) as [-> ->].
      split; [reflexivity|]. split; [reflexivity|].
      apply assemble_three_profiles.
    + intros H01 H.
      destruct (Block.t_sum_close 32 x y
                && negb (Direction_eqb (Profile.direction x)
                                       (Profile.direction y))) eqn:E01.
      { apply near_duplicates_iff in E01. contradiction. }
      destruct (assemble_three x y z (w :: rest)) as [Ha Hs].
      rewrite Ha.
      pose proof (assemble_three_profiles x y z) as Hb.
      destruct (near_duplicates_dec 256 z w) as [H23 | H23].
      * apply near_duplicates_iff in H23. rewrite H23.
        split; [reflexivity|]. split; [exact Hs | exact Hb].
      * destruct H as [H | H]; [contradiction|].
        destruct (Block.t_sum_close 256 z w
                  && negb (Direction_eqb (Profile.direction z)
                                         (Profile.direction w)));
          [split; [reflexivity|]; split; [exact Hs | exact Hb]|].
        apply near_duplicates_iff in H. rewrite H.
        split; [reflexivity|]. split; [exact Hs | exact Hb].
    + intros H01 H23 H03.
      destruct (Block.t_sum_close 32 x y && _) eqn:E01.
      { apply near_duplicates_iff in E01. contradiction. }
      destruct (Block.t_sum_close 256 z w && _) eqn:E23.
      { apply near_duplicates_iff in E23. contradiction. }
      destruct (Block.t_sum_close 256 x w && _) eqn:E03.
      { apply near_duplicates_iff in E03. contradiction. }
      reflexivity.
  - intros Hn4.
    unfold Block.calculate_block.
    destruct (Nat.eqb n 1) eqn:E1.
    { apply Nat.eqb_eq in E1. subst n. discriminate. }
    destruct (Nat.eqb n 2) eqn:E2.
    { apply Nat.eqb_eq in E2. contradiction. }
    destruct (Nat.eqb n 4) eqn:E4.
    { apply Nat.eqb_eq in E4. contradiction. }
    rewrite (even_mod_2 n Heven). reflexivity.
Qed.

(** C6 at four profiles whose first two are near duplicates: the block is
    assembled from the first, the third and the fourth. *)
Lemma calculate_block_even_count_witness :
  assembled_from_three
    [Examples.profile_of 1 0 UP; Examples.profile_of 2 0 UP;
     Examples.profile_of 3 0 UP]
    (fst (Block.calculate_block true (Block.Block_of Profile.zero)
            [Examples.profile_of 1 0 UP; Examples.profile_of 1 0 DOWN;
             Examples.profile_of 2 0 UP; Examples.profile_of 3 0 UP] 4)).
Proof.
  refine (proj2 (proj2 (proj1 (proj1 (calculate_block_even_count true
            (Block.Block_of Profile.zero)
            [Examples.profile_of 1 0 UP; Examples.profile_of 1 0 DOWN;
             Examples.profile_of 2 0 UP; Examples.profile_of 3 0 UP] 4
            _ _ _) _) _))).
  - reflexivity.
  - discriminate.
  - simpl. lia.
  - reflexivity.
  - split; [reflexivity | discriminate].
Defined.

(** ** Sampling *)

Lemma set_length {A : Type} (l : list A) (i : nat) (x : A) :
  length (set l i x) = length l.
Proof.
  revert i. induction l as [|y l IH]; intros [|i]; simpl; try reflexivity.
  rewrite IH. reflexivity.
Qed.

Lemma nth_set_same {A : Type} (l : list A) (i : nat) (x d : A) :
  (i < length l)%nat -> nth i (set l i x) d = x.
Proof.
  revert i. induction l as [|y l IH]; intros [|i] H; simpl in *; try lia.
  - reflexivity.
  - apply IH. lia.
Qed.

Lemma nth_set_other {A : Type} (l : list A) (i k : nat) (x d : A) :
  i <> k -> nth k (set l i x) d = nth k l d.
Proof.
  revert i k. induction l as [|y l IH]; intros [|i] [|k] H; simpl;
    try reflexivity; try congruence.
  apply IH. congruence.
Qed.

(** What the writing loop leaves in the output vectors: their sizes stay,
    the entries below [dof] stay, and entry [dof + k] holds the sample of
    the [k]-th profile. *)
Lemma write_samples_spec (sample : Profile -> Q * Q * Q) (ps : list Profile) :
  forall (dof : nat) (np nv na : list Q),
    let '(np', nv', na') := Trajectory.write_samples sample ps dof (np, nv, na) in
    (length np' = length np /\ length nv' = length nv /\ length na' = length na)
    /\ (forall k, (k < dof)%nat ->
                  nth k np' 0 = nth k np 0 /\ nth k nv' 0 = nth k nv 0
                  /\ nth k na' 0 = nth k na 0)
    /\ (forall k, (k < length ps)%nat ->
                  (dof + k < length np)%nat -> (dof + k < length nv)%nat ->
                  (dof + k < length na)%nat ->
                  (nth (dof + k) np' 0, nth (dof + k) nv' 0, nth (dof + k) na' 0)
                  = sample (nth k ps Profile.zero)).
Proof.
  induction ps as [|p rest IH]; intros dof np nv na.
  - simpl. split; [auto|]. split; [auto|]. intros k Hk. simpl in Hk. lia.
  - cbn [Trajectory.write_samples].
    destruct (sample p) as [[x y] z] eqn:Es.
    specialize (IH (dof + 1)%nat (set np dof x) (set nv dof y) (set na dof z)).
    destruct (Trajectory.write_samples sample rest (dof + 1)
                (set np dof x, set nv dof y, set na dof z))
      as [[np' nv'] na'].
    destruct IH as [[L1 [L2 L3]] [Hlow Hhigh]].
    rewrite !set_length in L1, L2, L3.
    split; [auto|]. split.
    + intros k Hk.
      destruct (Hlow k ltac:(lia)) as [H1 [H2 H3]].
      rewrite H1, H2, H3.
      rewrite !nth_set_other by lia. auto.
    + intros [|k] Hk Hp Hv Ha.
      * rewrite Nat.add_0_r in *.
        destruct (Hlow dof ltac:(lia)) as [H1 [H2 H3]].
        rewrite H1, H2, H3.
        rewrite !nth_set_same by assumption.
        simpl. symmetry. exact Es.
      * simpl in Hk.
        replace (dof + S k)%nat with (dof + 1 + k)%nat in * by lia.
        rewrite !set_length in Hhigh.
        apply (Hhigh k); lia.
Qed.

(** Zero-jerk integration is the constant-acceleration motion. *)
Lemma integrate_zero_jerk (tau p0 v0 a0 : Q) :
  let '(x, y, z) := Profile.integrate tau p0 v0 a0 0 in
  x == p0 + v0 * tau + (1 # 2) * a0 * tau * tau
  /\ y == v0 + a0 * tau
  /\ z == a0.
Proof.
  unfold Profile.integrate. split; [ring|]. split; ring.
Qed.

(** C8: a trajectory is sampled at a time [time >= duration], the output
    vectors having one entry per DoF.  The call succeeds and reports
    section 1, and every DoF receives the state that [Profile::integrate]
    with jerk 0 yields from its [(pf, vf, af)] over the time
    [time - (brake.duration + t_sum[6])], that is, the motion of constant
    acceleration [af] over that time. *)
Theorem at_time_after_duration (DOFs : nat) (tr : Trajectory) (time : Q)
    (new_position new_velocity new_acceleration : list Q) :
  dge (Fin time) (Trajectory.duration tr) = true ->
  length (Trajectory.profiles tr) = Trajectory.degrees_of_freedom tr ->
  length new_position = Trajectory.degrees_of_freedom tr ->
  length new_velocity = Trajectory.degrees_of_freedom tr ->
  length new_acceleration = Trajectory.degrees_of_freedom tr ->
  exists np nv na,
    Trajectory.at_time DOFs tr time new_position new_velocity new_acceleration
    = Some (np, nv, na, 1%nat)
    /\ length np = Trajectory.degrees_of_freedom tr
    /\ forall dof, (dof < Trajectory.degrees_of_freedom tr)%nat ->
         let p := Trajectory.profile_at (Trajectory.profiles tr) dof in
         let tau := time - (BrakeProfile.duration (Profile.brake p)
                            + get (Profile.t_sum p) 6) in
         (get np dof, get nv dof, get na dof)
         = Profile.integrate tau (Profile.pf p) (Profile.vf p) (Profile.af p) 0
         /\ get np dof
            == Profile.pf p + Profile.vf p * tau + (1 # 2) * Profile.af p * tau * tau
         /\ get nv dof == Profile.vf p + Profile.af p * tau
         /\ get na dof == Profile.af p.
Proof.
  intros Hge Hprof Hp Hv Ha.
  unfold Trajectory.at_time.
  rewrite Hp, Hv, Ha, !Nat.eqb_refl. cbn [negb orb].
  rewrite andb_false_r, Hge.
  pose proof (write_samples_spec (fun p => Trajectory.sample_after p time)
                (Trajectory.profiles tr) 0 new_position new_velocity
                new_acceleration) as Hw.
  destruct (Trajectory.write_samples _ _ _ _) as [[np nv] na].
  destruct Hw as [[L1 [L2 L3]] [_ Hhigh]].
  exists np, nv, na. split; [reflexivity|].
  split; [congruence|].
  intros dof Hdof.
  set (p := Trajectory.profile_at (Trajectory.profiles tr) dof).
  set (tau := time - (BrakeProfile.duration (Profile.brake p)
                      + get (Profile.t_sum p) 6)).
  specialize (Hhigh dof ltac:(lia) ltac:(simpl; lia) ltac:(simpl; lia)
                ltac:(simpl; lia)).
  cbn [Nat.add] in Hhigh. unfold get.
  assert (Hs : (nth dof np 0, nth dof nv 0, nth dof na 0)
               = Profile.integrate tau (Profile.pf p) (Profile.vf p)
                   (Profile.af p) 0) by exact Hhigh.
  split; [exact Hs|].
  pose proof (integrate_zero_jerk tau (Profile.pf p) (Profile.vf p)
                (Profile.af p)) as Hi.
  rewrite <- Hs in Hi. exact Hi.
Qed.

(** ** calculate *)

Ltac split_pairs :=
  repeat match goal with
         | |- context [match ?e with _ => _ end] =>
             lazymatch type of e with
             | prod _ _ => destruct e
             end
         end.

Section CalculateProperties.
Context {planner : Planner}.

(** An outcome with which a loop leaves the function is one its body
    produced. *)
Lemma for_each_outcome (body : Trajectory -> nat -> Trajectory.Step)
    (P : Outcome -> Prop) :
  (forall tr dof tr' calls out,
      body tr dof = (tr', calls, Some out) -> P out) ->
  forall dofs tr tr' calls out,
    Trajectory.for_each body dofs tr = (tr', calls, Some out) -> P out.
Proof.
  intros Hbody. induction dofs as [|dof rest IH]; intros tr tr' calls out H.
  - simpl in H. discriminate.
  - simpl in H.
    destruct (body tr dof) as [[tr1 c1] [o1|]] eqn:Eb.
    + injection H as _ _ <-. eapply Hbody. exact Eb.
    + destruct (Trajectory.for_each body rest tr1) as [[tr2 c2] o2] eqn:Er.
      injection H as _ _ ->. eapply IH. exact Er.
Qed.


Lemma prepare_dof_outcome (throw_error : bool) (inp : InputParameter)
    (tr : Trajectory) (dof : nat) (tr' : Trajectory) (calls : list Call)
    (out : Outcome) :
  Trajectory.prepare_dof throw_error inp tr dof = (tr', calls, Some out) ->
  not_duration_error out.
Proof.
  unfold Trajectory.prepare_dof, not_duration_error.
  destruct (negb (Trajectory.enabled_at inp dof)); [discriminate|].
  split_pairs.
  destruct (negb _); [|discriminate].
  intros H. injection H as _ _ <-.
  destruct throw_error; discriminate.
Qed.

Lemma time_sync_dof_outcome (throw_error : bool) (inp : InputParameter)
    (limiting_dof : Z) (tr : Trajectory) (dof : nat) (tr' : Trajectory)
    (calls : list Call) (out : Outcome) :
  Trajectory.time_sync_dof throw_error inp limiting_dof tr dof
  = (tr', calls, Some out) ->
  not_duration_error out.
Proof.
  unfold Trajectory.time_sync_dof, not_duration_error.
  destruct (_ || _); [discriminate|].
  destruct (Trajectory.time_not_necessary inp tr dof); [discriminate|].
  destruct (Trajectory.extremal_profile _ _); [discriminate|].
  split_pairs.
  destruct (negb _); [|discriminate].
  intros H. injection H as _ _ <-.
  destruct throw_error; discriminate.
Qed.

Lemma phase_then_time_outcome (throw_error : bool) (inp : InputParameter)
    (limiting_dof : Z) (tr tr' : Trajectory) (calls : list Call)
    (out : Outcome) :
  Trajectory.phase_then_time throw_error inp limiting_dof tr
  = (tr', calls, Some out) ->
  not_duration_error out.
Proof.
  unfold Trajectory.phase_then_time.
  match goal with
  | |- context [match ?e with _ => _ end] =>
      lazymatch type of e with
      | prod _ _ => destruct e as [[tr1 c1] done]
      end
  end.
  destruct done.
  - intros H. injection H as _ _ <-. discriminate.
  - destruct (Trajectory.for_each _ _ tr1) as [[tr2 c2] [o|]] eqn:E.
    + intros H. injection H as _ _ <-.
      eapply (for_each_outcome _ not_duration_error); [|exact E].
      intros. eapply time_sync_dof_outcome. eassumption.
    + intros H. injection H as _ _ <-. discriminate.
Qed.

(** C9: [calculate] returns [ErrorTrajectoryDuration] exactly when the
    instantiation checks the maximal duration
    ([return_error_at_maximal_duration]), Step 1 succeeded for every
    enabled DoF, the synchronization succeeded, and the duration it yields
    exceeds [7.6e3]; the instantiation without the check never returns
    it. *)
Theorem error_trajectory_duration_iff (throw_error ret : bool)
    (inp : InputParameter) (delta_time : Q) (tr : Trajectory) :
  (fst (fst (Trajectory.calculate throw_error ret inp delta_time tr))
   = Returns ErrorTrajectoryDuration
   <-> ret = true
       /\ exists tr1 calls1 t_sync limiting_dof profiles',
            Trajectory.for_each (Trajectory.prepare_dof throw_error inp)
              (seq 0 (length (Trajectory.profiles tr))) tr
            = (tr1, calls1, None)
            /\ Trajectory.synchronize (Trajectory.degrees_of_freedom tr1)
                 (Trajectory.blocks tr1) (InputParameter.minimum_duration inp)
                 (Trajectory.profiles tr1)
                 (match InputParameter.duration_discretization inp with
                  | Discrete => true
                  | Continuous => false
                  end) delta_time
               = Some (t_sync, limiting_dof, profiles')
            /\ dlt (Fin 7600) t_sync = true)
  /\ fst (fst (Trajectory.calculate throw_error false inp delta_time tr))
     <> Returns ErrorTrajectoryDuration.
Proof.
  assert (Hiff : forall ret',
    fst (fst (Trajectory.calculate throw_error ret' inp delta_time tr))
    = Returns ErrorTrajectoryDuration
    <-> ret' = true
        /\ exists tr1 calls1 t_sync limiting_dof profiles',
             Trajectory.for_each (Trajectory.prepare_dof throw_error inp)
               (seq 0 (length (Trajectory.profiles tr))) tr
             = (tr1, calls1, None)
             /\ Trajectory.synchronize (Trajectory.degrees_of_freedom tr1)
                  (Trajectory.blocks tr1)
                  (InputParameter.minimum_duration inp)
                  (Trajectory.profiles tr1)
                  (match InputParameter.duration_discretization inp with
                   | Discrete => true
                   | Continuous => false
                   end) delta_time
                = Some (t_sync, limiting_dof, profiles')
             /\ dlt (Fin 7600) t_sync = true).
  { intros ret'.
    unfold Trajectory.calculate.
    destruct (Trajectory.for_each _ _ tr) as [[tr1 c1] [o|]] eqn:E1.
    - cbn [fst]. split.
      + intros ->. exfalso.
        eapply (for_each_outcome _ not_duration_error); [|exact E1|reflexivity].
        intros. eapply prepare_dof_outcome. eassumption.
      + intros [_ [tr0 [c0 [t [lim [ps [Hp _]]]]]]]. discriminate.
    - destruct (Trajectory.synchronize _ _ _ _ _ _)
        as [[[t lim] profs]|] eqn:Es.
      + cbn [Trajectory.duration Trajectory.set_duration].
        assert (Hback :
                  (exists tr0 calls0 t_sync limiting_dof profiles',
                      (tr1, c1, @None Outcome) = (tr0, calls0, None)
                      /\ Trajectory.synchronize
                           (Trajectory.degrees_of_freedom tr0)
                           (Trajectory.blocks tr0)
                           (InputParameter.minimum_duration inp)
                           (Trajectory.profiles tr0)
                           (match InputParameter.duration_discretization inp with
                            | Discrete => true
                            | Continuous => false
                            end) delta_time
                         = Some (t_sync, limiting_dof, profiles')
                      /\ dlt (Fin 7600) t_sync = true) ->
                  dlt (Fin 7600) t = true).
        { intros [tr0 [c0 [t0 [lim0 [ps0 [Hp [Hs Hlt]]]]]]].
          injection Hp as <- <-. rewrite Es in Hs. injection Hs as <- _ _.
          exact Hlt. }
        destruct ret'; cbn [andb].
        * destruct (dlt (Fin 7600) t) eqn:Et.
          { cbn [fst]. split; [|reflexivity].
            intros _. split; [reflexivity|].
            exists tr1, c1, t, lim, profs. auto. }
          split.
          2:{ intros [_ H]. apply Hback in H. discriminate. }
          destruct (dzero t); [discriminate|].
          destruct (Trajectory.for_each (Trajectory.none_sync_dof _ _) _ _)
            as [[tr3 c3] o3].
          destruct (forallb _ _); [discriminate|].
          destruct (Trajectory.phase_then_time _ _ _ _)
            as [[tr4 c4] [o4|]] eqn:E4; cbn [fst]; [|discriminate].
          intros ->. exfalso.
          eapply phase_then_time_outcome; [exact E4|reflexivity].
        * split; [|intros [H _]; discriminate].
          destruct (dzero t); [discriminate|].
          destruct (Trajectory.for_each (Trajectory.none_sync_dof _ _) _ _)
            as [[tr3 c3] o3].
          destruct (forallb _ _); [discriminate|].
          destruct (Trajectory.phase_then_time _ _ _ _)
            as [[tr4 c4] [o4|]] eqn:E4; cbn [fst]; [|discriminate].
          intros ->. exfalso.
          eapply phase_then_time_outcome; [exact E4|reflexivity].
      + cbn [fst]. split.
        * destruct throw_error; discriminate.
        * intros [_ [tr0 [c0 [t [lim [ps [Hp [Hs _]]]]]]]].
          injection Hp as <- <-. rewrite Es in Hs. discriminate. }
  split; [apply Hiff|].
  intros H. apply Hiff in H. destruct H as [H _]. discriminate.
Qed.

End CalculateProperties.

(** C8 at the finished one-DoF trajectory of duration 3, sampled at 4. *)
Lemma at_time_after_duration_witness :
  exists np nv na,
    Trajectory.at_time 1 Examples.finished 4 [0] [0] [0]
    = Some (np, nv, na, 1%nat).
Proof.
  destruct (at_time_after_duration 1 Examples.finished 4 [0] [0] [0]
              eq_refl eq_refl eq_refl eq_refl eq_refl)
    as [np [nv [na [H _]]]].
  exists np, nv, na. exact H.
Defined.

(** C3 fails on the code.  One DoF moves at velocity 2 with [vMax = 1], so
    that its profile has a brake prefix, here of duration 1.  [calculate]
    succeeds; the committed duration is the block's [t_min], which already
    contains the brake duration, and the reported independent minimum
    duration is [p_min.brake.duration + t_min], the brake counted twice: it
    exceeds the duration of the trajectory. *)
Theorem independent_min_duration_exceeds_duration :
  let '(out, tr, _) :=
    @Trajectory.calculate Examples.stand_in false false Examples.too_fast 0
      (Examples.fresh 1) in
  let block := Trajectory.block_at (Trajectory.blocks tr) 0 in
  out = Returns Working
  /\ Trajectory.duration tr = Fin (Block.t_min block)
  /\ Block.t_min block
     = get (Profile.t_sum (Block.p_min block)) 6
       + BrakeProfile.duration (Profile.brake (Block.p_min block))
  /\ BrakeProfile.duration (Profile.brake (Block.p_min block)) = 1
  /\ get (Trajectory.get_independent_min_durations tr) 0
     = BrakeProfile.duration (Profile.brake (Block.p_min block))
       + Block.t_min block
  /\ dlt (Trajectory.duration tr)
         (Fin (get (Trajectory.get_independent_min_durations tr) 0)) = true.
Proof.
  vm_compute. repeat split; reflexivity.
Qed.

(** ** Time synchronization *)

Section TimeSynchronization.
Context {planner : Planner}.

(** Which stored profile the shortcut takes. *)
Lemma extremal_profile_spec (block : Block) (t_profile : double) :
  (near t_profile (Block.t_min block) eps = true ->
   Trajectory.extremal_profile block t_profile = Some (Block.p_min block))
  /\ (near t_profile (Block.t_min block) eps = false ->
      forall iv, Block.a block = Some iv ->
                 near t_profile (Block.right iv) eps = true ->
                 Trajectory.extremal_profile block t_profile
                 = Some (Block.profile iv))
  /\ (near t_profile (Block.t_min block) eps = false ->
      (forall iv, Block.a block = Some iv ->
                  near t_profile (Block.right iv) eps = false) ->
      forall iv, Block.b block = Some iv ->
                 near t_profile (Block.right iv) eps = true ->
                 Trajectory.extremal_profile block t_profile
                 = Some (Block.profile iv)).
Proof.
  unfold Trajectory.extremal_profile.
  split; [intros ->; reflexivity|].
  split.
  - intros -> iv -> ->. reflexivity.
  - intros -> Ha iv -> Hb.
    destruct (Block.a block) as [iva|].
    + rewrite (Ha iva eq_refl), Hb. reflexivity.
    + rewrite Hb. reflexivity.
Qed.

Lemma extremal_profile_some (block : Block) (t_profile : double) :
  near t_profile (Block.t_min block) eps = true
  \/ (exists iv, Block.a block = Some iv
                 /\ near t_profile (Block.right iv) eps = true)
  \/ (exists iv, Block.b block = Some iv
                 /\ near t_profile (Block.right iv) eps = true) ->
  exists stored, Trajectory.extremal_profile block t_profile = Some stored.
Proof.
  unfold Trajectory.extremal_profile.
  intros [H | [[iv [Ha H]] | [iv [Hb H]]]].
  - rewrite H. eexists. reflexivity.
  - rewrite Ha. destruct (near t_profile (Block.t_min block) eps);
      [eexists; reflexivity|].
    rewrite H. eexists. reflexivity.
  - destruct (near t_profile (Block.t_min block) eps);
      [eexists; reflexivity|].
    rewrite Hb, H.
    destruct (Block.a block) as [iva|]; [|eexists; reflexivity].
    destruct (near t_profile (Block.right iva) eps); eexists; reflexivity.
Qed.

(** One round of the loop changes at most the profile of its own DoF and
    calls Step 2 at most for its own DoF. *)
Lemma time_sync_dof_frame (throw_error : bool) (inp : InputParameter)
    (limiting_dof : Z) (tr : Trajectory) (dof : nat) :
  let '(tr', calls, _) :=
    Trajectory.time_sync_dof throw_error inp limiting_dof tr dof in
  (exists ps, tr' = Trajectory.set_profiles ps tr
              /\ length ps = length (Trajectory.profiles tr)
              /\ forall k, k <> dof ->
                   Trajectory.profile_at ps k
                   = Trajectory.profile_at (Trajectory.profiles tr) k)
  /\ (forall c, In c calls -> c = call_step2 dof).
Proof.
  assert (Hset : forall x,
    exists ps, Trajectory.set_profiles (set (Trajectory.profiles tr) dof x) tr
               = Trajectory.set_profiles ps tr
               /\ length ps = length (Trajectory.profiles tr)
               /\ forall k, k <> dof ->
                    Trajectory.profile_at ps k
                    = Trajectory.profile_at (Trajectory.profiles tr) k).
  { intros x. exists (set (Trajectory.profiles tr) dof x).
    split; [reflexivity|]. split; [apply set_length|].
    intros k Hk. unfold Trajectory.profile_at. apply nth_set_other. congruence. }
  assert (Hid : exists ps, tr = Trajectory.set_profiles ps tr
               /\ length ps = length (Trajectory.profiles tr)
               /\ forall k, k <> dof ->
                    Trajectory.profile_at ps k
                    = Trajectory.profile_at (Trajectory.profiles tr) k).
  { exists (Trajectory.profiles tr). destruct tr; auto. }
  unfold Trajectory.time_sync_dof.
  destruct (_ || _).
  { split; [exact Hid | intros c []]. }
  destruct (Trajectory.time_not_necessary inp tr dof).
  { split; [apply Hset | intros c []]. }
  destruct (Trajectory.extremal_profile _ _).
  { split; [apply Hset | intros c []]. }
  split_pairs.
  destruct (negb _);
    (split; [apply Hset | intros c [<- | []]; reflexivity]).
Qed.

(** The round of a DoF whose required duration meets a stored end time. *)
Lemma time_sync_dof_extremal (throw_error : bool) (inp : InputParameter)
    (limiting_dof : Z) (tr : Trajectory) (dof : nat) (stored : Profile) :
  Trajectory.enabled_at inp dof = true ->
  Trajectory.is_limiting dof limiting_dof = false ->
  Trajectory.sync_at (Trajectory.inp_per_dof_synchronization tr) dof
  <> Synchronization.None ->
  Trajectory.time_not_necessary inp tr dof = false ->
  Trajectory.extremal_profile (Trajectory.block_at (Trajectory.blocks tr) dof)
    (dsub (Trajectory.duration tr)
       (BrakeProfile.duration
          (Profile.brake (Trajectory.profile_at (Trajectory.profiles tr) dof))))
  = Some stored ->
  Trajectory.time_sync_dof throw_error inp limiting_dof tr dof
  = (Trajectory.set_profiles (set (Trajectory.profiles tr) dof stored) tr,
     [], None).
Proof.
  intros He Hl Hs Hn Hx.
  unfold Trajectory.time_sync_dof.
  rewrite He, Hl, Hn, Hx. cbn [negb orb].
  destruct (Trajectory.sync_at _ dof); try reflexivity.
  contradiction.
Qed.

Lemma time_sync_loop_frame (throw_error : bool) (inp : InputParameter)
    (limiting_dof : Z) :
  forall dofs tr tr' calls out,
    Trajectory.for_each (Trajectory.time_sync_dof throw_error inp limiting_dof)
      dofs tr = (tr', calls, out) ->
    (exists ps, tr' = Trajectory.set_profiles ps tr
                /\ length ps = length (Trajectory.profiles tr)
                /\ forall k, ~ In k dofs ->
                     Trajectory.profile_at ps k
                     = Trajectory.profile_at (Trajectory.profiles tr) k)
    /\ (forall c, In c calls -> exists d, In d dofs /\ c = call_step2 d).
Proof.
  induction dofs as [|d rest IH]; intros tr tr' calls out H.
  - simpl in H. injection H as <- <- _.
    split; [|intros c []].
    exists (Trajectory.profiles tr). destruct tr; auto.
  - simpl in H.
    pose proof (time_sync_dof_frame throw_error inp limiting_dof tr d) as Hf.
    destruct (Trajectory.time_sync_dof throw_error inp limiting_dof tr d)
      as [[tr1 c1] o1].
    destruct Hf as [[ps1 [-> [L1 K1]]] C1].
    destruct o1 as [o|].
    + injection H as <- <- _. split.
      * exists ps1. split; [reflexivity|]. split; [exact L1|].
        intros k Hk. apply K1. intros ->. apply Hk. left. reflexivity.
      * intros c Hc. exists d. split; [left; reflexivity | apply C1; exact Hc].
    + destruct (Trajectory.for_each _ rest _) as [[tr2 c2] o2] eqn:Er.
      injection H as <- <- _.
      destruct (IH _ _ _ _ Er) as [[ps2 [-> [L2 K2]]] C2].
      cbn [Trajectory.profiles Trajectory.set_profiles] in *.
      split.
      * exists ps2. split; [reflexivity|]. split; [congruence|].
        intros k Hk. rewrite K2 by (intros Hin; apply Hk; right; exact Hin).
        apply K1. intros ->. apply Hk. left. reflexivity.
      * intros c Hc. apply in_app_or in Hc. destruct Hc as [Hc | Hc].
        -- exists d. split; [left; reflexivity | apply C1; exact Hc].
        -- destruct (C2 c Hc) as [d' [Hd' ->]].
           exists d'. split; [right; exact Hd' | reflexivity].
Qed.

Lemma meets_stored_end_frame (inp : InputParameter) (limiting_dof : Z)
    (tr : Trajectory) (ps : list Profile) (dof : nat) (stored : Profile) :
  length ps = length (Trajectory.profiles tr) ->
  Trajectory.profile_at ps dof
  = Trajectory.profile_at (Trajectory.profiles tr) dof ->
  meets_stored_end inp limiting_dof tr dof stored ->
  meets_stored_end inp limiting_dof (Trajectory.set_profiles ps tr) dof stored.
Proof.
  unfold meets_stored_end, required_duration, Trajectory.time_not_necessary.
  cbn [Trajectory.profiles Trajectory.set_profiles Trajectory.duration
       Trajectory.blocks Trajectory.inp_per_dof_synchronization].
  intros -> ->. auto.
Qed.

Lemma time_sync_loop_extremal (throw_error : bool) (inp : InputParameter)
    (limiting_dof : Z) (dof : nat) (stored : Profile) :
  forall dofs tr tr' calls out,
    NoDup dofs ->
    Trajectory.for_each (Trajectory.time_sync_dof throw_error inp limiting_dof)
      dofs tr = (tr', calls, out) ->
    meets_stored_end inp limiting_dof tr dof stored ->
    ~ In (call_step2 dof) calls
    /\ (In dof dofs -> out = None ->
        Trajectory.profile_at (Trajectory.profiles tr') dof = stored).
Proof.
  induction dofs as [|d rest IH]; intros tr tr' calls out Hnd H Hm.
  - simpl in H. injection H as <- <- _.
    split; [intros [] | intros []].
  - simpl in H. inversion Hnd as [|? ? Hnotin Hnd']; subst.
    destruct (Nat.eq_dec d dof) as [-> | Hne].
    + destruct Hm as [Hlen [He [Hl [Hs [Hn Hx]]]]].
      rewrite (time_sync_dof_extremal throw_error inp limiting_dof tr dof
                 stored He Hl Hs Hn Hx) in H.
      destruct (Trajectory.for_each _ rest _) as [[tr2 c2] o2] eqn:Er.
      injection H as <- <- <-.
      destruct (time_sync_loop_frame _ _ _ _ _ _ _ _ Er)
        as [[ps2 [-> [L2 K2]]] C2].
      cbn [Trajectory.profiles Trajectory.set_profiles app] in *.
      split.
      * intros Hc. destruct (C2 _ Hc) as [d' [Hd' Heq]].
        injection Heq as <-. contradiction.
      * intros _ _. rewrite (K2 dof Hnotin).
        unfold Trajectory.profile_at. apply nth_set_same. exact Hlen.
    + pose proof (time_sync_dof_frame throw_error inp limiting_dof tr d) as Hf.
      destruct (Trajectory.time_sync_dof throw_error inp limiting_dof tr d)
        as [[tr1 c1] o1].
      destruct Hf as [[ps1 [-> [L1 K1]]] C1].
      assert (Hc1 : ~ In (call_step2 dof) c1).
      { intros Hc. apply C1 in Hc. injection Hc as <-. contradiction. }
      destruct o1 as [o|].
      * injection H as <- <- <-. split; [exact Hc1|]. intros _ Ho. discriminate.
      * destruct (Trajectory.for_each _ rest _) as [[tr2 c2] o2] eqn:Er.
        injection H as <- <- <-.
        assert (Hm' : meets_stored_end inp limiting_dof
                        (Trajectory.set_profiles ps1 tr) dof stored).
        { apply meets_stored_end_frame; [exact L1 | | exact Hm].
          apply K1. congruence. }
        destruct (IH _ _ _ _ Hnd' Er Hm') as [Hc2 Hp].
        split.
        -- intros Hc. apply in_app_or in Hc. destruct Hc; contradiction.
        -- intros [Heq | Hin] Ho; [congruence|]. apply Hp; assumption.
Qed.

(** C4: in the time synchronization loop of [calculate], take a DoF that
    is enabled, is not the limiting one, whose synchronization is not
    [None], and which is not a [TimeIfNecessary] DoF with target at rest.
    If its required profile duration [duration - brake.duration] meets the
    block's [t_min], [a->right] or [b->right] within [eps], the loop makes
    no Step 2 call for it, and when the loop runs to its end the DoF has
    the stored profile of the end time that was met: [p_min] for [t_min],
    else [a->profile] for [a->right], else [b->profile] for [b->right]. *)
Theorem time_synchronization_reuses_stored_profile (throw_error : bool)
    (inp : InputParameter) (limiting_dof : Z) (tr tr' : Trajectory)
    (calls : list Call) (out : option Outcome) (dof : nat) :
  let block := Trajectory.block_at (Trajectory.blocks tr) dof in
  let t_profile := required_duration tr dof in
  Trajectory.for_each (Trajectory.time_sync_dof throw_error inp limiting_dof)
    (seq 0 (length (Trajectory.profiles tr))) tr = (tr', calls, out) ->
  (dof < length (Trajectory.profiles tr))%nat ->
  Trajectory.enabled_at inp dof = true ->
  Trajectory.is_limiting dof limiting_dof = false ->
  Trajectory.sync_at (Trajectory.inp_per_dof_synchronization tr) dof
  <> Synchronization.None ->
  Trajectory.time_not_necessary inp tr dof = false ->
  near t_profile (Block.t_min block) eps = true
  \/ (exists iv, Block.a block = Some iv
                 /\ near t_profile (Block.right iv) eps = true)
  \/ (exists iv, Block.b block = Some iv
                 /\ near t_profile (Block.right iv) eps = true) ->
  ~ In (call_step2 dof) calls
  /\ (out = None ->
      let used := Trajectory.profile_at (Trajectory.profiles tr') dof in
      (near t_profile (Block.t_min block) eps = true ->
       used = Block.p_min block)
      /\ (near t_profile (Block.t_min block) eps = false ->
          forall iv, Block.a block = Some iv ->
                     near t_profile (Block.right iv) eps = true ->
                     used = Block.profile iv)
      /\ (near t_profile (Block.t_min block) eps = false ->
          (forall iv, Block.a block = Some iv ->
                      near t_profile (Block.right iv) eps = false) ->
          forall iv, Block.b block = Some iv ->
                     near t_profile (Block.right iv) eps = true ->
                     used = Block.profile iv)).
Proof.
  intros block t_profile Hloop Hlen He Hl Hs Hn Hnear.
  destruct (extremal_profile_some block t_profile Hnear) as [stored Hx].
  assert (Hm : meets_stored_end inp limiting_dof tr dof stored).
  { unfold meets_stored_end. auto 10. }
  destruct (time_sync_loop_extremal throw_error inp limiting_dof dof stored
              _ _ _ _ _ (seq_NoDup _ _) Hloop Hm) as [Hc Hp].
  split; [exact Hc|].
  intros Ho.
  assert (Hu : Trajectory.profile_at (Trajectory.profiles tr') dof = stored).
  { apply Hp; [|exact Ho]. apply in_seq. lia. }
  cbv zeta. rewrite Hu.
  destruct (extremal_profile_spec block t_profile) as [S1 [S2 S3]].
  split; [|split].
  - intros H. specialize (S1 H). congruence.
  - intros H iv Ha Hr. specialize (S2 H iv Ha Hr). congruence.
  - intros H Hna iv Hb Hr. specialize (S3 H Hna iv Hb Hr). congruence.
Qed.

End TimeSynchronization.

(** ** Synchronization *)

Lemma dle_refl (x : double) : dle x x.
Proof. destruct x; simpl; [apply Qle_refl | exact I]. Qed.

Lemma dle_trans (x y z : double) : dle x y -> dle y z -> dle x z.
Proof.
  destruct x, y, z; simpl; try tauto. apply Qle_trans.
Qed.

Lemma dlt_false_dle (x y : double) : dlt x y = false -> dle y x.
Proof.
  destruct x, y; simpl; try discriminate; try tauto. apply Qltb_ge.
Qed.

Lemma dlt_true_dle (x y : double) : dlt x y = true -> dle x y.
Proof.
  destruct x, y; simpl; try discriminate; try tauto.
  intros H. apply Qltb_lt in H. apply Qlt_le_weak. exact H.
Qed.

Lemma dle_dlt_false (x y : double) : dle y x -> dlt x y = false.
Proof.
  destruct x, y; simpl; try tauto. apply Qltb_ge.
Qed.

(** Comparisons do not tell apart two doubles that are below each other. *)
Lemma dlt_ext_l (x y z : double) : dle x y -> dle y x -> dlt x z = dlt y z.
Proof.
  destruct x as [a|], y as [b|], z as [c|]; simpl; try tauto.
  intros H1 H2. unfold Qltb. f_equal.
  apply Qleb_comp; [reflexivity | apply Qle_antisym; assumption].
Qed.

Lemma dlt_ext_r (x y z : double) : dle x y -> dle y x -> dlt z x = dlt z y.
Proof.
  destruct x as [a|], y as [b|], z as [c|]; simpl; try tauto.
  intros H1 H2. unfold Qltb. f_equal.
  apply Qleb_comp; [apply Qle_antisym; assumption | reflexivity].
Qed.

Lemma is_blocked_ext (blk : Block) (x y : double) :
  dle x y -> dle y x -> Block.is_blocked blk x = Block.is_blocked blk y.
Proof.
  intros H1 H2. unfold Block.is_blocked.
  rewrite (dlt_ext_l x y _ H1 H2).
  destruct (Block.a blk) as [i|], (Block.b blk) as [i'|];
    repeat rewrite (dlt_ext_l x y _ H1 H2);
    repeat rewrite (dlt_ext_r x y _ H1 H2); reflexivity.
Qed.

Lemma rejected_ext (blocks : list Block) (t_min : option Q) (x y : double) :
  dle x y -> dle y x ->
  Trajectory.rejected blocks t_min x = Trajectory.rejected blocks t_min y.
Proof.
  intros H1 H2. unfold Trajectory.rejected.
  rewrite (dlt_ext_l x y _ H1 H2). f_equal.
  induction blocks as [|blk rest IH]; [reflexivity|].
  simpl. rewrite IH, (is_blocked_ext blk x y H1 H2). reflexivity.
Qed.

(** What it means for a candidate not to be rejected. *)
Lemma rejected_false (blocks : list Block) (t_min : option Q) (x : double) :
  Trajectory.rejected blocks t_min x = false <->
  (forall blk, In blk blocks -> Block.is_blocked blk x = false)
  /\ dle (Fin (match t_min with Some f => f | None => 0 end)) x.
Proof.
  unfold Trajectory.rejected. rewrite orb_false_iff. split.
  - intros [Hb Hf]. split.
    + intros blk Hin.
      destruct (Block.is_blocked blk x) eqn:E; [|reflexivity].
      assert (Hex : existsb (fun block => Block.is_blocked block x) blocks = true).
      { apply existsb_exists. exists blk. auto. }
      congruence.
    + apply dlt_false_dle. exact Hf.
  - intros [Hb Hf]. split.
    + destruct (existsb _ blocks) eqn:E; [|reflexivity].
      apply existsb_exists in E. destruct E as [blk [Hin Hblk]].
      rewrite (Hb blk Hin) in Hblk. discriminate.
    + apply dle_dlt_false. exact Hf.
Qed.

(** *** The sort *)

Lemma insert_idx_perm (c : list double) (i : nat) (l : list nat) :
  Permutation (Trajectory.insert_idx c i l) (i :: l).
Proof.
  induction l as [|k rest IH]; simpl; [reflexivity|].
  destruct (dlt _ _); [|reflexivity].
  rewrite IH. apply perm_swap.
Qed.

Lemma sort_idx_perm (c : list double) (l : list nat) :
  Permutation (Trajectory.sort_idx c l) l.
Proof.
  induction l as [|i rest IH]; simpl; [reflexivity|].
  rewrite insert_idx_perm. constructor. exact IH.
Qed.

Lemma insert_idx_sorted (c : list double) (i : nat) (l : list nat) :
  Sorted (candidate_le c) l ->
  Sorted (candidate_le c) (Trajectory.insert_idx c i l).
Proof.
  induction l as [|k rest IH]; intros Hs; simpl.
  - repeat constructor.
  - inversion Hs as [|? ? Hrest Hhd]; subst.
    destruct (dlt (Trajectory.t_sync_at c k) (Trajectory.t_sync_at c i)) eqn:E.
    + constructor; [apply IH; exact Hrest|].
      destruct rest as [|k' rest']; simpl.
      * constructor. apply dlt_true_dle. exact E.
      * destruct (dlt (Trajectory.t_sync_at c k') (Trajectory.t_sync_at c i)).
        -- constructor. inversion Hhd; assumption.
        -- constructor. apply dlt_true_dle. exact E.
    + constructor; [exact Hs|].
      constructor. apply dlt_false_dle. exact E.
Qed.

Lemma sort_idx_sorted (c : list double) (l : list nat) :
  StronglySorted (candidate_le c) (Trajectory.sort_idx c l).
Proof.
  apply Sorted_StronglySorted.
  - intros x y z. apply dle_trans.
  - induction l as [|i rest IH]; simpl; [constructor|].
    apply insert_idx_sorted. exact IH.
Qed.

(** *** The scan *)

Lemma scan_some (blocks : list Block) (t_min : option Q) (c : list double) :
  forall range i,
    Trajectory.scan blocks t_min c range = Some i ->
    exists before after,
      range = before ++ i :: after
      /\ Trajectory.rejected blocks t_min (Trajectory.t_sync_at c i) = false
      /\ forall k, In k before ->
           Trajectory.rejected blocks t_min (Trajectory.t_sync_at c k) = true.
Proof.
  induction range as [|k rest IH]; intros i H; simpl in H; [discriminate|].
  destruct (Trajectory.rejected blocks t_min (Trajectory.t_sync_at c k)) eqn:E.
  - destruct (IH i H) as [before [after [-> [Hi Hb]]]].
    exists (k :: before), after. split; [reflexivity|]. split; [exact Hi|].
    intros k' [<- | Hin]; [exact E | apply Hb; exact Hin].
  - injection H as <-. exists [], (rest). split; [reflexivity|].
    split; [exact E | intros k' []].
Qed.

(** *** The candidates *)

Lemma round_up_ge (delta_time : Q) (x : double) :
  0 < delta_time -> dle x (round_up delta_time x).
Proof.
  intros Hdt. destruct x as [a|]; simpl; [|exact I].
  assert (Hne : ~ delta_time == 0).
  { intros H. rewrite H in Hdt. discriminate. }
  setoid_replace a with (a / delta_time * delta_time) at 1 by (field; exact Hne).
  apply Qmult_le_compat_r; [apply Qle_ceiling | apply Qlt_le_weak; exact Hdt].
Qed.

(** A multiple of the quantum that is not below [t] is not below [t]
    rounded up. *)
Lemma round_up_le_multiple (delta_time t : Q) (x : double) :
  0 < delta_time ->
  dle (Fin t) (round_up delta_time x) ->
  dle (round_up delta_time (Fin t)) (round_up delta_time x).
Proof.
  intros Hdt. destruct x as [a|]; simpl; [|tauto].
  intros H.
  apply Qmult_le_compat_r; [|apply Qlt_le_weak; exact Hdt].
  rewrite <- Zle_Qle.
  rewrite <- (Qceiling_Z (Qceiling (a / delta_time))).
  apply Qceiling_resp_le.
  apply Qle_shift_div_r; assumption.
Qed.


Lemma collect_length (n : nat) (blocks : list Block) (t_min : option Q) :
  length (Trajectory.collect_t_syncs n blocks t_min) = (3 * n + 1)%nat.
Proof.
  unfold Trajectory.collect_t_syncs.
  rewrite !length_app, !length_map, !length_seq. simpl. lia.
Qed.



(** The first [n] candidates are the blocks' [t_min]. *)
Lemma collect_at_dof (n : nat) (blocks : list Block) (t_min : option Q)
    (dof : nat) :
  (dof < n)%nat ->
  Trajectory.t_sync_at (Trajectory.collect_t_syncs n blocks t_min) dof
  = Fin (Block.t_min (Trajectory.block_at blocks dof)).
Proof.
  intros H. unfold Trajectory.t_sync_at, Trajectory.collect_t_syncs.
  rewrite app_nth1 by (rewrite length_map, length_seq; exact H).
  rewrite (nth_indep _ Inf
             (Fin (Block.t_min (Trajectory.block_at blocks 0))))
    by (rewrite length_map, length_seq; exact H).
  rewrite (map_nth (fun dof => Fin (Block.t_min (Trajectory.block_at blocks dof)))).
  rewrite seq_nth by exact H. reflexivity.
Qed.


Lemma block_at_in (blocks : list Block) (dof : nat) :
  (dof < length blocks)%nat -> In (Trajectory.block_at blocks dof) blocks.
Proof. intros H. apply nth_In. exact H. Qed.

Lemma in_block_at (blocks : list Block) (blk : Block) :
  In blk blocks ->
  exists dof, (dof < length blocks)%nat /\ Trajectory.block_at blocks dof = blk.
Proof. intros H. apply In_nth. exact H. Qed.


(** *** The first admissible candidate *)

Lemma strongly_sorted_app {A : Type} (R : A -> A -> Prop) (l1 l2 : list A) :
  StronglySorted R (l1 ++ l2) ->
  StronglySorted R l2 /\ forall x y, In x l1 -> In y l2 -> R x y.
Proof.
  induction l1 as [|z l1 IH]; simpl; intros H.
  - split; [exact H | intros x y []].
  - inversion H as [|? ? Hs Hall]; subst.
    destruct (IH Hs) as [H2 Hx]. split; [exact H2|].
    intros x y [<- | Hin] Hy.
    + rewrite Forall_forall in Hall. apply Hall. apply in_or_app. right. exact Hy.
    + apply Hx; assumption.
Qed.

(** Among any [3 n + 1] indices in some order, one of the first [n] indices
    is not among the first [n - 1] positions. *)
Lemma some_dof_not_skipped (n : nat) (idx : list nat) :
  (1 <= n)%nat -> Permutation idx (seq 0 (3 * n + 1)) ->
  exists d, (d < n)%nat /\ In d (skipn (n - 1) idx).
Proof.
  intros Hn Hperm.
  destruct (Forall_Exists_dec (fun d => In d (firstn (n - 1) idx))
              (fun d => in_dec Nat.eq_dec d (firstn (n - 1) idx)) (seq 0 n))
    as [Hall | Hex].
  - exfalso.
    assert (Hincl : incl (seq 0 n) (firstn (n - 1) idx)).
    { intros d Hd. rewrite Forall_forall in Hall. apply Hall. exact Hd. }
    pose proof (NoDup_incl_length (seq_NoDup n 0) Hincl) as Hlen.
    rewrite length_seq in Hlen.
    pose proof (firstn_le_length (n - 1) idx). 
    rewrite length_firstn in Hlen. lia.
  - apply Exists_exists in Hex. destruct Hex as [d [Hd Hnot]].
    apply in_seq in Hd. exists d. split; [lia|].
    assert (Hin : In d idx).
    { apply (Permutation_in d (Permutation_sym Hperm)). apply in_seq. lia. }
    rewrite <- (firstn_skipn (n - 1) idx) in Hin.
    apply in_app_or in Hin. destruct Hin; [contradiction | assumption].
Qed.

(** The scan of the sorted candidates stops at an index whose candidate is
    not rejected and is at most every candidate that is not rejected and
    not below the [t_min] candidates. *)
Lemma scan_sorted_first (n idx_end : nat) (blocks : list Block)
    (t_min : option Q) (c : list double) (i : nat) :
  (1 <= n)%nat -> idx_end = n \/ idx_end = (3 * n + 1)%nat ->
  Trajectory.scan blocks t_min c
    (skipn (n - 1) (Trajectory.sort_idx c (seq 0 idx_end))) = Some i ->
  (i < 3 * n + 1)%nat
  /\ Trajectory.rejected blocks t_min (Trajectory.t_sync_at c i) = false
  /\ forall k, (k < 3 * n + 1)%nat ->
       Trajectory.rejected blocks t_min (Trajectory.t_sync_at c k) = false ->
       (forall dof, (dof < n)%nat -> candidate_le c dof k) ->
       candidate_le c i k.
Proof.
  intros Hn Hend Hscan.
  set (L := Trajectory.sort_idx c (seq 0 idx_end)) in *.
  pose proof (sort_idx_perm c (seq 0 idx_end)) as Hperm. fold L in Hperm.
  pose proof (sort_idx_sorted c (seq 0 idx_end)) as Hsorted. fold L in Hsorted.
  destruct (scan_some _ _ _ _ _ Hscan) as [before [after [HR [Hi Hbefore]]]].
  assert (HiL : In i L).
  { rewrite <- (firstn_skipn (n - 1) L), HR.
    apply in_or_app. right. apply in_or_app. right. left. reflexivity. }
  assert (Hi_end : (i < idx_end)%nat).
  { apply (Permutation_in i Hperm) in HiL. apply in_seq in HiL. lia. }
  split; [destruct Hend; lia|]. split; [exact Hi|].
  intros k Hk Hkr Hkmin.
  destruct (Nat.lt_ge_cases i n) as [Hlt | Hge]; [apply Hkmin; exact Hlt|].
  assert (Hend' : idx_end = (3 * n + 1)%nat) by (destruct Hend; lia).
  subst idx_end.
  rewrite <- (firstn_skipn (n - 1) L) in Hsorted.
  destruct (strongly_sorted_app _ _ _ Hsorted) as [HsR Hcross].
  rewrite HR in HsR.
  destruct (strongly_sorted_app _ _ _ HsR) as [HsI Hbefore_le].
  inversion HsI as [|? ? _ Hafter]; subst.
  rewrite Forall_forall in Hafter.
  assert (HkL : In k L).
  { apply (Permutation_in k (Permutation_sym Hperm)). apply in_seq. lia. }
  rewrite <- (firstn_skipn (n - 1) L), HR in HkL.
  apply in_app_or in HkL. destruct HkL as [HkF | HkR].
  - destruct (some_dof_not_skipped n L Hn Hperm) as [d [Hd HdR]].
    rewrite HR in HdR.
    destruct before as [|e before'].
    + simpl in HdR. eapply dle_trans; [|apply (Hkmin d Hd)].
      destruct HdR as [<- | HdR]; [apply dle_refl | apply Hafter; exact HdR].
    + exfalso.
      assert (Hke : candidate_le c k e).
      { apply Hcross; [exact HkF|]. rewrite HR. left. reflexivity. }
      assert (Hek : candidate_le c e k).
      { eapply dle_trans; [|apply (Hkmin d Hd)].
        inversion HsR as [|? ? _ Hall]; subst.
        rewrite Forall_forall in Hall.
        destruct HdR as [<- | HdR]; [apply dle_refl | apply Hall; exact HdR]. }
      rewrite (rejected_ext blocks t_min _ _ Hke Hek) in Hkr.
      rewrite (Hbefore e (or_introl eq_refl)) in Hkr. discriminate.
  - apply in_app_or in HkR. destruct HkR as [HkB | [<- | HkA]].
    + rewrite (Hbefore k HkB) in Hkr. discriminate.
    + apply dle_refl.
    + apply Hafter. exact HkA.
Qed.

Lemma not_blocked_outside (blocks : list Block) (t : double) :
  (forall blk, In blk blocks -> Block.is_blocked blk t = false) ->
  outside_intervals blocks t.
Proof.
  intros H blk i Hin Hi Hinside.
  assert (Hb : Block.is_blocked blk t = true).
  { apply is_blocked_iff. destruct Hi as [Hi | Hi]; [right; left | right; right];
      exists i; auto. }
  rewrite (H blk Hin) in Hb. discriminate.
Qed.

(** *** The candidates under the rounding as the machine computes it *)

Lemma round_up_rounds_up (delta_time : Q) (candidates : list double) :
  0 < delta_time -> rounds_up (round_up delta_time) candidates.
Proof.
  intros Hdt x _. eexists. split; [reflexivity|].
  apply (round_up_ge delta_time (Fin x) Hdt).
Qed.

Lemma round_up_rounds_to_multiples (delta_time : Q) (blocks : list Block)
    (candidates : list double) :
  0 < delta_time -> rounds_to_multiples (round_up delta_time) blocks candidates.
Proof. intros Hdt blk x _ _. apply round_up_le_multiple. exact Hdt. Qed.

Section Rounding.
Variable round : double -> double.
Variable n : nat.
Variable blocks : list Block.
Variable t_min : option Q.
Variable discrete_duration : bool.

Lemma possible_with_rounded :
  Trajectory.possible_t_syncs_with round n blocks t_min discrete_duration
  = map (rounded_by round discrete_duration)
        (Trajectory.collect_t_syncs n blocks t_min).
Proof.
  unfold Trajectory.possible_t_syncs_with, rounded_by.
  destruct discrete_duration; [reflexivity|].
  symmetry. apply map_id.
Qed.

Lemma possible_with_length :
  length (Trajectory.possible_t_syncs_with round n blocks t_min
            discrete_duration) = (3 * n + 1)%nat.
Proof. rewrite possible_with_rounded, length_map. apply collect_length. Qed.

Lemma possible_with_at (k : nat) :
  (k < 3 * n + 1)%nat ->
  Trajectory.t_sync_at
    (Trajectory.possible_t_syncs_with round n blocks t_min discrete_duration) k
  = rounded_by round discrete_duration
      (Trajectory.t_sync_at (Trajectory.collect_t_syncs n blocks t_min) k).
Proof.
  intros Hk. rewrite possible_with_rounded. unfold Trajectory.t_sync_at.
  rewrite (nth_indep _ Inf (rounded_by round discrete_duration Inf))
    by (rewrite length_map, collect_length; exact Hk).
  apply map_nth.
Qed.

Lemma collect_at_in (k : nat) :
  (k < 3 * n + 1)%nat ->
  In (Trajectory.t_sync_at (Trajectory.collect_t_syncs n blocks t_min) k)
     (Trajectory.collect_t_syncs n blocks t_min).
Proof. intros Hk. apply nth_In. rewrite collect_length. exact Hk. Qed.

(** A finite candidate stays finite and does not get smaller. *)
Lemma rounded_by_ge (x : Q) :
  (discrete_duration = true ->
   rounds_up round (Trajectory.collect_t_syncs n blocks t_min)) ->
  In (Fin x) (Trajectory.collect_t_syncs n blocks t_min) ->
  exists q, rounded_by round discrete_duration (Fin x) = Fin q /\ x <= q.
Proof.
  intros H Hin. unfold rounded_by. destruct discrete_duration.
  - apply (H eq_refl). exact Hin.
  - exists x. split; [reflexivity | apply Qle_refl].
Qed.

(** The [t_min] candidate of a DoF is finite and not below its [t_min]. *)
Lemma t_min_candidate (dof : nat) :
  (discrete_duration = true ->
   rounds_up round (Trajectory.collect_t_syncs n blocks t_min)) ->
  (dof < n)%nat ->
  exists q,
    Trajectory.t_sync_at
      (Trajectory.possible_t_syncs_with round n blocks t_min discrete_duration)
      dof = Fin q
    /\ Block.t_min (Trajectory.block_at blocks dof) <= q.
Proof.
  intros Hup Hdof. rewrite possible_with_at by lia.
  rewrite collect_at_dof by exact Hdof.
  apply (rounded_by_ge _ Hup).
  rewrite <- (collect_at_dof n blocks t_min dof Hdof).
  apply collect_at_in. lia.
Qed.

(** A candidate that is not blocked is at least every [t_min] candidate. *)
Lemma not_blocked_above_t_min_with (k dof : nat) :
  let c := Trajectory.possible_t_syncs_with round n blocks t_min
             discrete_duration in
  (discrete_duration = true ->
   rounds_to_multiples round blocks
     (Trajectory.collect_t_syncs n blocks t_min)) ->
  length blocks = n -> (dof < n)%nat -> (k < 3 * n + 1)%nat ->
  (forall blk, In blk blocks ->
               Block.is_blocked blk (Trajectory.t_sync_at c k) = false) ->
  dle (Trajectory.t_sync_at c dof) (Trajectory.t_sync_at c k).
Proof.
  intros c Hm Hlen Hdof Hk Hb. subst c.
  specialize (Hb (Trajectory.block_at blocks dof)
                (block_at_in blocks dof ltac:(lia))).
  unfold Block.is_blocked in Hb.
  apply orb_false_iff in Hb. destruct Hb as [Hb _].
  apply orb_false_iff in Hb. destruct Hb as [Hb _].
  apply dlt_false_dle in Hb.
  rewrite (possible_with_at k Hk) in *.
  rewrite (possible_with_at dof) by lia.
  rewrite collect_at_dof by exact Hdof.
  unfold rounded_by in *. destruct discrete_duration; [|exact Hb].
  apply (Hm eq_refl);
    [apply block_at_in; lia | apply collect_at_in; exact Hk | exact Hb].
Qed.

(** A candidate that the claim's three conditions admit is not rejected. *)
Lemma admitted_not_rejected (cv : double) :
  let c := Trajectory.possible_t_syncs_with round n blocks t_min
             discrete_duration in
  (1 <= n)%nat -> length blocks = n ->
  (discrete_duration = true ->
   rounds_up round (Trajectory.collect_t_syncs n blocks t_min)) ->
  (forall blk, In blk blocks -> 0 <= Block.t_min blk) ->
  (forall dof, (dof < n)%nat -> dle (Trajectory.t_sync_at c dof) cv) ->
  outside_intervals blocks cv ->
  above_floor t_min cv ->
  Trajectory.rejected blocks t_min cv = false.
Proof.
  intros c Hn Hlen Hup Hpos Habove Hout Hfloor. subst c.
  assert (Hmin : forall dof, (dof < n)%nat ->
            dle (Fin (Block.t_min (Trajectory.block_at blocks dof))) cv).
  { intros dof Hdof. eapply dle_trans; [|apply (Habove dof Hdof)].
    destruct (t_min_candidate dof Hup Hdof) as [q [-> Hq]]. exact Hq. }
  apply rejected_false. split.
  - intros blk Hin.
    destruct (Block.is_blocked blk cv) eqn:E; [|reflexivity].
    exfalso. apply is_blocked_iff in E.
    destruct E as [E | [[i [Hi E]] | [i [Hi E]]]].
    + destruct (in_block_at blocks blk Hin) as [dof [Hdof <-]].
      rewrite (dle_dlt_false _ _ (Hmin dof ltac:(lia))) in E. discriminate.
    + apply (Hout blk i Hin (or_introl Hi) E).
    + apply (Hout blk i Hin (or_intror Hi) E).
  - destruct t_min as [f|].
    + apply Hfloor. reflexivity.
    + eapply dle_trans; [|apply (Hmin 0%nat ltac:(lia))].
      simpl. apply Hpos. apply block_at_in. lia.
Qed.

End Rounding.

(** C1, as the code has it.  The candidates are, per DoF, [t_min],
    [a->right] and [b->right] (infinity for an absent interval) and the
    floor (infinity if absent); when the duration is discrete each of them
    is replaced by its rounding to the quantum,
    [std::ceil(x / delta_time) * delta_time], here [round x].  Take blocks
    with a non-negative [t_min] that does not lie inside their own
    intervals and, when the duration is discrete, a rounding as it is
    meant: the rounding of a finite candidate is finite and not below it,
    and a rounded candidate that is not below a [t_min] is not below the
    rounding of that [t_min].  When [synchronize] succeeds, [t_sync] is a
    candidate, it is not below the largest [t_min] candidate, no block is
    blocked at it (so it is strictly inside no forbidden interval), it is
    not below the floor, and it is the first such candidate in ascending
    order: every candidate that is not below the [t_min] candidates, is
    strictly inside no forbidden interval and is not below the floor is at
    least [t_sync]. *)
Theorem synchronize_first_candidate (round : double -> double) (n : nat)
    (blocks : list Block) (t_min : option Q) (profiles : list Profile)
    (discrete_duration : bool) (t_sync : double) (limiting_dof : Z)
    (profiles' : list Profile) :
  let collected := Trajectory.collect_t_syncs n blocks t_min in
  let c := Trajectory.possible_t_syncs_with round n blocks t_min
             discrete_duration in
  (1 <= n)%nat -> length blocks = n ->
  (discrete_duration = true ->
   rounds_up round collected /\ rounds_to_multiples round blocks collected) ->
  (forall blk, In blk blocks ->
     0 <= Block.t_min blk
     /\ Block.is_blocked blk (Fin (Block.t_min blk)) = false) ->
  Trajectory.synchronize_with round n blocks t_min profiles discrete_duration
  = Some (t_sync, limiting_dof, profiles') ->
  c = map (rounded_by round discrete_duration) collected
  /\ In t_sync c
  /\ (forall dof, (dof < n)%nat -> dle (Trajectory.t_sync_at c dof) t_sync)
  /\ (forall blk, In blk blocks -> Block.is_blocked blk t_sync = false)
  /\ outside_intervals blocks t_sync
  /\ above_floor t_min t_sync
  /\ (forall cv, In cv c ->
        (forall dof, (dof < n)%nat -> dle (Trajectory.t_sync_at c dof) cv) ->
        outside_intervals blocks cv ->
        above_floor t_min cv ->
        dle t_sync cv).
Proof.
  intros collected c Hn Hlen Hround Hwf Hsync.
  assert (Hup : discrete_duration = true -> rounds_up round collected).
  { intros H. apply (Hround H). }
  assert (Hmult : discrete_duration = true ->
                  rounds_to_multiples round blocks collected).
  { intros H. apply (Hround H). }
  assert (Hpos : forall blk, In blk blocks -> 0 <= Block.t_min blk).
  { intros blk Hin. apply (Hwf blk Hin). }
  split; [apply possible_with_rounded|].
  unfold Trajectory.synchronize_with in Hsync.
  destruct (Nat.eqb n 1
            && match t_min with Some _ => false | None => true end
            && negb discrete_duration) eqn:Efast.
  - (* the fast path *)
    apply andb_true_iff in Efast. destruct Efast as [Efast Hd].
    apply andb_true_iff in Efast. destruct Efast as [En Hf].
    apply Nat.eqb_eq in En. apply negb_true_iff in Hd.
    destruct t_min as [f|]; [discriminate|]. subst n discrete_duration.
    injection Hsync as <- _ _.
    assert (H0 : Trajectory.t_sync_at c 0
                 = Fin (Block.t_min (Trajectory.block_at blocks 0))).
    { unfold c. rewrite possible_with_at by lia. simpl.
      apply collect_at_dof. lia. }
    assert (Hblocked : forall blk, In blk blocks ->
              Block.is_blocked blk
                (Fin (Block.t_min (Trajectory.block_at blocks 0))) = false).
    { intros blk Hin.
      destruct (in_block_at blocks blk Hin) as [dof [Hdof Hblk]].
      assert (dof = 0%nat) by lia. subst dof. rewrite Hblk.
      apply (Hwf blk Hin). }
    split.
    { rewrite <- H0. apply nth_In. unfold c. rewrite possible_with_length.
      lia. }
    split.
    { intros dof Hdof. assert (dof = 0%nat) by lia. subst dof.
      rewrite H0. apply dle_refl. }
    split; [exact Hblocked|].
    split; [apply not_blocked_outside; exact Hblocked|].
    split; [intros f Hf'; discriminate|].
    intros cv _ Hcv _ _. rewrite <- H0. apply Hcv. lia.
  - (* the scan *)
    fold c in Hsync.
    set (idx_end := if Trajectory.any_interval_of n blocks t_min
                    then (3 * n + 1)%nat else n) in Hsync.
    destruct (Trajectory.scan blocks t_min c _) as [i|] eqn:Escan;
      [|discriminate].
    destruct (Trajectory.take_profile n blocks profiles i) as [lim ps].
    injection Hsync as <- _ _.
    assert (Hend : idx_end = n \/ idx_end = (3 * n + 1)%nat).
    { unfold idx_end. destruct (Trajectory.any_interval_of _ _ _); auto. }
    destruct (scan_sorted_first n idx_end blocks t_min c i Hn Hend Escan)
      as [Hi [Hrej Hfirst]].
    apply rejected_false in Hrej. destruct Hrej as [Hblocked Hfloor].
    split.
    { apply nth_In. unfold c. rewrite possible_with_length. exact Hi. }
    split.
    { intros dof Hdof.
      apply (not_blocked_above_t_min_with round n blocks t_min
               discrete_duration i dof Hmult Hlen Hdof Hi Hblocked). }
    split; [exact Hblocked|].
    split; [apply not_blocked_outside; exact Hblocked|].
    split.
    { intros f ->. exact Hfloor. }
    intros cv Hin Hcv Hout Hfl.
    destruct (In_nth c cv Inf Hin) as [k [Hk Hnth]].
    unfold c in Hk. rewrite possible_with_length in Hk.
    change (nth k c Inf) with (Trajectory.t_sync_at c k) in Hnth.
    rewrite <- Hnth in *.
    apply (Hfirst k Hk).
    + apply (admitted_not_rejected round n blocks t_min discrete_duration
               (Trajectory.t_sync_at c k) Hn Hlen Hup Hpos Hcv Hout Hfl).
    + intros dof Hdof. apply Hcv. exact Hdof.
Qed.

(** C1 at two DoFs with the quantum 2/5, rounded without error: the
    candidates 6/5, 16/5 and 4 are passed over and the candidate 26/5 is
    selected. *)
Lemma synchronize_first_candidate_witness :
  In (Fin (26 # 5))
     (Trajectory.possible_t_syncs_with (round_up (2 # 5)) 2
        Examples.two_blocks None true).
Proof.
  refine (proj1 (proj2 (synchronize_first_candidate (round_up (2 # 5)) 2
                   Examples.two_blocks None
                   [Profile.zero; Profile.zero] true (Fin (26 # 5)) 1%Z
                   [Profile.zero; Examples.profile_of 5 0 DOWN] _ _ _ _ _))).
  - lia.
  - reflexivity.
  - intros _. split.
    + apply round_up_rounds_up. reflexivity.
    + apply round_up_rounds_to_multiples. reflexivity.
  - intros blk [<- | [<- | []]]; split; vm_compute; congruence.
  - vm_compute. reflexivity.
Defined.

(** C1 as stated fails once a quantum is given: for the rest-to-rest motion
    of duration 3 and the quantum 2/5 the selected duration is 16/5, which
    is none of the numbers [t_min], [a.right], [b.right] and floor; the
    candidate 3 itself is admissible by the three conditions and smaller. *)
Lemma quantized_duration_is_no_collected_candidate :
  exists t_sync limiting_dof profiles',
    Trajectory.synchronize 1 Examples.rest_to_rest None [Profile.zero] true
      (2 # 5) = Some (t_sync, limiting_dof, profiles')
    /\ Trajectory.collect_t_syncs 1 Examples.rest_to_rest None
       = [Fin 3; Inf; Inf; Inf]
    /\ ~ In t_sync (Trajectory.collect_t_syncs 1 Examples.rest_to_rest None)
    /\ outside_intervals Examples.rest_to_rest (Fin 3)
    /\ above_floor None (Fin 3)
    /\ ~ dle t_sync (Fin 3).
Proof.
  exists (Fin (16 # 5)), 0%Z, [Examples.profile_of 3 0 UP].
  split; [vm_compute; reflexivity|].
  split; [reflexivity|].
  split.
  { simpl. intros [H | [H | [H | [H | []]]]]; discriminate. }
  split.
  { intros blk i [<- | []] [H | H]; discriminate. }
  split; [intros f H; discriminate|].
  simpl. intros H. vm_compute in H. apply H. reflexivity.
Qed.

(** ** Disabled DoFs *)

Section DisabledDoF.
Context {planner : Planner}.
Variable inp : InputParameter.
Variable dof : nat.
Hypothesis disabled : Trajectory.enabled_at inp dof = false.

Lemma keeps_refl (s : Trajectory) : keeps inp dof s s [].
Proof. unfold keeps. repeat split; auto; intros c []. Qed.

Lemma keeps_trans (s1 s2 s3 : Trajectory) (c1 c2 : list Call) :
  keeps inp dof s1 s2 c1 -> keeps inp dof s2 s3 c2 ->
  keeps inp dof s1 s3 (c1 ++ c2).
Proof.
  unfold keeps. intros [L1 [P1 [B1 [D1 C1]]]] [L2 [P2 [B2 [D2 C2]]]].
  repeat split; try congruence.
  intros c Hc. apply in_app_or in Hc. destruct Hc; auto.
Qed.

(** Writing the profile of another DoF keeps this one. *)
Lemma keeps_set_profile (s : Trajectory) (d : nat) (x : Profile)
    (calls : list Call) :
  d <> dof ->
  (forall c, In c calls -> Trajectory.enabled_at inp (call_dof c) = true) ->
  keeps inp dof s
    (Trajectory.set_profiles (set (Trajectory.profiles s) d x) s) calls.
Proof.
  intros Hd Hc. unfold keeps.
  cbn [Trajectory.profiles Trajectory.set_profiles Trajectory.blocks
       Trajectory.degrees_of_freedom].
  split; [apply set_length|].
  split; [unfold Trajectory.profile_at; apply nth_set_other; exact Hd|].
  auto.
Qed.

Lemma for_each_keeps (body : Trajectory -> nat -> Trajectory.Step) :
  (forall s d, let '(s', calls, _) := body s d in keeps inp dof s s' calls) ->
  forall dofs s,
    let '(s', calls, _) := Trajectory.for_each body dofs s in
    keeps inp dof s s' calls.
Proof.
  intros Hbody. induction dofs as [|d rest IH]; intros s; simpl.
  - apply keeps_refl.
  - specialize (Hbody s d).
    destruct (body s d) as [[s1 c1] [o|]]; [exact Hbody|].
    specialize (IH s1).
    destruct (Trajectory.for_each body rest s1) as [[s2 c2] o2].
    eapply keeps_trans; eassumption.
Qed.

Lemma none_sync_dof_keeps (limiting_dof : Z) (s : Trajectory) (d : nat) :
  let '(s', calls, _) := Trajectory.none_sync_dof inp limiting_dof s d in
  keeps inp dof s s' calls.
Proof.
  unfold Trajectory.none_sync_dof.
  destruct (Nat.eq_dec d dof) as [-> | Hd].
  - rewrite disabled. cbn [andb]. apply keeps_refl.
  - destruct (_ && _); [|apply keeps_refl].
    apply keeps_set_profile; [exact Hd | intros c []].
Qed.

Lemma time_sync_dof_keeps (throw_error : bool) (limiting_dof : Z)
    (s : Trajectory) (d : nat) :
  let '(s', calls, _) :=
    Trajectory.time_sync_dof throw_error inp limiting_dof s d in
  keeps inp dof s s' calls.
Proof.
  unfold Trajectory.time_sync_dof.
  destruct (Trajectory.enabled_at inp d) eqn:Ed; cbn [negb orb];
    [|apply keeps_refl].
  assert (Hd : d <> dof) by (intros ->; congruence).
  destruct (_ || _); [apply keeps_refl|].
  destruct (Trajectory.time_not_necessary inp s d).
  { apply keeps_set_profile; [exact Hd | intros c []]. }
  destruct (Trajectory.extremal_profile _ _).
  { apply keeps_set_profile; [exact Hd | intros c []]. }
  split_pairs.
  destruct (negb _); (apply keeps_set_profile; [exact Hd|]);
    intros c [<- | []]; exact Ed.
Qed.

Lemma phase_sync_dof_keeps (limiting_dof : Z) (s0 : Trajectory)
    (acc : Trajectory * list Call * bool) (d : nat) :
  keeps inp dof s0 (fst (fst acc)) (snd (fst acc)) ->
  keeps inp dof s0
    (fst (fst (Trajectory.phase_sync_dof inp limiting_dof acc d)))
    (snd (fst (Trajectory.phase_sync_dof inp limiting_dof acc d))).
Proof.
  destruct acc as [[s calls] found]. cbn [fst snd]. intros Hk.
  unfold Trajectory.phase_sync_dof.
  destruct (Trajectory.enabled_at inp d) eqn:Ed; cbn [negb orb];
    [|exact Hk].
  assert (Hd : d <> dof) by (intros ->; congruence).
  destruct (_ || _); [exact Hk|].
  split_pairs. cbn [fst snd].
  eapply keeps_trans; [exact Hk|].
  eapply (keeps_trans _ _ _ [] [call_check_with_timing d]).
  - apply keeps_set_profile; [exact Hd | intros c []].
  - apply keeps_set_profile; [exact Hd|]. intros c [<- | []]. exact Ed.
Qed.

Lemma phase_loop_keeps (limiting_dof : Z) (s0 : Trajectory) :
  forall dofs acc,
    keeps inp dof s0 (fst (fst acc)) (snd (fst acc)) ->
    keeps inp dof s0
      (fst (fst (fold_left (Trajectory.phase_sync_dof inp limiting_dof)
                   dofs acc)))
      (snd (fst (fold_left (Trajectory.phase_sync_dof inp limiting_dof)
                   dofs acc))).
Proof.
  induction dofs as [|d rest IH]; intros acc Hk; simpl; [exact Hk|].
  apply IH. apply phase_sync_dof_keeps. exact Hk.
Qed.

Lemma is_input_collinear_keeps (s : Trajectory) (jMax : list Q)
    (direction : Direction) (limiting_dof : Z) :
  keeps inp dof s
    (snd (Trajectory.is_input_collinear inp s jMax direction limiting_dof)) [].
Proof.
  unfold Trajectory.is_input_collinear.
  destruct (Trajectory.collinear_scales _ _ _ _ _) as [pd' [scales|]].
  - destruct (Trajectory.collinear_check _ _ _ _ _ _ _ _) as [jerk' ok].
    unfold keeps. cbn. repeat split; auto; intros c [].
  - unfold keeps. cbn. repeat split; auto; intros c [].
Qed.

Lemma phase_synchronization_keeps (limiting_dof : Z) (s : Trajectory) :
  let '(s', calls, _) := Trajectory.phase_synchronization inp limiting_dof s in
  keeps inp dof s s' calls.
Proof.
  unfold Trajectory.phase_synchronization.
  destruct (_ && _); [|apply keeps_refl].
  pose proof (is_input_collinear_keeps s (InputParameter.max_jerk inp)
                (Profile.direction
                   (Trajectory.limiting_profile (Trajectory.profiles s)
                      limiting_dof)) limiting_dof) as Hc.
  destruct (Trajectory.is_input_collinear _ _ _ _ _) as [collinear s1].
  cbn [snd] in Hc.
  destruct collinear; [|exact Hc].
  pose proof (phase_loop_keeps limiting_dof s
                (seq 0 (length (Trajectory.profiles s))) (s1, [], true) Hc)
    as Hl.
  destruct (fold_left _ _ _) as [[s2 c2] found]. exact Hl.
Qed.

Lemma phase_then_time_keeps (throw_error : bool) (limiting_dof : Z)
    (s : Trajectory) :
  let '(s', calls, _) :=
    Trajectory.phase_then_time throw_error inp limiting_dof s in
  keeps inp dof s s' calls.
Proof.
  unfold Trajectory.phase_then_time.
  pose proof (phase_synchronization_keeps limiting_dof s) as Hphase.
  destruct (Trajectory.phase_synchronization inp limiting_dof s)
    as [[s1 c1] done].
  destruct done; [exact Hphase|].
  pose proof (for_each_keeps _ (time_sync_dof_keeps throw_error limiting_dof)
                (seq 0 (length (Trajectory.profiles s))) s1) as Ht.
  destruct (Trajectory.for_each _ _ s1) as [[s2 c2] o2].
  eapply keeps_trans; eassumption.
Qed.

Lemma prepare_dof_disabled (throw_error : bool) (s : Trajectory) :
  Trajectory.prepare_dof throw_error inp s dof
  = (Trajectory.set_profiles
       (set (Trajectory.profiles s) dof
          (frozen inp dof (Trajectory.profile_at (Trajectory.profiles s) dof)))
       s, [], None).
Proof.
  unfold Trajectory.prepare_dof. rewrite disabled. reflexivity.
Qed.

Lemma prepare_dof_keeps (throw_error : bool) (s : Trajectory) (d : nat) :
  d <> dof ->
  let '(s', calls, _) := Trajectory.prepare_dof throw_error inp s d in
  keeps inp dof s s' calls.
Proof.
  intros Hd. unfold Trajectory.prepare_dof.
  destruct (Trajectory.enabled_at inp d) eqn:Ed; cbn [negb].
  - split_pairs.
    assert (Hc : forall c, In c [call_brake d; call_step1 d] ->
                           Trajectory.enabled_at inp (call_dof c) = true).
    { intros c [<- | [<- | []]]; exact Ed. }
    destruct (negb _); unfold keeps;
      cbn [Trajectory.profiles Trajectory.blocks Trajectory.degrees_of_freedom
           Trajectory.set_profiles Trajectory.set_blocks Trajectory.set_start
           Trajectory.set_inp Trajectory.set_independent_min_durations];
      (split; [apply set_length|]);
      (split; [unfold Trajectory.profile_at; apply nth_set_other; exact Hd|]);
      (split; [unfold Trajectory.block_at; apply nth_set_other; exact Hd|]);
      (split; [reflexivity | exact Hc]).
  - apply keeps_set_profile; [exact Hd | intros c []].
Qed.

Lemma prepare_loop (throw_error : bool) :
  forall dofs s,
    NoDup dofs ->
    let '(s', calls, o) :=
      Trajectory.for_each (Trajectory.prepare_dof throw_error inp) dofs s in
    length (Trajectory.profiles s') = length (Trajectory.profiles s)
    /\ Trajectory.block_at (Trajectory.blocks s') dof
       = Trajectory.block_at (Trajectory.blocks s) dof
    /\ Trajectory.degrees_of_freedom s' = Trajectory.degrees_of_freedom s
    /\ (forall c, In c calls -> Trajectory.enabled_at inp (call_dof c) = true)
    /\ (~ In dof dofs ->
        Trajectory.profile_at (Trajectory.profiles s') dof
        = Trajectory.profile_at (Trajectory.profiles s) dof)
    /\ (In dof dofs -> o = None ->
        (dof < length (Trajectory.profiles s))%nat ->
        Trajectory.profile_at (Trajectory.profiles s') dof
        = frozen inp dof (Trajectory.profile_at (Trajectory.profiles s) dof)).
Proof.
  induction dofs as [|d rest IH]; intros s Hnd.
  - simpl. split; [reflexivity|]. split; [reflexivity|].
    split; [reflexivity|]. split; [intros c []|].
    split; [reflexivity | intros []].
  - inversion Hnd as [|? ? Hnotin Hnd']; subst. simpl.
    destruct (Nat.eq_dec d dof) as [-> | Hd].
    + rewrite prepare_dof_disabled.
      specialize (IH (Trajectory.set_profiles
                        (set (Trajectory.profiles s) dof
                           (frozen inp dof
                              (Trajectory.profile_at (Trajectory.profiles s) dof)))
                        s) Hnd').
      destruct (Trajectory.for_each _ rest _) as [[s2 c2] o2].
      cbn [Trajectory.profiles Trajectory.blocks Trajectory.degrees_of_freedom
           Trajectory.set_profiles app] in *.
      rewrite set_length in IH.
      destruct IH as [L [B [D [C [Pn _]]]]].
      repeat split; auto.
      * intros Hn. exfalso. apply Hn. left. reflexivity.
      * intros _ _ Hlen. rewrite (Pn Hnotin).
        unfold Trajectory.profile_at. apply nth_set_same. exact Hlen.
    + pose proof (prepare_dof_keeps throw_error s d Hd) as Hk.
      destruct (Trajectory.prepare_dof throw_error inp s d)
        as [[s1 c1] [o1|]].
      * destruct Hk as [L [P [B [D C]]]].
        repeat split; auto. intros _ Ho. discriminate.
      * specialize (IH s1 Hnd').
        destruct (Trajectory.for_each _ rest s1) as [[s2 c2] o2].
        destruct Hk as [L [P [B [D C]]]].
        destruct IH as [L' [B' [D' [C' [Pn Pi]]]]].
        split; [congruence|]. split; [congruence|]. split; [congruence|].
        split.
        { intros c Hc. apply in_app_or in Hc. destruct Hc; auto. }
        split.
        { intros Hn. rewrite Pn; [exact P|].
          intros Hin. apply Hn. right. exact Hin. }
        intros [Heq | Hin] Ho Hlen; [congruence|].
        rewrite Pi; [rewrite P; reflexivity | exact Hin | exact Ho | lia].
Qed.

Lemma profile_at_set (ps : list Profile) (i k : nat) (x : Profile) :
  Trajectory.profile_at (set ps i x) k = Trajectory.profile_at ps k
  \/ (k = i /\ Trajectory.profile_at (set ps i x) k = x).
Proof.
  unfold Trajectory.profile_at.
  destruct (Nat.eq_dec i k) as [-> | Hne].
  - destruct (Nat.lt_ge_cases k (length ps)) as [Hlt | Hge].
    + right. split; [reflexivity | apply nth_set_same; exact Hlt].
    + left. rewrite !nth_overflow; [reflexivity | exact Hge |].
      rewrite set_length. exact Hge.
  - left. apply nth_set_other. exact Hne.
Qed.

(** [synchronize] changes a profile only by replacing it with one its
    block stores. *)
Lemma synchronize_frame (n : nat) (blks : list Block) (t_min : option Q)
    (ps : list Profile) (discrete_duration : bool) (delta_time : Q)
    (t_sync : double) (limiting_dof : Z) (ps' : list Profile) :
  Trajectory.synchronize n blks t_min ps discrete_duration delta_time
  = Some (t_sync, limiting_dof, ps') ->
  length ps' = length ps
  /\ forall k,
       Trajectory.profile_at ps' k = Trajectory.profile_at ps k
       \/ stored_in (Trajectory.block_at blks k) (Trajectory.profile_at ps' k).
Proof.
  assert (Hset : forall i x,
            stored_in (Trajectory.block_at blks i) x ->
            length (set ps i x) = length ps
            /\ forall k,
                 Trajectory.profile_at (set ps i x) k = Trajectory.profile_at ps k
                 \/ stored_in (Trajectory.block_at blks k)
                      (Trajectory.profile_at (set ps i x) k)).
  { intros i x Hx. split; [apply set_length|]. intros k.
    destruct (profile_at_set ps i k x) as [H | [-> H]]; [left; exact H|].
    right. rewrite H. exact Hx. }
  unfold Trajectory.synchronize, Trajectory.synchronize_with.
  destruct (_ && _).
  - intros H. injection H as _ _ <-. apply Hset. left. reflexivity.
  - destruct (Trajectory.scan _ _ _ _) as [i|]; [|discriminate].
    unfold Trajectory.take_profile.
    destruct (Nat.eqb i (3 * n)).
    { intros H. injection H as _ _ <-. split; [reflexivity | intros k; left; reflexivity]. }
    intros H. injection H as _ _ <-.
    destruct (i / n)%nat as [|[|[|q]]].
    + apply Hset. left. reflexivity.
    + destruct (Block.a (Trajectory.block_at blks (i mod n))) as [iv|] eqn:Ea.
      * apply Hset. right. left. exists iv. auto.
      * split; [reflexivity | intros k; left; reflexivity].
    + destruct (Block.b (Trajectory.block_at blks (i mod n))) as [iv|] eqn:Eb.
      * apply Hset. right. right. exists iv. auto.
      * split; [reflexivity | intros k; left; reflexivity].
    + split; [reflexivity | intros k; left; reflexivity].
Qed.

(** [synchronize] changes the profile of the limiting DoF only. *)
Lemma synchronize_leaves_others (n : nat) (blks : list Block)
    (t_min : option Q) (ps : list Profile) (discrete_duration : bool)
    (delta_time : Q) (t_sync : double) (limiting_dof : Z)
    (ps' : list Profile) :
  Trajectory.synchronize n blks t_min ps discrete_duration delta_time
  = Some (t_sync, limiting_dof, ps') ->
  forall k, Trajectory.is_limiting k limiting_dof = false ->
    Trajectory.profile_at ps' k = Trajectory.profile_at ps k.
Proof.
  assert (Hset : forall i x k,
            Trajectory.is_limiting k (Z.of_nat i) = false ->
            Trajectory.profile_at (set ps i x) k = Trajectory.profile_at ps k).
  { intros i x k Hk. unfold Trajectory.is_limiting in Hk.
    apply Z.eqb_neq in Hk. unfold Trajectory.profile_at.
    apply nth_set_other. lia. }
  unfold Trajectory.synchronize, Trajectory.synchronize_with.
  destruct (_ && _).
  - intros H. injection H as _ <- <-. intros k Hk.
    apply (Hset 0%nat). exact Hk.
  - destruct (Trajectory.scan _ _ _ _) as [i|]; [|discriminate].
    unfold Trajectory.take_profile.
    destruct (Nat.eqb i (3 * n)).
    { intros H. injection H as _ _ <-. reflexivity. }
    intros H. injection H as _ <- <-. intros k Hk.
    destruct (i / n)%nat as [|[|[|q]]].
    + apply Hset. exact Hk.
    + destruct (Block.a (Trajectory.block_at blks (i mod n))) as [iv|];
        [apply Hset; exact Hk | reflexivity].
    + destruct (Block.b (Trajectory.block_at blks (i mod n))) as [iv|];
        [apply Hset; exact Hk | reflexivity].
    + reflexivity.
Qed.

Lemma get_set_zero (l : list Q) (i : nat) : get (set l i 0) i = 0.
Proof.
  unfold get. destruct (Nat.lt_ge_cases i (length l)) as [Hlt | Hge].
  - apply nth_set_same. exact Hlt.
  - apply nth_overflow. rewrite set_length. exact Hge.
Qed.

Lemma evolved_integrate (tau time : Q) :
  tau == time ->
  evolved inp dof time
    (Profile.integrate tau (get (InputParameter.current_position inp) dof)
       (get (InputParameter.current_velocity inp) dof)
       (get (InputParameter.current_acceleration inp) dof) 0).
Proof.
  intros H. unfold evolved, Profile.integrate.
  rewrite H. split; [ring|]. split; ring.
Qed.

Lemma frozen_holds (p : Profile) :
  holds_current_state inp dof p (frozen inp dof p).
Proof.
  unfold holds_current_state, frozen.
  cbn [Profile.brake Profile.t_sum Profile.pf Profile.vf Profile.af
       Profile.set_t_sum Profile.set_final].
  rewrite get_set_zero. auto.
Qed.

Lemma resting_sample_after (p q : Profile) (time : Q) :
  holds_current_state inp dof p q ->
  BrakeProfile.duration (Profile.brake p) == 0 ->
  evolved inp dof time (Trajectory.sample_after q time).
Proof.
  intros [Hp [Hv [Ha [Ht Hb]]]] Hzero. unfold Trajectory.sample_after.
  rewrite Hp, Hv, Ha, Ht, Hb. apply evolved_integrate. rewrite Hzero. ring.
Qed.

Lemma resting_sample_within (p q : Profile) (time : Q) :
  holds_current_state inp dof p q ->
  BrakeProfile.duration (Profile.brake p) == 0 -> 0 <= time ->
  evolved inp dof time (Trajectory.sample_within q time).
Proof.
  intros [Hp [Hv [Ha [Ht Hb]]]] Hzero Htime. unfold Trajectory.sample_within.
  rewrite Hp, Hv, Ha, Ht, Hb.
  assert (Hz : Qltb 0 (BrakeProfile.duration (Profile.brake p)) = false).
  { apply Qltb_ge. rewrite Hzero. apply Qle_refl. }
  rewrite Hz. cbn [andb].
  rewrite (proj2 (Qle_bool_iff 0 time) Htime).
  apply evolved_integrate. ring.
Qed.

Lemma prepare_dof_outcome_cases (throw_error : bool) (s : Trajectory)
    (d : nat) (s' : Trajectory) (calls : list Call) (out : Outcome) :
  Trajectory.prepare_dof throw_error inp s d = (s', calls, Some out) ->
  out <> Returns Working.
Proof.
  unfold Trajectory.prepare_dof.
  destruct (negb (Trajectory.enabled_at inp d)); [discriminate|].
  split_pairs.
  destruct (negb _); [|discriminate].
  intros H. injection H as _ _ <-.
  destruct throw_error; discriminate.
Qed.

(** X25: A DoF whose enabled flag is false.  [calculate] calls neither the
    brake, nor Step 1, nor the timing check, nor Step 2 for it, and leaves
    its block as it was.  When [calculate] returns [Working], the set-up
    loop and [synchronize] have succeeded, and the profile of the DoF is
    the one [synchronize] left: if the DoF is not the limiting one, it has
    [(pf, vf, af)] equal to the current (position, velocity, acceleration),
    [t_sum[6]] equal to zero and the brake prefix it had before the call;
    if [synchronize] selected it as the limiting DoF (through the block
    left from an earlier call), it is that or a profile stored in that
    block.  In the first case, if the left-over brake duration is zero,
    sampling the DoF at any time [time >= 0] gives its current state
    evolved under constant acceleration for [time]. *)
Theorem disabled_dof_is_frozen (throw_error ret : bool) (delta_time : Q)
    (tr tr' : Trajectory) (out : Outcome) (calls : list Call) :
  let p := Trajectory.profile_at (Trajectory.profiles tr) dof in
  let q := Trajectory.profile_at (Trajectory.profiles tr') dof in
  (dof < length (Trajectory.profiles tr))%nat ->
  Trajectory.calculate throw_error ret inp delta_time tr = (out, tr', calls) ->
  (forall c, In c calls -> call_dof c <> dof)
  /\ Trajectory.block_at (Trajectory.blocks tr') dof
     = Trajectory.block_at (Trajectory.blocks tr) dof
  /\ (out = Returns Working ->
      exists tr1 calls1 t_sync limiting_dof profiles',
        Trajectory.for_each (Trajectory.prepare_dof throw_error inp)
          (seq 0 (length (Trajectory.profiles tr))) tr = (tr1, calls1, None)
        /\ Trajectory.synchronize (Trajectory.degrees_of_freedom tr1)
             (Trajectory.blocks tr1) (InputParameter.minimum_duration inp)
             (Trajectory.profiles tr1)
             (match InputParameter.duration_discretization inp with
              | Discrete => true
              | Continuous => false
              end) delta_time
           = Some (t_sync, limiting_dof, profiles')
        /\ q = Trajectory.profile_at profiles' dof
        /\ (Trajectory.is_limiting dof limiting_dof = false ->
            holds_current_state inp dof p q)
        /\ (Trajectory.is_limiting dof limiting_dof = true ->
            holds_current_state inp dof p q
            \/ stored_in (Trajectory.block_at (Trajectory.blocks tr) dof) q))
  /\ (out = Returns Working ->
      holds_current_state inp dof p q ->
      BrakeProfile.duration (Profile.brake p) == 0 ->
      length (Trajectory.profiles tr) = Trajectory.degrees_of_freedom tr ->
      forall DOFs time np nv na,
        0 <= time ->
        length np = Trajectory.degrees_of_freedom tr ->
        length nv = Trajectory.degrees_of_freedom tr ->
        length na = Trajectory.degrees_of_freedom tr ->
        exists np' nv' na' section,
          Trajectory.at_time DOFs tr' time np nv na
          = Some (np', nv', na', section)
          /\ evolved inp dof time (get np' dof, get nv' dof, get na' dof)).
Proof.
  intros p q Hdof Hcalc. subst q.
  assert (Hmain :
    (forall c, In c calls -> Trajectory.enabled_at inp (call_dof c) = true)
    /\ Trajectory.block_at (Trajectory.blocks tr') dof
       = Trajectory.block_at (Trajectory.blocks tr) dof
    /\ length (Trajectory.profiles tr') = length (Trajectory.profiles tr)
    /\ Trajectory.degrees_of_freedom tr' = Trajectory.degrees_of_freedom tr
    /\ (out = Returns Working ->
        exists tr1 calls1 t_sync limiting_dof profiles',
          Trajectory.for_each (Trajectory.prepare_dof throw_error inp)
            (seq 0 (length (Trajectory.profiles tr))) tr = (tr1, calls1, None)
          /\ Trajectory.synchronize (Trajectory.degrees_of_freedom tr1)
               (Trajectory.blocks tr1) (InputParameter.minimum_duration inp)
               (Trajectory.profiles tr1)
               (match InputParameter.duration_discretization inp with
                | Discrete => true
                | Continuous => false
                end) delta_time
             = Some (t_sync, limiting_dof, profiles')
          /\ Trajectory.profile_at (Trajectory.profiles tr') dof
             = Trajectory.profile_at profiles' dof
          /\ (Trajectory.is_limiting dof limiting_dof = false ->
              Trajectory.profile_at profiles' dof = frozen inp dof p)
          /\ (Trajectory.profile_at profiles' dof = frozen inp dof p
              \/ stored_in (Trajectory.block_at (Trajectory.blocks tr) dof)
                   (Trajectory.profile_at profiles' dof)))).
  { unfold Trajectory.calculate in Hcalc.
    pose proof (prepare_loop throw_error
                  (seq 0 (length (Trajectory.profiles tr))) tr
                  (seq_NoDup _ _)) as Hprep.
    destruct (Trajectory.for_each (Trajectory.prepare_dof throw_error inp) _ tr)
      as [[tr1 c1] o1] eqn:Eprep.
    destruct Hprep as [L1 [B1 [D1 [C1 [_ P1]]]]].
    destruct o1 as [o|].
    { injection Hcalc as <- <- <-.
      split; [exact C1|]. split; [exact B1|]. split; [exact L1|].
      split; [exact D1|]. intros ->. exfalso.
      eapply (for_each_outcome _ (fun o => o <> Returns Working));
        [|exact Eprep|reflexivity].
      intros. eapply prepare_dof_outcome_cases. eassumption. }
    specialize (P1 ltac:(apply in_seq; lia) eq_refl Hdof).
    destruct (Trajectory.synchronize _ _ _ _ _ _)
      as [[[t lim] ps]|] eqn:Esync.
    2:{ injection Hcalc as <- <- <-.
        split; [exact C1|]. split; [exact B1|]. split; [exact L1|].
        split; [exact D1|]. destruct throw_error; discriminate. }
    destruct (synchronize_frame _ _ _ _ _ _ _ _ _ Esync) as [L2 K2].
    pose proof (synchronize_leaves_others _ _ _ _ _ _ _ _ _ Esync dof) as K3.
    specialize (K2 dof). rewrite P1, B1 in K2. rewrite P1 in K3.
    set (tr2 := Trajectory.set_duration t (Trajectory.set_profiles ps tr1)) in *.
    assert (Hafter : forall s cs,
              keeps inp dof tr2 s cs ->
              (forall c, In c (c1 ++ cs) ->
                         Trajectory.enabled_at inp (call_dof c) = true)
              /\ Trajectory.block_at (Trajectory.blocks s) dof
                 = Trajectory.block_at (Trajectory.blocks tr) dof
              /\ length (Trajectory.profiles s) = length (Trajectory.profiles tr)
              /\ Trajectory.degrees_of_freedom s
                 = Trajectory.degrees_of_freedom tr
              /\ exists tr1' calls1 t_sync limiting_dof profiles',
                   (tr1, c1, @None Outcome) = (tr1', calls1, None)
                   /\ Trajectory.synchronize
                        (Trajectory.degrees_of_freedom tr1')
                        (Trajectory.blocks tr1')
                        (InputParameter.minimum_duration inp)
                        (Trajectory.profiles tr1')
                        (match InputParameter.duration_discretization inp with
                         | Discrete => true
                         | Continuous => false
                         end) delta_time
                      = Some (t_sync, limiting_dof, profiles')
                   /\ Trajectory.profile_at (Trajectory.profiles s) dof
                      = Trajectory.profile_at profiles' dof
                   /\ (Trajectory.is_limiting dof limiting_dof = false ->
                       Trajectory.profile_at profiles' dof = frozen inp dof p)
                   /\ (Trajectory.profile_at profiles' dof = frozen inp dof p
                       \/ stored_in
                            (Trajectory.block_at (Trajectory.blocks tr) dof)
                            (Trajectory.profile_at profiles' dof))).
    { intros s cs [L [P [B [D C]]]].
      split.
      { intros c Hc. apply in_app_or in Hc. destruct Hc; auto. }
      split; [rewrite B; exact B1|].
      split; [rewrite L; cbn; congruence|].
      split; [rewrite D; exact D1|].
      exists tr1, c1, t, lim, ps.
      split; [reflexivity|]. split; [exact Esync|].
      split; [rewrite P; reflexivity|].
      split; [exact K3 | exact K2]. }
    destruct (Hafter tr2 [] (keeps_refl tr2)) as [A1 [A2 [A3 [A4 A5]]]].
    rewrite app_nil_r in A1.
    destruct (ret && dlt (Fin 7600) (Trajectory.duration tr2)).
    { injection Hcalc as <- <- <-.
      split; [exact A1|]. split; [exact A2|]. split; [exact A3|].
      split; [exact A4|]. discriminate. }
    destruct (dzero (Trajectory.duration tr2)).
    { injection Hcalc as <- <- <-.
      split; [exact A1|]. split; [exact A2|]. split; [exact A3|].
      split; [exact A4|]. intros _. exact A5. }
    pose proof (for_each_keeps _ (none_sync_dof_keeps lim)
                  (seq 0 (length (Trajectory.blocks tr2))) tr2) as Hnone.
    destruct (Trajectory.for_each (Trajectory.none_sync_dof inp lim) _ tr2)
      as [[tr3 c3] o3].
    assert (Hnone' : keeps inp dof tr2 tr3 []).
    { destruct Hnone as [L [P [B [D _]]]]. unfold keeps.
      repeat split; auto; intros c []. }
    destruct (forallb Trajectory.is_none _).
    { injection Hcalc as <- <- <-.
      destruct (Hafter tr3 [] Hnone') as [E1 [E2 [E3 [E4 E5]]]].
      rewrite app_nil_r in E1.
      split; [exact E1|]. split; [exact E2|]. split; [exact E3|].
      split; [exact E4|]. intros _. exact E5. }
    pose proof (phase_then_time_keeps throw_error lim tr3) as Hpt.
    destruct (Trajectory.phase_then_time throw_error inp lim tr3)
      as [[tr4 c4] o4].
    assert (Hk : keeps inp dof tr2 tr4 c4).
    { apply (keeps_trans tr2 tr3 tr4 [] c4 Hnone' Hpt). }
    destruct (Hafter tr4 c4 Hk) as [E1 [E2 [E3 [E4 E5]]]].
    destruct o4; injection Hcalc as <- <- <-;
      (split; [exact E1|]; split; [exact E2|]; split; [exact E3|];
       split; [exact E4|]; intros _; exact E5). }
  destruct Hmain as [Hc [Hb [Hl [Hd Hp]]]].
  split.
  { intros c Hin Heq. specialize (Hc c Hin). rewrite Heq in Hc. congruence. }
  split; [exact Hb|]. split.
  { intros Ho.
    destruct (Hp Ho) as [tr1 [c1 [t [lim [ps [E1 [E2 [E3 [E4 E5]]]]]]]]].
    exists tr1, c1, t, lim, ps.
    split; [exact E1|]. split; [exact E2|]. split; [exact E3|].
    rewrite E3. split.
    - intros Hl'. rewrite (E4 Hl'). apply frozen_holds.
    - intros _. destruct E5 as [Hf | Hs]; [left | right; exact Hs].
      rewrite Hf. apply frozen_holds. }
  intros _ Hfrozen Hbrake Hlen DOFs time np nv na Htime Hnp Hnv Hna.
  unfold Trajectory.at_time.
  rewrite Hd, Hnp, Hnv, Hna, !Nat.eqb_refl. cbn [negb orb].
  rewrite andb_false_r.
  assert (Hw : forall sample,
    evolved inp dof time
      (sample (Trajectory.profile_at (Trajectory.profiles tr') dof)) ->
    forall section : nat,
    exists np' nv' na' section',
      Some (Trajectory.write_samples sample (Trajectory.profiles tr') 0
              (np, nv, na), section)
      = Some (np', nv', na', section')
      /\ evolved inp dof time (get np' dof, get nv' dof, get na' dof)).
  { intros sample Hs section.
    pose proof (write_samples_spec sample (Trajectory.profiles tr') 0 np nv na)
      as Hspec.
    destruct (Trajectory.write_samples sample _ 0 (np, nv, na))
      as [[np' nv'] na'].
    destruct Hspec as [_ [_ Hhigh]].
    exists np', nv', na', section. split; [reflexivity|].
    specialize (Hhigh dof ltac:(lia) ltac:(simpl; lia) ltac:(simpl; lia)
                  ltac:(simpl; lia)).
    cbn [Nat.add] in Hhigh. unfold get. rewrite Hhigh.
    exact Hs. }
  destruct (dge (Fin time) (Trajectory.duration tr')).
  - apply Hw. apply (resting_sample_after p); assumption.
  - apply Hw. apply (resting_sample_within p); assumption.
Qed.

End DisabledDoF.

(** At the second plan on the reused trajectory object the block of the
    disabled DoF 1 is the one the first plan left. *)
Lemma disabled_dof_is_frozen_witness :
  Trajectory.block_at
    (Trajectory.blocks
       (snd (fst (@Trajectory.calculate Examples.stand_in false false
                    Examples.second_plan 0 Examples.reused)))) 1
  = Trajectory.block_at (Trajectory.blocks Examples.reused) 1.
Proof.
  destruct (@Trajectory.calculate Examples.stand_in false false
              Examples.second_plan 0 Examples.reused)
    as [[out tr'] calls] eqn:E.
  refine (proj1 (proj2 (@disabled_dof_is_frozen Examples.stand_in
                   Examples.second_plan 1 _ false false 0 Examples.reused
                   tr' out calls _ E))).
  - reflexivity.
  - vm_compute. lia.
Defined.

(** C10 does not hold of the code.  The set-up loop of [calculate] sets
    [pf], [vf], [af] and [t_sum[6]] of a disabled DoF and leaves its brake
    prefix as an earlier call left it.  A trajectory object is planned with
    both DoFs enabled, the second one needing a brake prefix of duration 1,
    and then planned again with the second DoF disabled at position 7.  The
    second plan returns [Working] with duration 10 and makes no collaborator
    call for the disabled DoF, and sampling that DoF at time 1/2 integrates
    the old brake segment: the result is not its current state (7, 0, 0)
    evolved under constant acceleration. *)
Theorem disabled_dof_sampled_in_stale_brake :
  let '(out, tr, calls) :=
    @Trajectory.calculate Examples.stand_in false false Examples.second_plan 0
      Examples.reused in
  out = Returns Working
  /\ Trajectory.enabled_at Examples.second_plan 1 = false
  /\ calls = [call_brake 0; call_step1 0]
  /\ Trajectory.duration tr = Fin 10
  /\ holds_current_state Examples.second_plan 1
       (Trajectory.profile_at (Trajectory.profiles Examples.reused) 1)
       (Trajectory.profile_at (Trajectory.profiles tr) 1)
  /\ BrakeProfile.duration
       (Profile.brake (Trajectory.profile_at (Trajectory.profiles tr) 1)) = 1
  /\ exists np nv na section,
       Trajectory.at_time 2 tr (1 # 2) [0; 0] [0; 0] [0; 0]
       = Some (np, nv, na, section)
       /\ get np 1 == 47 # 48
       /\ ~ evolved Examples.second_plan 1 (1 # 2)
             (get np 1, get nv 1, get na 1).
Proof.
  vm_compute.
  split; [reflexivity|]. split; [reflexivity|]. split; [reflexivity|].
  split; [reflexivity|].
  split; [repeat (split; [reflexivity|]); reflexivity|].
  split; [reflexivity|].
  eexists _, _, _, _. split; [reflexivity|]. split; [reflexivity|].
  intros [H _]. discriminate H.
Qed.

(** C4 at the synchronized two-DoF trajectory: the required duration 5 of
    DoF 1 meets [a->right], and after the loop the DoF has the profile
    stored in interval [a]. *)
Lemma time_synchronization_reuses_stored_profile_witness :
  Trajectory.profile_at
    (Trajectory.profiles
       (fst (fst (Trajectory.for_each
                    (@Trajectory.time_sync_dof Examples.stand_in false
                       Examples.first_plan 0)
                    (seq 0 (length (Trajectory.profiles Examples.synchronized)))
                    Examples.synchronized)))) 1
  = Examples.profile_of 5 0 DOWN.
Proof.
  destruct (Trajectory.for_each
              (@Trajectory.time_sync_dof Examples.stand_in false
                 Examples.first_plan 0)
              (seq 0 (length (Trajectory.profiles Examples.synchronized)))
              Examples.synchronized) as [[tr' calls] out] eqn:E.
  assert (Ho : out = None).
  { vm_compute in E. injection E as _ _ <-. reflexivity. }
  refine (proj1 (proj2 (proj2 (@time_synchronization_reuses_stored_profile
                   Examples.stand_in false Examples.first_plan 0
                   Examples.synchronized tr' calls out 1 E _ _ _ _ _ _) Ho))
            _ (Block.mkInterval 3 5 (Examples.profile_of 5 0 DOWN)) _ _).
  - vm_compute. lia.
  - reflexivity.
  - reflexivity.
  - discriminate.
  - reflexivity.
  - right. left. eexists. split; reflexivity.
  - reflexivity.
  - reflexivity.
  - reflexivity.
Defined.

(** ** The independent minimum duration *)

Section IndependentMinDuration.
Context {planner : Planner}.
Variable inp : InputParameter.

Lemma same_plan_refl (s : Trajectory) : same_plan s s.
Proof. unfold same_plan. auto. Qed.

Lemma same_plan_trans (s1 s2 s3 : Trajectory) :
  same_plan s1 s2 -> same_plan s2 s3 -> same_plan s1 s3.
Proof.
  unfold same_plan. intros [B1 [I1 D1]] [B2 [I2 D2]].
  repeat split; congruence.
Qed.

Lemma same_plan_set_profiles (s : Trajectory) (ps : list Profile) :
  same_plan s (Trajectory.set_profiles ps s).
Proof. unfold same_plan. auto. Qed.

Lemma for_each_same_plan (body : Trajectory -> nat -> Trajectory.Step) :
  (forall s d, same_plan s (fst (fst (body s d)))) ->
  forall dofs s, same_plan s (fst (fst (Trajectory.for_each body dofs s))).
Proof.
  intros Hbody. induction dofs as [|d rest IH]; intros s; simpl.
  - apply same_plan_refl.
  - specialize (Hbody s d).
    destruct (body s d) as [[s1 c1] [o|]]; [exact Hbody|].
    specialize (IH s1).
    destruct (Trajectory.for_each body rest s1) as [[s2 c2] o2].
    eapply same_plan_trans; eassumption.
Qed.

Lemma none_sync_dof_same_plan (limiting_dof : Z) (s : Trajectory) (d : nat) :
  same_plan s (fst (fst (Trajectory.none_sync_dof inp limiting_dof s d))).
Proof.
  unfold Trajectory.none_sync_dof.
  destruct (_ && _); [apply same_plan_set_profiles | apply same_plan_refl].
Qed.

Lemma time_sync_dof_same_plan (throw_error : bool) (limiting_dof : Z)
    (s : Trajectory) (d : nat) :
  same_plan s
    (fst (fst (Trajectory.time_sync_dof throw_error inp limiting_dof s d))).
Proof.
  unfold Trajectory.time_sync_dof.
  destruct (_ || _); [apply same_plan_refl|].
  destruct (Trajectory.time_not_necessary inp s d);
    [apply same_plan_set_profiles|].
  destruct (Trajectory.extremal_profile _ _); [apply same_plan_set_profiles|].
  split_pairs. destruct (negb _); apply same_plan_set_profiles.
Qed.

Lemma phase_loop_same_plan (limiting_dof : Z) (s0 : Trajectory) :
  forall dofs acc,
    same_plan s0 (fst (fst acc)) ->
    same_plan s0
      (fst (fst (fold_left (Trajectory.phase_sync_dof inp limiting_dof)
                   dofs acc))).
Proof.
  induction dofs as [|d rest IH]; intros acc Hk; simpl; [exact Hk|].
  apply IH. destruct acc as [[s calls] found]. cbn [fst] in *.
  unfold Trajectory.phase_sync_dof.
  destruct (_ || _); [exact Hk|].
  split_pairs. cbn [fst].
  eapply same_plan_trans; [exact Hk|].
  eapply same_plan_trans; apply same_plan_set_profiles.
Qed.

Lemma phase_then_time_same_plan (throw_error : bool) (limiting_dof : Z)
    (s : Trajectory) :
  same_plan s
    (fst (fst (Trajectory.phase_then_time throw_error inp limiting_dof s))).
Proof.
  unfold Trajectory.phase_then_time.
  assert (Hphase : same_plan s
            (fst (fst (Trajectory.phase_synchronization inp limiting_dof s)))).
  { unfold Trajectory.phase_synchronization.
    destruct (_ && _); [|apply same_plan_refl].
    assert (Hc : forall jMax direction,
              same_plan s (snd (Trajectory.is_input_collinear inp s jMax
                                  direction limiting_dof))).
    { intros jMax direction. unfold Trajectory.is_input_collinear.
      destruct (Trajectory.collinear_scales _ _ _ _ _) as [pd' [scales|]].
      - destruct (Trajectory.collinear_check _ _ _ _ _ _ _ _) as [jerk' ok].
        unfold same_plan. cbn. auto.
      - unfold same_plan. cbn. auto. }
    specialize (Hc (InputParameter.max_jerk inp)
                  (Profile.direction
                     (Trajectory.limiting_profile (Trajectory.profiles s)
                        limiting_dof))).
    destruct (Trajectory.is_input_collinear _ _ _ _ _) as [collinear s1].
    cbn [snd] in Hc.
    destruct collinear; [|exact Hc].
    pose proof (phase_loop_same_plan limiting_dof s
                  (seq 0 (length (Trajectory.profiles s))) (s1, [], true) Hc)
      as Hl.
    destruct (fold_left _ _ _) as [[s2 c2] found]. exact Hl. }
  destruct (Trajectory.phase_synchronization inp limiting_dof s)
    as [[s1 c1] done].
  cbn [fst] in Hphase.
  destruct done; [exact Hphase|].
  pose proof (for_each_same_plan _
                (time_sync_dof_same_plan throw_error limiting_dof)
                (seq 0 (length (Trajectory.profiles s))) s1) as Ht.
  destruct (Trajectory.for_each _ _ s1) as [[s2 c2] o2].
  cbn [fst] in *. eapply same_plan_trans; eassumption.
Qed.

(** One round of the set-up loop: the entries of other DoFs stay, and the
    round of an enabled DoF that finds a profile reports
    [p_min.brake.duration + t_min] of the block it has just obtained. *)
Lemma prepare_dof_reports (throw_error : bool) (s : Trajectory) (d : nat) :
  let '(s', _, o) := Trajectory.prepare_dof throw_error inp s d in
  length (Trajectory.independent_min_durations s')
  = length (Trajectory.independent_min_durations s)
  /\ (forall k, k <> d ->
        get (Trajectory.independent_min_durations s') k
        = get (Trajectory.independent_min_durations s) k
        /\ Trajectory.block_at (Trajectory.blocks s') k
           = Trajectory.block_at (Trajectory.blocks s) k)
  /\ (Trajectory.enabled_at inp d = true -> o = None ->
      (d < length (Trajectory.independent_min_durations s))%nat ->
      get (Trajectory.independent_min_durations s') d
      = BrakeProfile.duration
          (Profile.brake
             (Block.p_min (Trajectory.block_at (Trajectory.blocks s') d)))
        + Block.t_min (Trajectory.block_at (Trajectory.blocks s') d)).
Proof.
  unfold Trajectory.prepare_dof.
  destruct (Trajectory.enabled_at inp d) eqn:Ed; cbn [negb].
  - split_pairs.
    destruct (negb _);
      cbn [Trajectory.profiles Trajectory.blocks
           Trajectory.independent_min_durations
           Trajectory.set_profiles Trajectory.set_blocks Trajectory.set_start
           Trajectory.set_inp Trajectory.set_independent_min_durations].
    + split; [reflexivity|]. split.
      * intros k Hk. split; [reflexivity|].
        unfold Trajectory.block_at. apply nth_set_other. congruence.
      * intros _ Ho. discriminate.
    + split; [apply set_length|]. split.
      * intros k Hk. split.
        -- unfold get. apply nth_set_other. congruence.
        -- unfold Trajectory.block_at. apply nth_set_other. congruence.
      * intros _ _ Hlen. unfold get. apply nth_set_same. exact Hlen.
  - cbn. split; [reflexivity|]. split; [auto|]. intros H. discriminate.
Qed.

Lemma prepare_loop_reports (throw_error : bool) (dof : nat) :
  Trajectory.enabled_at inp dof = true ->
  forall dofs s,
    NoDup dofs ->
    let '(s', _, o) :=
      Trajectory.for_each (Trajectory.prepare_dof throw_error inp) dofs s in
    length (Trajectory.independent_min_durations s')
    = length (Trajectory.independent_min_durations s)
    /\ (~ In dof dofs ->
        get (Trajectory.independent_min_durations s') dof
        = get (Trajectory.independent_min_durations s) dof
        /\ Trajectory.block_at (Trajectory.blocks s') dof
           = Trajectory.block_at (Trajectory.blocks s) dof)
    /\ (In dof dofs -> o = None ->
        (dof < length (Trajectory.independent_min_durations s))%nat ->
        get (Trajectory.independent_min_durations s') dof
        = BrakeProfile.duration
            (Profile.brake
               (Block.p_min (Trajectory.block_at (Trajectory.blocks s') dof)))
          + Block.t_min (Trajectory.block_at (Trajectory.blocks s') dof)).
Proof.
  intros Hen. induction dofs as [|d rest IH]; intros s Hnd.
  - simpl. split; [reflexivity|]. split; [auto | intros []].
  - inversion Hnd as [|? ? Hnotin Hnd']; subst. simpl.
    pose proof (prepare_dof_reports throw_error s d) as Hd.
    destruct (Trajectory.prepare_dof throw_error inp s d) as [[s1 c1] o1].
    destruct Hd as [L1 [K1 R1]].
    destruct o1 as [o|].
    + split; [exact L1|]. split.
      * intros Hn. apply K1. intros ->. apply Hn. left. reflexivity.
      * intros _ Ho. discriminate.
    + specialize (IH s1 Hnd').
      destruct (Trajectory.for_each _ rest s1) as [[s2 c2] o2].
      destruct IH as [L2 [K2 R2]].
      split; [congruence|]. split.
      * intros Hn.
        destruct (K2 ltac:(intros Hin; apply Hn; right; exact Hin)) as [G1 G2].
        destruct (K1 dof ltac:(intros ->; apply Hn; left; reflexivity))
          as [G3 G4].
        split; congruence.
      * intros [-> | Hin] Ho Hlen.
        -- destruct (K2 Hnotin) as [G1 G2]. rewrite G1, G2.
           apply R1; [exact Hen | reflexivity | exact Hlen].
        -- apply R2; [exact Hin | exact Ho | lia].
Qed.

Lemma prepare_loop_sizes (throw_error : bool) :
  forall dofs s,
    let s' := fst (fst (Trajectory.for_each
                          (Trajectory.prepare_dof throw_error inp) dofs s)) in
    length (Trajectory.blocks s') = length (Trajectory.blocks s)
    /\ Trajectory.degrees_of_freedom s' = Trajectory.degrees_of_freedom s
    /\ length (Trajectory.profiles s') = length (Trajectory.profiles s).
Proof.
  induction dofs as [|d rest IH]; intros s; simpl; [auto|].
  assert (Hd : let s1 := fst (fst (Trajectory.prepare_dof throw_error inp s d)) in
               length (Trajectory.blocks s1) = length (Trajectory.blocks s)
               /\ Trajectory.degrees_of_freedom s1
                  = Trajectory.degrees_of_freedom s
               /\ length (Trajectory.profiles s1)
                  = length (Trajectory.profiles s)).
  { unfold Trajectory.prepare_dof.
    destruct (negb (Trajectory.enabled_at inp d)).
    - cbn. rewrite set_length. auto.
    - split_pairs. destruct (negb _); cbn; rewrite !set_length; auto. }
  destruct (Trajectory.prepare_dof throw_error inp s d) as [[s1 c1] [o|]];
    cbn [fst] in *; [exact Hd|].
  specialize (IH s1).
  destruct (Trajectory.for_each _ rest s1) as [[s2 c2] o2].
  cbn [fst] in *. destruct Hd as [B1 [D1 P1]], IH as [B2 [D2 P2]].
  repeat split; congruence.
Qed.

(** The synchronized duration is not below the [t_min] of any block. *)
Lemma synchronize_above_t_min (n : nat) (blks : list Block) (t_min : option Q)
    (ps : list Profile) (discrete_duration : bool) (delta_time : Q)
    (t_sync : double) (limiting_dof : Z) (ps' : list Profile) (dof : nat) :
  length blks = n -> (dof < n)%nat ->
  Trajectory.synchronize n blks t_min ps discrete_duration delta_time
  = Some (t_sync, limiting_dof, ps') ->
  dle (Fin (Block.t_min (Trajectory.block_at blks dof))) t_sync.
Proof.
  intros Hlen Hdof. unfold Trajectory.synchronize, Trajectory.synchronize_with.
  destruct (_ && _) eqn:Efast.
  - apply andb_true_iff in Efast. destruct Efast as [Efast _].
    apply andb_true_iff in Efast. destruct Efast as [En _].
    apply Nat.eqb_eq in En.
    intros H. injection H as <- _ _.
    assert (dof = 0%nat) by lia. subst dof. apply dle_refl.
  - destruct (Trajectory.scan _ _ _ _) as [i|] eqn:Escan; [|discriminate].
    destruct (Trajectory.take_profile _ _ _ _) as [lim ps2].
    intros H. injection H as <- _ _.
    destruct (scan_some _ _ _ _ _ Escan) as [before [after [_ [Hrej _]]]].
    apply rejected_false in Hrej. destruct Hrej as [Hb _].
    specialize (Hb (Trajectory.block_at blks dof)
                  (block_at_in blks dof ltac:(lia))).
    unfold Block.is_blocked in Hb.
    apply orb_false_iff in Hb. destruct Hb as [Hb _].
    apply orb_false_iff in Hb. destruct Hb as [Hb _].
    apply dlt_false_dle. exact Hb.
Qed.

(** What [calculate] reports for an enabled DoF when it succeeds: the
    duration is not below the block's [t_min], which is
    [p_min.t_sum[6] + p_min.brake.duration] for a block built by
    [Block(p_min)], and the independent minimum duration is
    [p_min.brake.duration + t_min]. *)
Lemma independent_min_duration_reported (throw_error ret : bool)
    (delta_time : Q) (tr tr' : Trajectory) (calls : list Call) (dof : nat) :
  Trajectory.enabled_at inp dof = true ->
  length (Trajectory.profiles tr) = Trajectory.degrees_of_freedom tr ->
  length (Trajectory.blocks tr) = Trajectory.degrees_of_freedom tr ->
  length (Trajectory.independent_min_durations tr)
  = Trajectory.degrees_of_freedom tr ->
  (dof < Trajectory.degrees_of_freedom tr)%nat ->
  Trajectory.calculate throw_error ret inp delta_time tr
  = (Returns Working, tr', calls) ->
  let block := Trajectory.block_at (Trajectory.blocks tr') dof in
  get (Trajectory.get_independent_min_durations tr') dof
  = BrakeProfile.duration (Profile.brake (Block.p_min block))
    + Block.t_min block
  /\ dle (Fin (Block.t_min block)) (Trajectory.get_duration tr').
Proof.
  intros Hen Hlp Hlb Hli Hdof Hcalc.
  unfold Trajectory.calculate in Hcalc.
  pose proof (prepare_loop_reports throw_error dof Hen
                (seq 0 (length (Trajectory.profiles tr))) tr (seq_NoDup _ _))
    as Hrep.
  destruct (Trajectory.for_each (Trajectory.prepare_dof throw_error inp) _ tr)
    as [[tr1 c1] o1] eqn:Eprep.
  destruct o1 as [o|].
  { injection Hcalc as -> _ _. exfalso.
    eapply (for_each_outcome _ (fun o => o <> Returns Working));
      [|exact Eprep|reflexivity].
    intros s d s' cs out. unfold Trajectory.prepare_dof.
    destruct (negb (Trajectory.enabled_at inp d)); [discriminate|].
    split_pairs. destruct (negb _); [|discriminate].
    intros H. injection H as _ _ <-. destruct throw_error; discriminate. }
  destruct Hrep as [L1 [_ R1]].
  specialize (R1 ltac:(apply in_seq; lia) eq_refl ltac:(lia)).
  pose proof (prepare_loop_sizes throw_error
                (seq 0 (length (Trajectory.profiles tr))) tr) as Hsizes.
  rewrite Eprep in Hsizes. cbn [fst] in Hsizes.
  assert (Hblocks : length (Trajectory.blocks tr1)
                    = Trajectory.degrees_of_freedom tr1
                    /\ Trajectory.degrees_of_freedom tr1
                       = Trajectory.degrees_of_freedom tr).
  { destruct Hsizes as [B [D _]]. split; congruence. }
  destruct Hblocks as [Hb1 Hd1].
  destruct (Trajectory.synchronize _ _ _ _ _ _)
    as [[[t lim] ps]|] eqn:Esync.
  2:{ destruct throw_error; discriminate. }
  pose proof (synchronize_above_t_min _ _ _ _ _ _ _ _ _ dof Hb1
                ltac:(lia) Esync) as Habove.
  set (tr2 := Trajectory.set_duration t (Trajectory.set_profiles ps tr1)) in *.
  assert (Hfinal : forall s, same_plan tr2 s ->
            get (Trajectory.independent_min_durations s) dof
            = BrakeProfile.duration
                (Profile.brake
                   (Block.p_min (Trajectory.block_at (Trajectory.blocks s) dof)))
              + Block.t_min (Trajectory.block_at (Trajectory.blocks s) dof)
            /\ dle (Fin (Block.t_min
                           (Trajectory.block_at (Trajectory.blocks s) dof)))
                   (Trajectory.duration s)).
  { intros s [B [I D]]. rewrite B, I, D. cbn. split; [exact R1 | exact Habove]. }
  destruct (ret && dlt (Fin 7600) (Trajectory.duration tr2)); [discriminate|].
  destruct (dzero (Trajectory.duration tr2)).
  { injection Hcalc as <- _. apply Hfinal. apply same_plan_refl. }
  pose proof (for_each_same_plan _ (none_sync_dof_same_plan lim)
                (seq 0 (length (Trajectory.blocks tr2))) tr2) as Hnone.
  destruct (Trajectory.for_each (Trajectory.none_sync_dof inp lim) _ tr2)
    as [[tr3 c3] o3].
  cbn [fst] in Hnone.
  destruct (forallb Trajectory.is_none _).
  { injection Hcalc as <- _. apply Hfinal. exact Hnone. }
  pose proof (phase_then_time_same_plan throw_error lim tr3) as Hpt.
  destruct (Trajectory.phase_then_time throw_error inp lim tr3)
    as [[tr4 c4] o4].
  cbn [fst] in Hpt.
  destruct o4; [injection Hcalc as _ <- _ | injection Hcalc as <- _];
    apply Hfinal; eapply same_plan_trans; eassumption.
Qed.

End IndependentMinDuration.

(** * Further properties of the code *)

(** ** Block: removing and choosing profiles *)

Lemma remove_profile_loop_spec :
  forall (n : nat) (vps : list Profile) (i : nat),
    (i + n < length vps)%nat ->
    let r := Block.remove_profile_loop vps i n in
    length r = length vps
    /\ (forall k, (k < i)%nat -> Block.vp r k = Block.vp vps k)
    /\ (forall k, (i <= k < i + n)%nat -> Block.vp r k = Block.vp vps (k + 1))
    /\ (forall k, (i + n <= k)%nat -> Block.vp r k = Block.vp vps k).
Proof.
  induction n as [|n IH]; intros vps i Hlen; cbn [Block.remove_profile_loop].
  - split; [reflexivity|]. split; [auto|]. split; [intros k Hk; lia | auto].
  - specialize (IH (set vps i (Block.vp vps (i + 1))) (i + 1)%nat).
    rewrite set_length in IH. specialize (IH ltac:(lia)).
    destruct IH as [L [Hlow [Hmid Hhigh]]].
    split; [exact L|]. unfold Block.vp in *. split; [|split].
    + intros k Hk. rewrite (Hlow k ltac:(lia)).
      apply nth_set_other. lia.
    + intros k Hk. destruct (Nat.eq_dec k i) as [-> | Hne].
      * rewrite (Hlow i ltac:(lia)). apply nth_set_same. lia.
      * rewrite (Hmid k ltac:(lia)). apply nth_set_other. lia.
    + intros k Hk. rewrite (Hhigh k ltac:(lia)).
      apply nth_set_other. lia.
Qed.

(** X1: [remove_profile] on the first [valid_profile_counter] entries of an
    array that holds at least that many: the counter goes down by one, the
    array keeps its size, the entries before [index] stay, the entries from
    [index] on are the old entries one place further, and the entries from
    the new counter on (the old last valid one among them) stay as they
    were. *)
Theorem remove_profile_shifts (vps : list Profile) (counter index : nat) :
  (index < counter)%nat -> (counter <= length vps)%nat ->
  let '(vps', counter') := Block.remove_profile vps counter index in
  counter' = (counter - 1)%nat
  /\ length vps' = length vps
  /\ (forall k, (k < index)%nat -> Block.vp vps' k = Block.vp vps k)
  /\ (forall k, (index <= k < counter - 1)%nat ->
                Block.vp vps' k = Block.vp vps (k + 1))
  /\ (forall k, (counter - 1 <= k)%nat -> Block.vp vps' k = Block.vp vps k).
Proof.
  intros Hi Hc. unfold Block.remove_profile.
  destruct (remove_profile_loop_spec (counter - 1 - index) vps index
              ltac:(lia)) as [L [Hlow [Hmid Hhigh]]].
  split; [reflexivity|]. split; [exact L|]. split; [exact Hlow|]. split.
  - intros k Hk. apply Hmid. lia.
  - intros k Hk. apply Hhigh. lia.
Qed.

(** Removing the second of four profiles leaves the first, third and fourth
    as the three valid ones. *)
Lemma remove_profile_shifts_witness :
  Block.vp (fst (Block.remove_profile Examples.five_profiles 4 1)) 1
  = Block.vp Examples.five_profiles 2.
Proof.
  pose proof (remove_profile_shifts Examples.five_profiles 4 1) as H.
  destruct (Block.remove_profile Examples.five_profiles 4 1) as [vps' c'].
  destruct (H ltac:(lia) ltac:(simpl; lia)) as [_ [_ [_ [Hmid _]]]].
  apply (Hmid 1%nat). lia.
Defined.

(** X2: Three valid profiles: the call returns [true]; [p_min] is the first
    profile that none of the three is faster than (by [t_sum[6]]), [t_min]
    is its total duration, interval [a] is built by [add_interval] from the
    two other profiles, taken cyclically after it and in this order (index
    [(m + 1) mod 3], then [(m + 2) mod 3]); there is no interval [b]. *)
Theorem calculate_block_three_profiles (robust : bool) (block0 : Block)
    (vps : list Profile) :
  (3 <= length vps)%nat ->
  exists m o1 o2,
    Permutation [m; o1; o2] [0; 1; 2]%nat
    /\ o1 = ((m + 1) mod 3)%nat /\ o2 = ((m + 2) mod 3)%nat
    /\ (forall j, (j < 3)%nat ->
                  get (Profile.t_sum (Block.vp vps m)) 6
                  <= get (Profile.t_sum (Block.vp vps j)) 6)
    /\ (forall j, (j < m)%nat ->
                  get (Profile.t_sum (Block.vp vps m)) 6
                  < get (Profile.t_sum (Block.vp vps j)) 6)
    /\ Block.calculate_block robust block0 vps 3
       = (Block.mk (Block.vp vps m)
            (Profile.total_duration (Block.vp vps m))
            (Some (Block.add_interval (Block.vp vps o1) (Block.vp vps o2)))
            None, true).
Proof.
  intros Hlen.
  destruct (min_element_firstn vps 3 ltac:(lia)) as [Hm [Hmin Hfirst]].
  unfold Block.calculate_block, Block.assemble. cbn [Nat.eqb Nat.modulo].
  set (m := Block.min_element (firstn 3 vps)) in *.
  exists m, ((m + 1) mod 3)%nat, ((m + 2) mod 3)%nat.
  split.
  { destruct m as [|[|[|m']]]; [| | |lia]; cbn.
    - reflexivity.
    - apply Permutation_sym. apply (Permutation_cons_app [1; 2]%nat [] 0%nat).
      reflexivity.
    - apply (Permutation_cons_app [0; 1]%nat [] 2%nat). reflexivity. }
  split; [reflexivity|]. split; [reflexivity|].
  split; [exact Hmin|]. split; [exact Hfirst|]. reflexivity.
Qed.

(** Three profiles of durations 2, 1 and 3: the second one becomes
    [p_min], and interval [a] is built from the third and the first. *)
Lemma calculate_block_three_profiles_witness :
  exists m o1 o2,
    o1 = ((m + 1) mod 3)%nat /\ o2 = ((m + 2) mod 3)%nat
    /\ Block.calculate_block true (Block.Block_of Profile.zero)
      [Examples.profile_of 2 0 UP; Examples.profile_of 1 0 UP;
       Examples.profile_of 3 0 DOWN] 3
    = (Block.mk
         (Block.vp [Examples.profile_of 2 0 UP; Examples.profile_of 1 0 UP;
                    Examples.profile_of 3 0 DOWN] m)
         (Profile.total_duration
            (Block.vp [Examples.profile_of 2 0 UP; Examples.profile_of 1 0 UP;
                       Examples.profile_of 3 0 DOWN] m))
         (Some (Block.add_interval
                  (Block.vp [Examples.profile_of 2 0 UP;
                             Examples.profile_of 1 0 UP;
                             Examples.profile_of 3 0 DOWN] o1)
                  (Block.vp [Examples.profile_of 2 0 UP;
                             Examples.profile_of 1 0 UP;
                             Examples.profile_of 3 0 DOWN] o2)))
         None, true).
Proof.
  destruct (calculate_block_three_profiles true (Block.Block_of Profile.zero)
              [Examples.profile_of 2 0 UP; Examples.profile_of 1 0 UP;
               Examples.profile_of 3 0 DOWN] ltac:(simpl; lia))
    as [m [o1 [o2 [_ [H1 [H2 [_ [_ H]]]]]]]].
  exists m, o1, o2. split; [exact H1|]. split; [exact H2 | exact H].
Defined.

(** X3: Five valid profiles: the call returns [true]; [p_min] is the first
    profile that none of the five is faster than, and the four others, taken
    cyclically after it, are paired into the intervals [a] and [b], each
    profile once: first with second and third with fourth if the first and
    the second have the same direction, first with fourth and second with
    third otherwise. *)
Theorem calculate_block_five_profiles (robust : bool) (block0 : Block)
    (vps : list Profile) :
  (5 <= length vps)%nat ->
  exists m o1 o2 o3 o4,
    Permutation [m; o1; o2; o3; o4] [0; 1; 2; 3; 4]%nat
    /\ o1 = ((m + 1) mod 5)%nat /\ o2 = ((m + 2) mod 5)%nat
    /\ o3 = ((m + 3) mod 5)%nat /\ o4 = ((m + 4) mod 5)%nat
    /\ (forall j, (j < 5)%nat ->
                  get (Profile.t_sum (Block.vp vps m)) 6
                  <= get (Profile.t_sum (Block.vp vps j)) 6)
    /\ (forall j, (j < m)%nat ->
                  get (Profile.t_sum (Block.vp vps m)) 6
                  < get (Profile.t_sum (Block.vp vps j)) 6)
    /\ Block.calculate_block robust block0 vps 5
       = (if Direction_eqb (Profile.direction (Block.vp vps o1))
                           (Profile.direction (Block.vp vps o2))
          then
            Block.mk (Block.vp vps m) (Profile.total_duration (Block.vp vps m))
              (Some (Block.add_interval (Block.vp vps o1) (Block.vp vps o2)))
              (Some (Block.add_interval (Block.vp vps o3) (Block.vp vps o4)))
          else
            Block.mk (Block.vp vps m) (Profile.total_duration (Block.vp vps m))
              (Some (Block.add_interval (Block.vp vps o1) (Block.vp vps o4)))
              (Some (Block.add_interval (Block.vp vps o2) (Block.vp vps o3))),
          true).
Proof.
  intros Hlen.
  destruct (min_element_firstn vps 5 ltac:(lia)) as [Hm [Hmin Hfirst]].
  unfold Block.calculate_block, Block.assemble. cbn [Nat.eqb Nat.modulo].
  set (m := Block.min_element (firstn 5 vps)) in *.
  exists m, ((m + 1) mod 5)%nat, ((m + 2) mod 5)%nat,
         ((m + 3) mod 5)%nat, ((m + 4) mod 5)%nat.
  split.
  { destruct m as [|[|[|[|[|m']]]]]; [| | | | |lia]; cbn.
    - reflexivity.
    - apply Permutation_sym.
      apply (Permutation_cons_app [1; 2; 3; 4]%nat [] 0%nat). reflexivity.
    - apply Permutation_sym.
      apply (Permutation_cons_app [2; 3; 4]%nat [1]%nat 0%nat).
      apply (Permutation_cons_app [2; 3; 4]%nat [] 1%nat). reflexivity.
    - apply Permutation_sym.
      apply (Permutation_cons_app [3; 4]%nat [1; 2]%nat 0%nat).
      apply (Permutation_cons_app [3; 4]%nat [2]%nat 1%nat).
      apply (Permutation_cons_app [3; 4]%nat [] 2%nat). reflexivity.
    - apply (Permutation_cons_app [0; 1; 2; 3]%nat [] 4%nat). reflexivity. }
  repeat (split; [reflexivity|]).
  split; [exact Hmin|]. split; [exact Hfirst|].
  destruct (Direction_eqb _ _); reflexivity.
Qed.

(** The five example profiles give the nested intervals (2, 5) and
    (3, 4). *)
Lemma calculate_block_five_profiles_witness :
  snd (Block.calculate_block true (Block.Block_of Profile.zero)
         Examples.five_profiles 5) = true.
Proof.
  destruct (calculate_block_five_profiles true (Block.Block_of Profile.zero)
              Examples.five_profiles ltac:(simpl; lia))
    as [m [o1 [o2 [o3 [o4 [_ [_ [_ [_ [_ [_ [_ H]]]]]]]]]]]].
  rewrite H. reflexivity.
Defined.

(** X4: [calculate_block] returns [true] exactly for one, three or five
    valid profiles, for two if their [t_sum[6]] agree within [8 eps] or the
    instantiation is the numerically robust one, and for four if one of the
    three pairs it examines is a pair of near duplicates. *)
Theorem calculate_block_succeeds_iff (robust : bool) (block0 : Block)
    (vps : list Profile) (counter : nat) :
  snd (Block.calculate_block robust block0 vps counter) = true
  <-> counter = 1%nat \/ counter = 3%nat \/ counter = 5%nat
      \/ (counter = 2%nat
          /\ (Qabs (get (Profile.t_sum (Block.vp vps 0)) 6
                    - get (Profile.t_sum (Block.vp vps 1)) 6) < 8 * eps
              \/ robust = true))
      \/ (counter = 4%nat
          /\ (near_duplicates 32 (Block.vp vps 0) (Block.vp vps 1)
              \/ near_duplicates 256 (Block.vp vps 2) (Block.vp vps 3)
              \/ near_duplicates 256 (Block.vp vps 0) (Block.vp vps 3))).
Proof.
  assert (Hassemble : forall l c,
            snd (Block.assemble l c) = true <-> c = 3%nat \/ c = 5%nat).
  { intros l c. unfold Block.assemble.
    destruct (Nat.eqb c 3) eqn:E3.
    - apply Nat.eqb_eq in E3. cbn [snd]. intuition.
    - apply Nat.eqb_neq in E3.
      destruct (Nat.eqb c 5) eqn:E5.
      + apply Nat.eqb_eq in E5.
        destruct (Direction_eqb _ _); cbn [snd]; intuition.
      + apply Nat.eqb_neq in E5. cbn [snd]. intuition congruence. }
  unfold Block.calculate_block.
  destruct (Nat.eqb counter 1) eqn:E1.
  { apply Nat.eqb_eq in E1. cbn [snd]. intuition. }
  apply Nat.eqb_neq in E1.
  destruct (Nat.eqb counter 2) eqn:E2.
  { apply Nat.eqb_eq in E2. subst counter.
    destruct (Block.t_sum_close 8 (Block.vp vps 0) (Block.vp vps 1)) eqn:Ec.
    - apply t_sum_close_iff in Ec. cbn [snd]. intuition.
    - assert (Hn : ~ Qabs (get (Profile.t_sum (Block.vp vps 0)) 6
                           - get (Profile.t_sum (Block.vp vps 1)) 6) < 8 * eps).
      { apply t_sum_close_false in Ec. apply Qle_not_lt. exact Ec. }
      destruct robust.
      + cbn [snd]. intuition.
      + rewrite Hassemble. split; [lia|].
        intros [H | [H | [H | [[_ [H | H]] | [H _]]]]];
          try discriminate; try contradiction. }
  apply Nat.eqb_neq in E2.
  destruct (Nat.eqb counter 4) eqn:E4.
  { apply Nat.eqb_eq in E4. subst counter.
    destruct (near_duplicates_dec 32 (Block.vp vps 0) (Block.vp vps 1))
      as [H01 | H01].
    { rewrite (proj2 (near_duplicates_iff _ _ _) H01).
      unfold Block.remove_profile. rewrite Hassemble. cbn. intuition. }
    destruct (Block.t_sum_close 32 (Block.vp vps 0) (Block.vp vps 1) && _)
      eqn:E01; [apply near_duplicates_iff in E01; contradiction|].
    destruct (near_duplicates_dec 256 (Block.vp vps 2) (Block.vp vps 3))
      as [H23 | H23].
    { rewrite (proj2 (near_duplicates_iff _ _ _) H23).
      unfold Block.remove_profile. rewrite Hassemble. cbn. intuition. }
    destruct (Block.t_sum_close 256 (Block.vp vps 2) (Block.vp vps 3) && _)
      eqn:E23; [apply near_duplicates_iff in E23; contradiction|].
    destruct (near_duplicates_dec 256 (Block.vp vps 0) (Block.vp vps 3))
      as [H03 | H03].
    { rewrite (proj2 (near_duplicates_iff _ _ _) H03).
      unfold Block.remove_profile. rewrite Hassemble. cbn. intuition. }
    destruct (Block.t_sum_close 256 (Block.vp vps 0) (Block.vp vps 3) && _)
      eqn:E03; [apply near_duplicates_iff in E03; contradiction|].
    cbn [snd]. split; [discriminate|].
    intros [H | [H | [H | [[H _] | [_ [H | [H | H]]]]]]];
      try discriminate; contradiction. }
  apply Nat.eqb_neq in E4.
  destruct (Nat.eqb (counter mod 2) 0) eqn:Em.
  { apply Nat.eqb_eq in Em. cbn [snd]. split; [discriminate|].
    intros [H | [H | [H | [[H _] | [H _]]]]]; subst counter;
      try discriminate; contradiction. }
  rewrite Hassemble. intuition; try congruence.
Qed.

(** ** Block: the invariant of an assembled block *)

Lemma add_interval_bounds (l r : Profile) (x : Q) :
  x <= Profile.total_duration l -> x <= Profile.total_duration r ->
  x <= Block.left (Block.add_interval l r)
  /\ Block.left (Block.add_interval l r) <= Block.right (Block.add_interval l r).
Proof.
  intros Hl Hr. unfold Block.add_interval.
  fold (Profile.total_duration l). fold (Profile.total_duration r).
  destruct (Qltb (Profile.total_duration l) (Profile.total_duration r)) eqn:E;
    cbn [Block.left Block.right].
  - apply Qltb_lt in E. split; [exact Hl | apply Qlt_le_weak; exact E].
  - apply Qltb_ge in E. split; [exact Hr | exact E].
Qed.

Lemma well_formed_not_blocked (blk : Block) :
  well_formed blk -> Block.is_blocked blk (Fin (Block.t_min blk)) = false.
Proof.
  intros [_ Hiv].
  destruct (Block.is_blocked blk (Fin (Block.t_min blk))) eqn:E;
    [|reflexivity].
  exfalso. apply is_blocked_iff in E.
  destruct E as [E | [[iv [Ha [E _]]] | [iv [Hb [E _]]]]].
  - rewrite dlt_irrefl in E. discriminate.
  - apply dlt_Fin in E. destruct (Hiv iv (or_introl Ha)) as [H _].
    apply (Qlt_not_le _ _ E H).
  - apply dlt_Fin in E. destruct (Hiv iv (or_intror Hb)) as [H _].
    apply (Qlt_not_le _ _ E H).
Qed.

(** Total durations follow [t_sum[6]] for profiles with one brake
    duration. *)
Lemma total_duration_le (x y : Profile) :
  BrakeProfile.duration (Profile.brake x)
  == BrakeProfile.duration (Profile.brake y) ->
  get (Profile.t_sum x) 6 <= get (Profile.t_sum y) 6 ->
  Profile.total_duration x <= Profile.total_duration y.
Proof.
  intros Hb Ht. unfold Profile.total_duration. rewrite Hb.
  apply Qplus_le_l. exact Ht.
Qed.

Lemma block_of_well_formed (p : Profile) : well_formed (Block.Block_of p).
Proof.
  split; [reflexivity|]. intros iv [H | H]; discriminate.
Qed.

(** Assembly from three or five profiles that share their brake duration
    gives a well-formed block. *)
Lemma assemble_well_formed (vps : list Profile) (c : nat) (blk : Block) :
  (c <= length vps)%nat ->
  (forall i j, (i < c)%nat -> (j < c)%nat ->
     BrakeProfile.duration (Profile.brake (Block.vp vps i))
     == BrakeProfile.duration (Profile.brake (Block.vp vps j))) ->
  Block.assemble vps c = (blk, true) ->
  well_formed blk.
Proof.
  intros Hlen Hbrake. unfold Block.assemble.
  destruct (Nat.eqb c 3) eqn:E3.
  - apply Nat.eqb_eq in E3. subst c.
    destruct (min_element_firstn vps 3 ltac:(lia)) as [Hm [Hmin _]].
    set (m := Block.min_element (firstn 3 vps)) in *.
    assert (Hle : forall o, (o < 3)%nat ->
              Profile.total_duration (Block.vp vps m)
              <= Profile.total_duration (Block.vp vps o)).
    { intros o Ho. apply total_duration_le; [apply Hbrake; lia | apply Hmin; lia]. }
    pose proof (Hle _ (Nat.mod_upper_bound (m + 1) 3 ltac:(lia))) as H1.
    pose proof (Hle _ (Nat.mod_upper_bound (m + 2) 3 ltac:(lia))) as H2.
    intros H. injection H as <-. split; [reflexivity|].
    cbn [Block.a Block.b Block.set_a Block.Block_of Block.t_min].
    intros iv [H | H]; [|discriminate]. injection H as <-.
    apply add_interval_bounds; assumption.
  - destruct (Nat.eqb c 5) eqn:E5; [|intros H; discriminate].
    apply Nat.eqb_eq in E5. subst c.
    destruct (min_element_firstn vps 5 ltac:(lia)) as [Hm [Hmin _]].
    set (m := Block.min_element (firstn 5 vps)) in *.
    assert (Hle : forall o, (o < 5)%nat ->
              Profile.total_duration (Block.vp vps m)
              <= Profile.total_duration (Block.vp vps o)).
    { intros o Ho. apply total_duration_le; [apply Hbrake; lia | apply Hmin; lia]. }
    pose proof (Hle _ (Nat.mod_upper_bound (m + 1) 5 ltac:(lia))) as H1.
    pose proof (Hle _ (Nat.mod_upper_bound (m + 2) 5 ltac:(lia))) as H2.
    pose proof (Hle _ (Nat.mod_upper_bound (m + 3) 5 ltac:(lia))) as H3.
    pose proof (Hle _ (Nat.mod_upper_bound (m + 4) 5 ltac:(lia))) as H4.
    destruct (Direction_eqb _ _); intros H; injection H as <-;
      (split; [reflexivity|]);
      cbn [Block.a Block.b Block.set_a Block.set_b Block.Block_of Block.t_min];
      intros iv [H | H]; injection H as <-;
      apply add_interval_bounds; assumption.
Qed.

(** X5: For valid profiles that share their brake duration, a block that
    [calculate_block] returns with [true] is well formed: [t_min] is the
    total duration of [p_min], every forbidden interval has [t_min <= left
    <= right], and the block is not blocked at its own [t_min]. *)
Theorem calculate_block_well_formed (robust : bool) (block0 blk : Block)
    (vps : list Profile) (counter : nat) :
  (counter <= length vps)%nat ->
  (forall i j, (i < counter)%nat -> (j < counter)%nat ->
     BrakeProfile.duration (Profile.brake (Block.vp vps i))
     == BrakeProfile.duration (Profile.brake (Block.vp vps j))) ->
  Block.calculate_block robust block0 vps counter = (blk, true) ->
  well_formed blk
  /\ Block.is_blocked blk (Fin (Block.t_min blk)) = false.
Proof.
  intros Hlen Hbrake Hcalc.
  assert (Hwf : well_formed blk); [|split; [exact Hwf|];
                                    apply well_formed_not_blocked; exact Hwf].
  revert Hcalc. unfold Block.calculate_block.
  assert (Hremoved : forall index,
            (index < 4)%nat -> counter = 4%nat ->
            Block.assemble
              (fst (Block.remove_profile vps counter index))
              (snd (Block.remove_profile vps counter index)) = (blk, true) ->
            well_formed blk).
  { intros index Hi -> H.
    unfold Block.remove_profile in H. cbn [fst snd] in H.
    destruct (remove_profile_loop_spec (4 - 1 - index) vps index
                ltac:(lia)) as [L [Hlow [Hmid Hhigh]]].
    set (vps' := Block.remove_profile_loop vps index (4 - 1 - index)) in *.
    apply (assemble_well_formed vps' (4 - 1)); [lia | | exact H].
    assert (Hfrom : forall k, (k < 4 - 1)%nat ->
              exists k', (k' < 4)%nat /\ Block.vp vps' k = Block.vp vps k').
    { intros k Hk. destruct (Nat.lt_ge_cases k index) as [Hlt | Hge].
      - exists k. split; [lia | apply Hlow; exact Hlt].
      - exists (k + 1)%nat. split; [lia | apply Hmid; lia]. }
    intros i j Hi' Hj'.
    destruct (Hfrom i Hi') as [i' [Hi'' ->]].
    destruct (Hfrom j Hj') as [j' [Hj'' ->]].
    apply Hbrake; assumption. }
  destruct (Nat.eqb counter 1) eqn:E1.
  { intros H. injection H as <-. apply block_of_well_formed. }
  destruct (Nat.eqb counter 2) eqn:E2.
  { apply Nat.eqb_eq in E2. subst counter.
    destruct (Block.t_sum_close 8 _ _).
    { intros H. injection H as <-. apply block_of_well_formed. }
    destruct robust.
    2:{ unfold Block.assemble. cbn [Nat.eqb]. intros H. discriminate. }
    intros H. injection H as <-. split; [reflexivity|].
    cbn [Block.a Block.b Block.set_a Block.Block_of Block.t_min].
    intros iv [H | H]; [|discriminate]. injection H as <-.
    destruct (Qltb (get (Profile.t_sum (Block.vp vps 0)) 6)
                (get (Profile.t_sum (Block.vp vps 1)) 6)) eqn:E;
      cbn [Nat.add Nat.modulo Nat.divmod fst snd Nat.sub];
      apply add_interval_bounds; try apply Qle_refl;
      apply total_duration_le; try (apply Hbrake; lia).
    - apply Qltb_lt in E. apply Qlt_le_weak. exact E.
    - apply Qltb_ge in E. exact E. }
  destruct (Nat.eqb counter 4) eqn:E4.
  { apply Nat.eqb_eq in E4.
    destruct (_ && _).
    { intros H. apply (Hremoved 1%nat ltac:(lia) E4).
      destruct (Block.remove_profile vps counter 1). exact H. }
    destruct (_ && _).
    { intros H. apply (Hremoved 3%nat ltac:(lia) E4).
      destruct (Block.remove_profile vps counter 3). exact H. }
    destruct (_ && _).
    { intros H. apply (Hremoved 3%nat ltac:(lia) E4).
      destruct (Block.remove_profile vps counter 3). exact H. }
    intros H. discriminate. }
  destruct (Nat.eqb (counter mod 2) 0); [intros H; discriminate|].
  apply assemble_well_formed; assumption.
Qed.

(** The block of the five example profiles is well formed. *)
Lemma calculate_block_well_formed_witness :
  Block.is_blocked Examples.nested_block
    (Fin (Block.t_min Examples.nested_block)) = false.
Proof.
  refine (proj2 (calculate_block_well_formed true (Block.Block_of Profile.zero)
                   Examples.nested_block Examples.five_profiles 5 _ _ _)).
  - simpl. lia.
  - intros i j Hi Hj.
    destruct i as [|[|[|[|[|i]]]]]; [| | | | |lia];
      destruct j as [|[|[|[|[|j]]]]]; try lia; reflexivity.
  - reflexivity.
Defined.

(** ** synchronize: a duration is always found *)

Lemma nth_map_seq {A : Type} (f : nat -> A) (n k : nat) (d : A) :
  (k < n)%nat -> nth k (map f (seq 0 n)) d = f k.
Proof.
  intros H. rewrite (nth_indep _ d (f 0%nat))
    by (rewrite length_map, length_seq; exact H).
  rewrite (map_nth f), seq_nth by exact H. reflexivity.
Qed.

(** Entry [n + dof] of the candidates is the DoF's [a->right]. *)
Lemma collect_at_a (n : nat) (blocks : list Block) (t_min : option Q)
    (dof : nat) :
  (dof < n)%nat ->
  Trajectory.t_sync_at (Trajectory.collect_t_syncs n blocks t_min) (n + dof)
  = match Block.a (Trajectory.block_at blocks dof) with
    | Some i => Fin (Block.right i)
    | None => Inf
    end.
Proof.
  intros H. unfold Trajectory.t_sync_at, Trajectory.collect_t_syncs.
  rewrite app_nth2 by (rewrite length_map, length_seq; lia).
  rewrite length_map, length_seq.
  replace (n + dof - n)%nat with dof by lia.
  rewrite app_nth1 by (rewrite length_map, length_seq; exact H).
  apply (nth_map_seq (fun dof => match Block.a (Trajectory.block_at blocks dof) with
                                 | Some i => Fin (Block.right i)
                                 | None => Inf
                                 end)). exact H.
Qed.

(** Entry [2 n + dof] of the candidates is the DoF's [b->right]. *)
Lemma collect_at_b (n : nat) (blocks : list Block) (t_min : option Q)
    (dof : nat) :
  (dof < n)%nat ->
  Trajectory.t_sync_at (Trajectory.collect_t_syncs n blocks t_min)
    (2 * n + dof)
  = match Block.b (Trajectory.block_at blocks dof) with
    | Some i => Fin (Block.right i)
    | None => Inf
    end.
Proof.
  intros H. unfold Trajectory.t_sync_at, Trajectory.collect_t_syncs.
  rewrite app_nth2 by (rewrite length_map, length_seq; lia).
  rewrite length_map, length_seq.
  rewrite app_nth2 by (rewrite length_map, length_seq; lia).
  rewrite length_map, length_seq.
  replace (2 * n + dof - n - n)%nat with dof by lia.
  rewrite app_nth1 by (rewrite length_map, length_seq; exact H).
  apply (nth_map_seq (fun dof => match Block.b (Trajectory.block_at blocks dof) with
                                 | Some i => Fin (Block.right i)
                                 | None => Inf
                                 end)). exact H.
Qed.

(** The last entry of the candidates is the floor. *)
Lemma collect_at_floor (n : nat) (blocks : list Block) (t_min : option Q) :
  Trajectory.t_sync_at (Trajectory.collect_t_syncs n blocks t_min) (3 * n)
  = match t_min with Some f => Fin f | None => Inf end.
Proof.
  unfold Trajectory.t_sync_at, Trajectory.collect_t_syncs.
  rewrite app_nth2 by (rewrite length_map, length_seq; lia).
  rewrite length_map, length_seq.
  rewrite app_nth2 by (rewrite length_map, length_seq; lia).
  rewrite length_map, length_seq.
  rewrite app_nth2 by (rewrite length_map, length_seq; lia).
  rewrite length_map, length_seq.
  replace (3 * n - n - n - n)%nat with 0%nat by lia. reflexivity.
Qed.

(** Without any interval and without a floor, only the [t_min] entries are
    sorted and scanned. *)
Lemma any_interval_false (n : nat) (blocks : list Block) (t_min : option Q) :
  Trajectory.any_interval_of n blocks t_min = false ->
  t_min = None
  /\ forall dof, (dof < n)%nat ->
       Block.a (Trajectory.block_at blocks dof) = None
       /\ Block.b (Trajectory.block_at blocks dof) = None.
Proof.
  unfold Trajectory.any_interval_of. intros H.
  apply orb_false_iff in H. destruct H as [Hex Hf].
  split; [destruct t_min; [discriminate | reflexivity]|].
  intros dof Hdof.
  destruct (Block.a (Trajectory.block_at blocks dof)) as [iv|] eqn:Ea.
  - exfalso. rewrite <- not_true_iff_false in Hex. apply Hex.
    apply existsb_exists. exists dof. split; [apply in_seq; lia|].
    rewrite Ea. reflexivity.
  - destruct (Block.b (Trajectory.block_at blocks dof)) as [iv|] eqn:Eb;
      [|auto].
    exfalso. rewrite <- not_true_iff_false in Hex. apply Hex.
    apply existsb_exists. exists dof. split; [apply in_seq; lia|].
    rewrite Ea, Eb. reflexivity.
Qed.

(** Among indices of which one has a finite candidate, one has the largest
    finite candidate. *)
Lemma finite_maximum (c : list double) (l : list nat) :
  (exists k q, In k l /\ Trajectory.t_sync_at c k = Fin q) ->
  exists k q,
    In k l /\ Trajectory.t_sync_at c k = Fin q
    /\ forall j, In j l ->
         Trajectory.t_sync_at c j = Inf
         \/ dle (Trajectory.t_sync_at c j) (Fin q).
Proof.
  induction l as [|x rest IH]; intros [k [q [Hin Hk]]]; [destruct Hin|].
  assert (Hrest : (exists k q, In k rest /\ Trajectory.t_sync_at c k = Fin q)
                  \/ forall j, In j rest -> Trajectory.t_sync_at c j = Inf).
  { clear. induction rest as [|y rest IH]; [right; intros j []|].
    destruct (Trajectory.t_sync_at c y) as [q|] eqn:Ey.
    - left. exists y, q. split; [left; reflexivity | exact Ey].
    - destruct IH as [[k [q [Hin Hk]]] | Hall].
      + left. exists k, q. split; [right; exact Hin | exact Hk].
      + right. intros j [<- | Hj]; [exact Ey | apply Hall; exact Hj]. }
  destruct Hrest as [Hex | Hall].
  - destruct (IH Hex) as [m [qm [Hm [Em Hmax]]]].
    destruct (Trajectory.t_sync_at c x) as [qx|] eqn:Ex.
    + destruct (Qlt_le_dec qm qx) as [Hlt | Hle].
      * exists x, qx. split; [left; reflexivity|]. split; [exact Ex|].
        intros j [<- | Hj]; [right; rewrite Ex; apply Qle_refl|].
        destruct (Hmax j Hj) as [Hinf | Hle]; [left; exact Hinf | right].
        eapply dle_trans; [exact Hle|]. simpl. apply Qlt_le_weak. exact Hlt.
      * exists m, qm. split; [right; exact Hm|]. split; [exact Em|].
        intros j [<- | Hj]; [right; rewrite Ex; exact Hle | apply Hmax; exact Hj].
    + exists m, qm. split; [right; exact Hm|]. split; [exact Em|].
      intros j [<- | Hj]; [left; exact Ex | apply Hmax; exact Hj].
  - destruct Hin as [<- | Hin].
    + exists x, q. split; [left; reflexivity|]. split; [exact Hk|].
      intros j [<- | Hj]; [right; rewrite Hk; apply Qle_refl|].
      left. apply Hall. exact Hj.
    + rewrite (Hall k Hin) in Hk. discriminate.
Qed.

(** Among the sorted indices, one of the first [n] indices is not among
    the first [n - 1] positions. *)
Lemma some_dof_scanned (n idx_end : nat) (idx : list nat) :
  (1 <= n <= idx_end)%nat -> Permutation idx (seq 0 idx_end) ->
  exists d, (d < n)%nat /\ In d (skipn (n - 1) idx).
Proof.
  intros Hn Hperm.
  destruct (Forall_Exists_dec (fun d => In d (firstn (n - 1) idx))
              (fun d => in_dec Nat.eq_dec d (firstn (n - 1) idx)) (seq 0 n))
    as [Hall | Hex].
  - exfalso.
    assert (Hincl : incl (seq 0 n) (firstn (n - 1) idx)).
    { intros d Hd. rewrite Forall_forall in Hall. apply Hall. exact Hd. }
    pose proof (NoDup_incl_length (seq_NoDup n 0) Hincl) as Hlen.
    rewrite length_seq in Hlen.
    pose proof (firstn_le_length (n - 1) idx).
    rewrite length_firstn in Hlen. lia.
  - apply Exists_exists in Hex. destruct Hex as [d [Hd Hnot]].
    apply in_seq in Hd. exists d. split; [lia|].
    assert (Hin : In d idx).
    { apply (Permutation_in d (Permutation_sym Hperm)). apply in_seq. lia. }
    rewrite <- (firstn_skipn (n - 1) idx) in Hin.
    apply in_app_or in Hin. destruct Hin; [contradiction | assumption].
Qed.

(** The scan stops as soon as the range holds a candidate that is not
    rejected. *)
Lemma scan_finds (blocks : list Block) (t_min : option Q) (c : list double) :
  forall range e,
    In e range ->
    Trajectory.rejected blocks t_min (Trajectory.t_sync_at c e) = false ->
    exists i, Trajectory.scan blocks t_min c range = Some i.
Proof.
  induction range as [|k rest IH]; intros e Hin He; [destruct Hin|].
  simpl.
  destruct (Trajectory.rejected blocks t_min (Trajectory.t_sync_at c k)) eqn:Ek;
    [|eauto].
  destruct Hin as [-> | Hin]; [congruence|].
  apply (IH e Hin He).
Qed.

(** The scan of the sorted candidates ends at a finite candidate when the
    [t_min] candidates are finite and the largest finite candidate is not
    rejected. *)
Lemma scan_finds_finite (n idx_end : nat) (blocks : list Block)
    (t_min : option Q) (c : list double) :
  (1 <= n <= idx_end)%nat ->
  (forall d, (d < n)%nat -> exists q, Trajectory.t_sync_at c d = Fin q) ->
  (forall k q,
      (k < idx_end)%nat -> Trajectory.t_sync_at c k = Fin q ->
      (forall j, (j < idx_end)%nat ->
         Trajectory.t_sync_at c j = Inf
         \/ dle (Trajectory.t_sync_at c j) (Fin q)) ->
      Trajectory.rejected blocks t_min (Fin q) = false) ->
  exists i q,
    Trajectory.scan blocks t_min c
      (skipn (n - 1) (Trajectory.sort_idx c (seq 0 idx_end))) = Some i
    /\ (i < idx_end)%nat
    /\ Trajectory.t_sync_at c i = Fin q.
Proof.
  intros Hn Hfin Hmax.
  set (L := Trajectory.sort_idx c (seq 0 idx_end)).
  pose proof (sort_idx_perm c (seq 0 idx_end)) as Hperm. fold L in Hperm.
  pose proof (sort_idx_sorted c (seq 0 idx_end)) as Hsorted. fold L in Hsorted.
  assert (HinL : forall k, In k L <-> (k < idx_end)%nat).
  { intros k. split; intros H.
    - apply (Permutation_in k Hperm) in H. apply in_seq in H. lia.
    - apply (Permutation_in k (Permutation_sym Hperm)). apply in_seq. lia. }
  destruct (finite_maximum c (seq 0 idx_end)) as [m [qm [Hm [Em Hall]]]].
  { destruct (Hfin 0%nat ltac:(lia)) as [q0 H0].
    exists 0%nat, q0. split; [apply in_seq; lia | exact H0]. }
  apply in_seq in Hm.
  assert (Hall' : forall j, (j < idx_end)%nat ->
            Trajectory.t_sync_at c j = Inf
            \/ dle (Trajectory.t_sync_at c j) (Fin qm)).
  { intros j Hj. apply Hall. apply in_seq. lia. }
  assert (Hrej : Trajectory.rejected blocks t_min (Trajectory.t_sync_at c m)
                 = false).
  { rewrite Em. apply (Hmax m qm ltac:(lia) Em Hall'). }
  rewrite <- (firstn_skipn (n - 1) L) in Hsorted.
  destruct (strongly_sorted_app _ _ _ Hsorted) as [HsR Hcross].
  (* an index in the scanned range with a finite candidate that is not
     rejected *)
  assert (He : exists e qe,
             In e (skipn (n - 1) L)
             /\ Trajectory.t_sync_at c e = Fin qe
             /\ Trajectory.rejected blocks t_min (Trajectory.t_sync_at c e)
                = false).
  { assert (HmL : In m L) by (apply HinL; lia).
    rewrite <- (firstn_skipn (n - 1) L) in HmL.
    apply in_app_or in HmL. destruct HmL as [HmF | HmR].
    - destruct (some_dof_scanned n idx_end L Hn Hperm) as [d [Hd HdR]].
      destruct (Hfin d Hd) as [qd Ed].
      exists d, qd. split; [exact HdR|]. split; [exact Ed|].
      assert (Hmd : candidate_le c m d) by (apply Hcross; assumption).
      assert (Hdm : candidate_le c d m).
      { unfold candidate_le. rewrite Em.
        destruct (Hall' d ltac:(lia)) as [Hinf | Hle]; [congruence | exact Hle]. }
      rewrite (rejected_ext blocks t_min _ _ Hdm Hmd). exact Hrej.
    - exists m, qm. auto. }
  destruct He as [e [qe [HeR [Ee Hrej_e]]]].
  destruct (scan_finds blocks t_min c _ e HeR Hrej_e) as [i Hscan].
  destruct (scan_some _ _ _ _ _ Hscan) as [before [after [HR [Hi Hbefore]]]].
  assert (HiL : (i < idx_end)%nat).
  { apply HinL. rewrite <- (firstn_skipn (n - 1) L), HR.
    apply in_or_app. right. apply in_or_app. right. left. reflexivity. }
  assert (Hie : candidate_le c i e).
  { rewrite HR in HsR, HeR.
    destruct (strongly_sorted_app _ _ _ HsR) as [HsI _].
    inversion HsI as [|? ? _ Hafter]; subst.
    rewrite Forall_forall in Hafter.
    apply in_app_or in HeR. destruct HeR as [HeB | [<- | HeA]].
    - rewrite (Hbefore e HeB) in Hrej_e. discriminate.
    - apply dle_refl.
    - apply Hafter. exact HeA. }
  unfold candidate_le in Hie. rewrite Ee in Hie.
  destruct (Trajectory.t_sync_at c i) as [qi|] eqn:Ei; [|destruct Hie].
  exists i, qi. auto.
Qed.

(** For blocks with a non-negative [t_min], the largest finite candidate
    is not rejected: it is not below any [t_min], not below the right end
    of any interval and not below the floor. *)
Lemma largest_candidate_not_rejected (round : double -> double) (n : nat)
    (blocks : list Block) (t_min : option Q) (discrete_duration : bool)
    (q : Q) :
  let c := Trajectory.possible_t_syncs_with round n blocks t_min
             discrete_duration in
  let idx_end := if Trajectory.any_interval_of n blocks t_min
                 then (3 * n + 1)%nat else n in
  (1 <= n)%nat -> length blocks = n ->
  (discrete_duration = true ->
   rounds_up round (Trajectory.collect_t_syncs n blocks t_min)) ->
  (forall blk, In blk blocks -> 0 <= Block.t_min blk) ->
  (forall j, (j < idx_end)%nat ->
     Trajectory.t_sync_at c j = Inf
     \/ dle (Trajectory.t_sync_at c j) (Fin q)) ->
  Trajectory.rejected blocks t_min (Fin q) = false.
Proof.
  intros c idx_end Hn Hlen Hup Hpos Hmax.
  assert (Hn_end : (n <= idx_end <= 3 * n + 1)%nat).
  { unfold idx_end. destruct (Trajectory.any_interval_of _ _ _); lia. }
  assert (Hle : forall j x,
            (j < idx_end)%nat ->
            Trajectory.t_sync_at (Trajectory.collect_t_syncs n blocks t_min) j
            = Fin x -> x <= q).
  { intros j x Hj Hx.
    assert (Hj' : (j < 3 * n + 1)%nat) by lia.
    destruct (rounded_by_ge round n blocks t_min discrete_duration x Hup)
      as [x' [Hx' Hge]].
    { rewrite <- Hx. apply collect_at_in. exact Hj'. }
    pose proof (possible_with_at round n blocks t_min discrete_duration j Hj')
      as Hc.
    rewrite Hx, Hx' in Hc. fold c in Hc.
    destruct (Hmax j Hj) as [Hinf | Hjq]; rewrite Hc in *; [discriminate|].
    simpl in Hjq. eapply Qle_trans; eassumption. }
  assert (Hend : Trajectory.any_interval_of n blocks t_min = true ->
                 idx_end = (3 * n + 1)%nat).
  { intros H. unfold idx_end. rewrite H. reflexivity. }
  assert (Hany : forall d iv,
            (d < n)%nat ->
            Block.a (Trajectory.block_at blocks d) = Some iv
            \/ Block.b (Trajectory.block_at blocks d) = Some iv ->
            Trajectory.any_interval_of n blocks t_min = true).
  { intros d iv Hd Hiv.
    destruct (Trajectory.any_interval_of n blocks t_min) eqn:E; [reflexivity|].
    destruct (any_interval_false _ _ _ E) as [_ Hnone].
    destruct (Hnone d Hd) as [Ha Hb]. destruct Hiv; congruence. }
  assert (Hmin : forall d, (d < n)%nat ->
            Block.t_min (Trajectory.block_at blocks d) <= q).
  { intros d Hd. apply (Hle d _ ltac:(lia)). apply collect_at_dof. exact Hd. }
  apply rejected_false. split.
  - intros blk Hin.
    destruct (in_block_at blocks blk Hin) as [d [Hd <-]].
    destruct (Block.is_blocked (Trajectory.block_at blocks d) (Fin q)) eqn:E;
      [|reflexivity].
    exfalso. apply is_blocked_iff in E.
    destruct E as [E | [[iv [Hiv [_ E]]] | [iv [Hiv [_ E]]]]].
    + apply dlt_Fin in E. apply (Qlt_not_le _ _ E). apply Hmin. lia.
    + apply dlt_Fin in E. apply (Qlt_not_le _ _ E).
      apply (Hle (n + d)%nat).
      * rewrite (Hend (Hany d iv ltac:(lia) (or_introl Hiv))). lia.
      * rewrite collect_at_a by lia. rewrite Hiv. reflexivity.
    + apply dlt_Fin in E. apply (Qlt_not_le _ _ E).
      apply (Hle (2 * n + d)%nat).
      * rewrite (Hend (Hany d iv ltac:(lia) (or_intror Hiv))). lia.
      * rewrite collect_at_b by lia. rewrite Hiv. reflexivity.
  - destruct t_min as [f|]; simpl.
    + apply (Hle (3 * n)%nat).
      * rewrite Hend; [lia|]. unfold Trajectory.any_interval_of.
        apply orb_true_r.
      * apply collect_at_floor.
    + eapply Qle_trans; [|apply (Hmin 0%nat ltac:(lia))].
      apply Hpos. apply block_at_in. lia.
Qed.

(** The scan of [synchronize] ends at a finite candidate. *)
Lemma synchronize_with_scan (round : double -> double) (n : nat)
    (blocks : list Block) (t_min : option Q) (discrete_duration : bool) :
  let c := Trajectory.possible_t_syncs_with round n blocks t_min
             discrete_duration in
  let idx_end := if Trajectory.any_interval_of n blocks t_min
                 then (3 * n + 1)%nat else n in
  (1 <= n)%nat -> length blocks = n ->
  (discrete_duration = true ->
   rounds_up round (Trajectory.collect_t_syncs n blocks t_min)) ->
  (forall blk, In blk blocks -> 0 <= Block.t_min blk) ->
  exists i q,
    Trajectory.scan blocks t_min c
      (skipn (n - 1) (Trajectory.sort_idx c (seq 0 idx_end))) = Some i
    /\ (i < idx_end)%nat
    /\ Trajectory.t_sync_at c i = Fin q.
Proof.
  intros c idx_end Hn Hlen Hup Hpos.
  apply scan_finds_finite.
  - unfold idx_end. destruct (Trajectory.any_interval_of _ _ _); lia.
  - intros d Hd.
    destruct (t_min_candidate round n blocks t_min discrete_duration d Hup Hd)
      as [q [Hq _]].
    exists q. exact Hq.
  - intros k q _ _ Hmax.
    apply (largest_candidate_not_rejected round n blocks t_min
             discrete_duration q Hn Hlen Hup Hpos Hmax).
Qed.


(** X8: [synchronize] does not fail on blocks with a non-negative [t_min],
    provided that, when the duration is discrete, the rounding of a finite
    candidate to the quantum is finite and not below the candidate: it
    returns [true] and the duration it commits is finite. *)
Theorem synchronize_succeeds (round : double -> double) (n : nat)
    (blocks : list Block) (t_min : option Q) (profiles : list Profile)
    (discrete_duration : bool) :
  (1 <= n)%nat -> length blocks = n ->
  (discrete_duration = true ->
   rounds_up round (Trajectory.collect_t_syncs n blocks t_min)) ->
  (forall blk, In blk blocks -> 0 <= Block.t_min blk) ->
  exists t_sync limiting_dof profiles',
    Trajectory.synchronize_with round n blocks t_min profiles
      discrete_duration
    = Some (Fin t_sync, limiting_dof, profiles').
Proof.
  intros Hn Hlen Hup Hpos. unfold Trajectory.synchronize_with.
  destruct (_ && _); [eauto|].
  destruct (synchronize_with_scan round n blocks t_min discrete_duration
              Hn Hlen Hup Hpos) as [i [q [Hscan [_ Hq]]]].
  rewrite Hscan, Hq.
  destruct (Trajectory.take_profile n blocks profiles i) as [lim ps].
  eauto.
Qed.

(** The two example blocks with the quantum 2/5, rounded without error,
    synchronize at 26/5. *)
Lemma synchronize_succeeds_witness :
  exists t_sync limiting_dof profiles',
    Trajectory.synchronize_with (round_up (2 # 5)) 2 Examples.two_blocks None
      [Profile.zero; Profile.zero] true
    = Some (Fin t_sync, limiting_dof, profiles').
Proof.
  apply (synchronize_succeeds (round_up (2 # 5)) 2 Examples.two_blocks None
           [Profile.zero; Profile.zero] true).
  - lia.
  - reflexivity.
  - intros _. apply round_up_rounds_up. reflexivity.
  - intros blk [<- | [<- | []]]; vm_compute; congruence.
Defined.

Lemma rounded_by_Inf (round : double -> double) (discrete_duration : bool) :
  (discrete_duration = true -> round Inf = Inf) ->
  rounded_by round discrete_duration Inf = Inf.
Proof. unfold rounded_by. destruct discrete_duration; auto. Qed.

(** X9: What [synchronize] hands back belongs together.  On blocks with a
    non-negative [t_min], and, when the duration is discrete, with a
    rounding to the quantum that keeps infinity and takes a finite
    candidate to a finite value not below it: either the duration is the
    floor (rounded when the duration is discrete), then [limiting_dof] is
    [-1] and no profile is touched; or [limiting_dof] is a DoF [d] of the
    trajectory, the duration is (the rounding of) one of the three end
    times [t_min], [a->right], [b->right] of its block, the interval in
    question is present, and [profiles[d]] has become the profile stored
    with that end time, the other profiles being untouched. *)
Theorem synchronize_limiting_dof (round : double -> double) (n : nat)
    (blocks : list Block) (t_min : option Q) (profiles : list Profile)
    (discrete_duration : bool) (t_sync : double) (limiting_dof : Z)
    (profiles' : list Profile) :
  (1 <= n)%nat -> length blocks = n ->
  (discrete_duration = true ->
   round Inf = Inf
   /\ rounds_up round (Trajectory.collect_t_syncs n blocks t_min)) ->
  (forall blk, In blk blocks -> 0 <= Block.t_min blk) ->
  Trajectory.synchronize_with round n blocks t_min profiles discrete_duration
  = Some (t_sync, limiting_dof, profiles') ->
  (limiting_dof = (-1)%Z /\ profiles' = profiles
   /\ exists f, t_min = Some f
                /\ t_sync = rounded_by round discrete_duration (Fin f))
  \/ exists d,
       (d < n)%nat /\ limiting_dof = Z.of_nat d
       /\ ((t_sync = rounded_by round discrete_duration
                       (Fin (Block.t_min (Trajectory.block_at blocks d)))
            /\ profiles'
               = set profiles d (Block.p_min (Trajectory.block_at blocks d)))
           \/ (exists iv,
                 Block.a (Trajectory.block_at blocks d) = Some iv
                 /\ t_sync = rounded_by round discrete_duration
                               (Fin (Block.right iv))
                 /\ profiles' = set profiles d (Block.profile iv))
           \/ (exists iv,
                 Block.b (Trajectory.block_at blocks d) = Some iv
                 /\ t_sync = rounded_by round discrete_duration
                               (Fin (Block.right iv))
                 /\ profiles' = set profiles d (Block.profile iv))).
Proof.
  intros Hn Hlen Hround Hpos.
  assert (Hup : discrete_duration = true ->
                rounds_up round (Trajectory.collect_t_syncs n blocks t_min)).
  { intros H. apply (Hround H). }
  assert (Hinf : rounded_by round discrete_duration Inf = Inf).
  { apply rounded_by_Inf. intros H. apply (Hround H). }
  unfold Trajectory.synchronize_with.
  destruct (_ && _) eqn:Efast.
  - apply andb_true_iff in Efast. destruct Efast as [_ Hd].
    apply negb_true_iff in Hd. subst discrete_duration.
    intros H. injection H as <- <- <-.
    right. exists 0%nat. split; [lia|]. split; [reflexivity|].
    left. split; reflexivity.
  - destruct (synchronize_with_scan round n blocks t_min discrete_duration
                Hn Hlen Hup Hpos) as [i [q [Hscan [Hi Hq]]]].
    rewrite Hscan. unfold Trajectory.take_profile.
    assert (Hi' : (i < 3 * n + 1)%nat).
    { destruct (Trajectory.any_interval_of _ _ _); lia. }
    rewrite (possible_with_at round n blocks t_min discrete_duration i Hi')
      in *.
    destruct (Nat.eqb i (3 * n)) eqn:Ei.
    + apply Nat.eqb_eq in Ei. subst i.
      intros H. injection H as <- <- <-. left.
      split; [reflexivity|]. split; [reflexivity|].
      rewrite collect_at_floor in *.
      destruct t_min as [f|]; [eauto|].
      rewrite Hinf in Hq. discriminate.
    + apply Nat.eqb_neq in Ei.
      pose proof (Nat.div_mod_eq i n) as Hdm.
      assert (Hmod : (i mod n < n)%nat) by (apply Nat.mod_upper_bound; lia).
      assert (Hquot : (i / n < 3)%nat).
      { apply Nat.Div0.div_lt_upper_bound. lia. }
      set (d := (i mod n)%nat) in *.
      intros H. injection H as <- <- <-. right. exists d.
      split; [exact Hmod|]. split; [reflexivity|].
      destruct (i / n)%nat as [|[|[|k]]]; [| | |lia].
      * left. replace i with d by lia.
        rewrite collect_at_dof by exact Hmod. split; reflexivity.
      * right. left.
        replace i with (n + d)%nat in * by lia.
        rewrite collect_at_a in * by exact Hmod.
        destruct (Block.a (Trajectory.block_at blocks d)) as [iv|].
        -- exists iv. auto.
        -- rewrite Hinf in Hq. discriminate.
      * right. right.
        replace i with (2 * n + d)%nat in * by lia.
        rewrite collect_at_b in * by exact Hmod.
        destruct (Block.b (Trajectory.block_at blocks d)) as [iv|].
        -- exists iv. auto.
        -- rewrite Hinf in Hq. discriminate.
Qed.

(** For the two example blocks with the quantum 2/5, rounded without
    error, the limiting DoF is the second one, with the profile of its
    interval [a]. *)
Lemma synchronize_limiting_dof_witness :
  (1%Z = (-1)%Z /\ [Profile.zero; Examples.profile_of 5 0 DOWN]
                   = [Profile.zero; Profile.zero]
   /\ exists f, @None Q = Some f
                /\ Fin (26 # 5) = rounded_by (round_up (2 # 5)) true (Fin f))
  \/ exists d,
       (d < 2)%nat /\ 1%Z = Z.of_nat d
       /\ ((Fin (26 # 5)
            = rounded_by (round_up (2 # 5)) true
                (Fin (Block.t_min (Trajectory.block_at Examples.two_blocks d)))
            /\ [Profile.zero; Examples.profile_of 5 0 DOWN]
               = set [Profile.zero; Profile.zero] d
                   (Block.p_min (Trajectory.block_at Examples.two_blocks d)))
           \/ (exists iv,
                 Block.a (Trajectory.block_at Examples.two_blocks d) = Some iv
                 /\ Fin (26 # 5)
                    = rounded_by (round_up (2 # 5)) true (Fin (Block.right iv))
                 /\ [Profile.zero; Examples.profile_of 5 0 DOWN]
                    = set [Profile.zero; Profile.zero] d (Block.profile iv))
           \/ (exists iv,
                 Block.b (Trajectory.block_at Examples.two_blocks d) = Some iv
                 /\ Fin (26 # 5)
                    = rounded_by (round_up (2 # 5)) true (Fin (Block.right iv))
                 /\ [Profile.zero; Examples.profile_of 5 0 DOWN]
                    = set [Profile.zero; Profile.zero] d (Block.profile iv))).
Proof.
  apply (synchronize_limiting_dof (round_up (2 # 5)) 2 Examples.two_blocks
           None [Profile.zero; Profile.zero] true).
  - lia.
  - reflexivity.
  - intros _. split; [reflexivity|]. apply round_up_rounds_up. reflexivity.
  - intros blk [<- | [<- | []]]; vm_compute; congruence.
  - vm_compute. reflexivity.
Defined.

(** X26: With a discrete duration, [synchronize] returns [false] for a
    single DoF without forbidden intervals and without a floor whenever the
    rounding of its [t_min] to the quantum, as computed, falls below
    [t_min]: the one candidate that is scanned is blocked. *)
Theorem synchronize_fails_below_t_min (round : double -> double)
    (blk : Block) (profiles : list Profile) (q : Q) :
  Block.a blk = None -> Block.b blk = None ->
  round (Fin (Block.t_min blk)) = Fin q -> q < Block.t_min blk ->
  Trajectory.synchronize_with round 1 [blk] None profiles true = None.
Proof.
  intros Ha Hb Hround Hq.
  unfold Trajectory.synchronize_with, Trajectory.possible_t_syncs_with,
    Trajectory.collect_t_syncs, Trajectory.any_interval_of.
  cbn [Nat.eqb andb negb seq map existsb Trajectory.block_at nth app orb].
  rewrite Ha, Hb, Hround.
  cbn [map app orb Nat.sub skipn seq Trajectory.sort_idx fold_right
       Trajectory.insert_idx Trajectory.scan Trajectory.t_sync_at nth].
  unfold Trajectory.rejected. cbn [existsb].
  unfold Block.is_blocked. cbn [dlt].
  apply Qltb_lt in Hq. rewrite Hq. reflexivity.
Qed.

(** One DoF whose fastest profile takes the double 0.9, with the quantum
    0.3: the product [3 * 0.3] is below 0.9 in double arithmetic, and
    [synchronize] finds no duration. *)
Lemma synchronize_fails_below_t_min_witness :
  Trajectory.synchronize_with Examples.round_to_three_tenths 1
    [Block.Block_of (Examples.profile_of Examples.nine_tenths 0 UP)] None
    [Profile.zero] true
  = None.
Proof.
  apply (synchronize_fails_below_t_min Examples.round_to_three_tenths
           (Block.Block_of (Examples.profile_of Examples.nine_tenths 0 UP))
           [Profile.zero] (2026619832316723 # 2251799813685248)).
  - reflexivity.
  - reflexivity.
  - reflexivity.
  - reflexivity.
Defined.

(** ** calculate: outcomes and collaborator calls *)

Section CalculateTrace.
Context {planner : Planner}.
Variable inp : InputParameter.

Lemma prepare_dof_possible (throw_error ret : bool) (s : Trajectory) (d : nat)
    (s' : Trajectory) (calls : list Call) (out : Outcome) :
  Trajectory.prepare_dof throw_error inp s d = (s', calls, Some out) ->
  possible_outcome throw_error ret out.
Proof.
  unfold Trajectory.prepare_dof.
  destruct (negb (Trajectory.enabled_at inp d)); [discriminate|].
  split_pairs. destruct (negb _); [|discriminate].
  intros H. injection H as _ _ <-.
  destruct throw_error; reflexivity.
Qed.

Lemma time_sync_dof_possible (throw_error ret : bool) (limiting_dof : Z)
    (s : Trajectory) (d : nat) (s' : Trajectory) (calls : list Call)
    (out : Outcome) :
  Trajectory.time_sync_dof throw_error inp limiting_dof s d
  = (s', calls, Some out) ->
  possible_outcome throw_error ret out
  /\ out = (if throw_error then Throws (error_in_step_2 d)
            else Returns ErrorSynchronizationCalculation).
Proof.
  unfold Trajectory.time_sync_dof.
  destruct (_ || _); [discriminate|].
  destruct (Trajectory.time_not_necessary inp s d); [discriminate|].
  destruct (Trajectory.extremal_profile _ _); [discriminate|].
  split_pairs. destruct (negb _); [|discriminate].
  intros H. injection H as _ _ <-.
  destruct throw_error; split; reflexivity.
Qed.

Lemma phase_then_time_possible (throw_error ret : bool) (limiting_dof : Z)
    (s s' : Trajectory) (calls : list Call) (out : Outcome) :
  Trajectory.phase_then_time throw_error inp limiting_dof s
  = (s', calls, Some out) ->
  possible_outcome throw_error ret out
  /\ (forall d, out <> step1_failure throw_error d).
Proof.
  unfold Trajectory.phase_then_time.
  destruct (Trajectory.phase_synchronization inp limiting_dof s)
    as [[s1 c1] done].
  destruct done.
  - intros H. injection H as _ _ <-. split; [exact I|].
    intros d. unfold step1_failure. destruct throw_error; discriminate.
  - destruct (Trajectory.for_each _ _ s1) as [[s2 c2] [o|]] eqn:E.
    + intros H. injection H as _ _ <-.
      apply (for_each_outcome _
               (fun out => possible_outcome throw_error ret out
                           /\ forall d, out <> step1_failure throw_error d))
        in E; [exact E|].
      intros s0 d s0' cs o' Hb.
      destruct (time_sync_dof_possible throw_error ret _ _ _ _ _ _ Hb)
        as [Hp ->].
      split; [exact Hp|]. intros d'. unfold step1_failure.
      destruct throw_error; discriminate.
    + intros H. injection H as _ _ <-. split; [exact I|].
      intros d. unfold step1_failure. destruct throw_error; discriminate.
Qed.

(** The set-up loop over the DoFs [first, first + n): it either passes all
    of them, having called the brake and Step 1 for the enabled ones, or it
    stops at the first enabled DoF for which Step 1 finds no profile; the
    duration is not touched. *)
Lemma prepare_loop_calls (throw_error : bool) :
  forall n first s,
    let '(s', calls, o) :=
      Trajectory.for_each (Trajectory.prepare_dof throw_error inp)
        (seq first n) s in
    Trajectory.duration s' = Trajectory.duration s
    /\ match o with
       | None => calls = setup_calls inp (seq first n)
       | Some out =>
           exists k, (k < n)%nat
             /\ Trajectory.enabled_at inp (first + k) = true
             /\ out = step1_failure throw_error (first + k)
             /\ calls = setup_calls inp (seq first (S k))
       end.
Proof.
  induction n as [|n IH]; intros first s; [simpl; auto|].
  cbn [seq Trajectory.for_each].
  assert (Hd : let '(s1, c1, o1) :=
                 Trajectory.prepare_dof throw_error inp s first in
               Trajectory.duration s1 = Trajectory.duration s
               /\ c1 = setup_calls inp [first]
               /\ match o1 with
                  | None => True
                  | Some out => Trajectory.enabled_at inp first = true
                                /\ out = step1_failure throw_error first
                  end).
  { unfold Trajectory.prepare_dof, setup_calls. cbn [flat_map].
    destruct (Trajectory.enabled_at inp first); cbn [negb].
    - split_pairs. destruct (negb _); cbn; auto.
    - cbn. auto. }
  destruct (Trajectory.prepare_dof throw_error inp s first)
    as [[s1 c1] [o1|]].
  - destruct Hd as [D [C [E O]]]. split; [exact D|].
    exists 0%nat. rewrite Nat.add_0_r. split; [lia|]. auto.
  - destruct Hd as [D [C _]].
    specialize (IH (S first) s1).
    destruct (Trajectory.for_each _ (seq (S first) n) s1) as [[s2 c2] o2].
    destruct IH as [D2 O2]. split; [congruence|].
    assert (Happ : forall l, c1 ++ setup_calls inp l
                             = setup_calls inp (first :: l)).
    { intros l. rewrite C. unfold setup_calls. cbn [flat_map].
      rewrite app_nil_r. reflexivity. }
    destruct o2 as [out|].
    + destruct O2 as [k [Hk [E [O C2]]]].
      exists (S k). replace (first + S k)%nat with (S first + k)%nat by lia.
      split; [lia|]. split; [exact E|]. split; [exact O|].
      rewrite C2. apply (Happ (seq (S first) (S k))).
    + rewrite O2. apply Happ.
Qed.

(** The calls of the phase synchronization loop: the timing check, at most
    once per DoF, in ascending order, for enabled DoFs only. *)
Lemma phase_loop_calls (limiting_dof : Z) :
  forall dofs acc,
    StronglySorted lt dofs ->
    exists checks,
      snd (fst (fold_left (Trajectory.phase_sync_dof inp limiting_dof) dofs acc))
      = snd (fst acc) ++ map call_check_with_timing checks
      /\ StronglySorted lt checks
      /\ forall d, In d checks ->
           In d dofs /\ Trajectory.enabled_at inp d = true.
Proof.
  induction dofs as [|d rest IH]; intros acc Hs.
  - exists []. simpl. rewrite app_nil_r. split; [reflexivity|].
    split; [constructor | intros x []].
  - inversion Hs as [|? ? Hrest Hall]; subst. rewrite Forall_forall in Hall.
    cbn [fold_left].
    destruct (IH (Trajectory.phase_sync_dof inp limiting_dof acc d) Hrest)
      as [l [Hc [Hl Hin]]].
    rewrite Hc. clear Hc.
    destruct acc as [[s calls] found]. unfold Trajectory.phase_sync_dof.
    destruct (Trajectory.enabled_at inp d) eqn:Ed; cbn [negb orb].
    + destruct (_ || _).
      * exists l. split; [reflexivity|]. split; [exact Hl|].
        intros x Hx. destruct (Hin x Hx). split; [right|]; assumption.
      * split_pairs. cbn [fst snd]. exists (d :: l).
        split; [rewrite <- app_assoc; reflexivity|]. split.
        -- constructor; [exact Hl|]. apply Forall_forall.
           intros x Hx. apply Hall. apply (Hin x Hx).
        -- intros x [<- | Hx]; [split; [left; reflexivity | exact Ed]|].
           destruct (Hin x Hx). split; [right|]; assumption.
    + exists l. split; [reflexivity|]. split; [exact Hl|].
      intros x Hx. destruct (Hin x Hx). split; [right|]; assumption.
Qed.

(** The calls of the time synchronization loop: Step 2, at most once per
    DoF, in ascending order, for enabled DoFs only. *)
Lemma time_loop_calls (throw_error : bool) (limiting_dof : Z) :
  forall dofs s,
    StronglySorted lt dofs ->
    exists steps,
      snd (fst (Trajectory.for_each
                  (Trajectory.time_sync_dof throw_error inp limiting_dof)
                  dofs s))
      = map call_step2 steps
      /\ StronglySorted lt steps
      /\ forall d, In d steps ->
           In d dofs /\ Trajectory.enabled_at inp d = true.
Proof.
  induction dofs as [|d rest IH]; intros s Hs.
  - exists []. simpl. split; [reflexivity|].
    split; [constructor | intros x []].
  - inversion Hs as [|? ? Hrest Hall]; subst. rewrite Forall_forall in Hall.
    cbn [Trajectory.for_each].
    assert (Hd : let '(s1, c1, o1) :=
                   Trajectory.time_sync_dof throw_error inp limiting_dof s d in
                 c1 = []
                 \/ (c1 = [call_step2 d]
                     /\ Trajectory.enabled_at inp d = true)).
    { unfold Trajectory.time_sync_dof.
      destruct (Trajectory.enabled_at inp d); cbn [negb orb]; [|auto].
      destruct (_ || _); [auto|].
      destruct (Trajectory.time_not_necessary inp s d); [auto|].
      destruct (Trajectory.extremal_profile _ _); [auto|].
      split_pairs. destruct (negb _); auto. }
    destruct (Trajectory.time_sync_dof throw_error inp limiting_dof s d)
      as [[s1 c1] [o1|]].
    + cbn [fst snd]. destruct Hd as [-> | [-> Ed]].
      * exists []. split; [reflexivity|].
        split; [constructor | intros x []].
      * exists [d]. split; [reflexivity|]. split; [repeat constructor|].
        intros x [<- | []]. split; [left; reflexivity | exact Ed].
    + destruct (IH s1 Hrest) as [l [Hc [Hl Hin]]].
      destruct (Trajectory.for_each _ rest s1) as [[s2 c2] o2].
      cbn [fst snd] in *. subst c2.
      destruct Hd as [-> | [-> Ed]].
      * exists l. split; [reflexivity|]. split; [exact Hl|].
        intros x Hx. destruct (Hin x Hx). split; [right|]; assumption.
      * exists (d :: l). split; [reflexivity|]. split.
        -- constructor; [exact Hl|]. apply Forall_forall.
           intros x Hx. apply Hall. apply (Hin x Hx).
        -- intros x [<- | Hx]; [split; [left; reflexivity | exact Ed]|].
           destruct (Hin x Hx). split; [right|]; assumption.
Qed.

Lemma seq_sorted (first n : nat) : StronglySorted lt (seq first n).
Proof.
  revert first. induction n as [|n IH]; intros first; simpl; constructor.
  - apply IH.
  - apply Forall_forall. intros x Hx. apply in_seq in Hx. lia.
Qed.

(** The calls of the part of [calculate] after the None synchronization. *)
Lemma phase_then_time_calls (throw_error : bool) (limiting_dof : Z)
    (s : Trajectory) :
  exists checks steps,
    snd (fst (Trajectory.phase_then_time throw_error inp limiting_dof s))
    = map call_check_with_timing checks ++ map call_step2 steps
    /\ StronglySorted lt checks /\ StronglySorted lt steps
    /\ forall d, In d checks \/ In d steps ->
         Trajectory.enabled_at inp d = true.
Proof.
  unfold Trajectory.phase_then_time.
  assert (Hphase : exists checks,
            snd (fst (Trajectory.phase_synchronization inp limiting_dof s))
            = map call_check_with_timing checks
            /\ StronglySorted lt checks
            /\ forall d, In d checks -> Trajectory.enabled_at inp d = true).
  { unfold Trajectory.phase_synchronization.
    assert (Hnil : exists checks : list nat,
              @nil Call = map call_check_with_timing checks
              /\ StronglySorted lt checks
              /\ forall d, In d checks -> Trajectory.enabled_at inp d = true).
    { exists []. split; [reflexivity|].
      split; [constructor | intros x []]. }
    destruct (_ && _); [|exact Hnil].
    destruct (Trajectory.is_input_collinear _ _ _ _ _) as [collinear s1].
    destruct collinear; [|exact Hnil].
    destruct (phase_loop_calls limiting_dof
                (seq 0 (length (Trajectory.profiles s))) (s1, [], true)
                (seq_sorted _ _)) as [l [Hc [Hl Hin]]].
    destruct (fold_left _ _ _) as [[s2 c2] found].
    cbn [fst snd app] in *. exists l. split; [exact Hc|].
    split; [exact Hl|]. intros d Hd. apply (Hin d Hd). }
  destruct (Trajectory.phase_synchronization inp limiting_dof s)
    as [[s1 c1] done].
  destruct Hphase as [checks [Hc [Hl Hen]]]. cbn [fst snd] in Hc. subst c1.
  destruct done.
  - exists checks, []. cbn [fst snd map]. rewrite app_nil_r.
    split; [reflexivity|]. split; [exact Hl|]. split; [constructor|].
    intros d [Hd | []]. apply Hen. exact Hd.
  - destruct (time_loop_calls throw_error limiting_dof
                (seq 0 (length (Trajectory.profiles s))) s1 (seq_sorted _ _))
      as [steps [Hc2 [Hl2 Hin2]]].
    destruct (Trajectory.for_each _ _ s1) as [[s2 c2] o2].
    cbn [fst snd] in *. subst c2. exists checks, steps.
    split; [reflexivity|]. split; [exact Hl|]. split; [exact Hl2|].
    intros d [Hd | Hd]; [apply Hen; exact Hd | apply (Hin2 d Hd)].
Qed.

(** X13: Every way [calculate] can end.  It never returns [Error]; the
    instantiation that throws never returns [ErrorExecutionTimeCalculation]
    or [ErrorSynchronizationCalculation], the instantiation that returns
    codes never throws, and [ErrorTrajectoryDuration] needs the
    instantiation that checks the maximal duration. *)
Theorem calculate_possible_outcomes (throw_error ret : bool) (delta_time : Q)
    (tr : Trajectory) :
  possible_outcome throw_error ret
    (fst (fst (Trajectory.calculate throw_error ret inp delta_time tr))).
Proof.
  unfold Trajectory.calculate.
  destruct (Trajectory.for_each (Trajectory.prepare_dof throw_error inp) _ tr)
    as [[tr1 c1] [o|]] eqn:E1.
  { cbn [fst]. eapply (for_each_outcome _ (possible_outcome throw_error ret));
      [|exact E1].
    intros. eapply prepare_dof_possible. eassumption. }
  destruct (Trajectory.synchronize _ _ _ _ _ _) as [[[t lim] ps]|].
  2:{ cbn [fst]. destruct throw_error; reflexivity. }
  destruct ret; cbn [andb].
  - destruct (dlt (Fin 7600) _); [reflexivity|].
    destruct (dzero _); [exact I|].
    destruct (Trajectory.for_each (Trajectory.none_sync_dof _ _) _ _)
      as [[tr3 c3] o3].
    destruct (forallb _ _); [exact I|].
    destruct (Trajectory.phase_then_time _ _ _ _) as [[tr4 c4] [o4|]] eqn:E4;
      cbn [fst]; [|exact I].
    apply (phase_then_time_possible _ true _ _ _ _ _ E4).
  - destruct (dzero _); [exact I|].
    destruct (Trajectory.for_each (Trajectory.none_sync_dof _ _) _ _)
      as [[tr3 c3] o3].
    destruct (forallb _ _); [exact I|].
    destruct (Trajectory.phase_then_time _ _ _ _) as [[tr4 c4] [o4|]] eqn:E4;
      cbn [fst]; [|exact I].
    apply (phase_then_time_possible _ false _ _ _ _ _ E4).
Qed.

(** X14: When Step 1 finds no profile, [calculate] stops at the first
    enabled DoF [d] for which that happens: it returns
    [ErrorExecutionTimeCalculation] or throws the Step 1 error for [d], it
    has called the brake and Step 1 for the enabled DoFs up to [d] and
    nothing else, and the duration of the trajectory object is the one it
    had before the call.  No later stage ends with that result. *)
Theorem calculate_step1_failure (throw_error ret : bool) (delta_time : Q)
    (tr tr' : Trajectory) (out : Outcome) (calls : list Call) :
  Trajectory.calculate throw_error ret inp delta_time tr = (out, tr', calls) ->
  (exists d, out = step1_failure throw_error d) ->
  exists d,
    (d < length (Trajectory.profiles tr))%nat
    /\ Trajectory.enabled_at inp d = true
    /\ out = step1_failure throw_error d
    /\ calls = setup_calls inp (seq 0 (S d))
    /\ Trajectory.duration tr' = Trajectory.duration tr.
Proof.
  intros Hcalc [d0 Hout]. unfold Trajectory.calculate in Hcalc.
  pose proof (prepare_loop_calls throw_error
                (length (Trajectory.profiles tr)) 0 tr) as Hprep.
  destruct (Trajectory.for_each (Trajectory.prepare_dof throw_error inp) _ tr)
    as [[tr1 c1] [o|]].
  { destruct Hprep as [D [k [Hk [E [O C]]]]].
    injection Hcalc as <- <- <-. exists k. auto. }
  exfalso.
  assert (Hno : forall o : Outcome,
            o = Returns Working \/ o = Returns ErrorTrajectoryDuration
            \/ o = Returns ErrorSynchronizationCalculation
            \/ o = Throws error_in_time_synchronization ->
            o <> step1_failure throw_error d0).
  { intros o Ho. unfold step1_failure.
    destruct throw_error, Ho as [-> | [-> | [-> | ->]]]; discriminate. }
  destruct (Trajectory.synchronize _ _ _ _ _ _) as [[[t lim] ps]|].
  2:{ injection Hcalc as <- _ _. revert Hout. apply Hno.
      destruct throw_error; auto. }
  destruct (ret && _).
  { injection Hcalc as <- _ _. revert Hout. apply Hno. auto. }
  destruct (dzero _).
  { injection Hcalc as <- _ _. revert Hout. apply Hno. auto. }
  destruct (Trajectory.for_each (Trajectory.none_sync_dof _ _) _ _)
    as [[tr3 c3] o3].
  destruct (forallb _ _).
  { injection Hcalc as <- _ _. revert Hout. apply Hno. auto. }
  destruct (Trajectory.phase_then_time _ _ _ _) as [[tr4 c4] [o4|]] eqn:E4.
  - injection Hcalc as <- _ _.
    apply (proj2 (phase_then_time_possible _ ret _ _ _ _ _ E4) d0). exact Hout.
  - injection Hcalc as <- _ _. revert Hout. apply Hno. auto.
Qed.

(** X15: The collaborator calls of one run of [calculate], in the order they
    are made: first the brake and Step 1 of every enabled DoF up to the DoF
    the set-up loop ends at; then, if the set-up loop passed all DoFs, the
    timing checks of the phase synchronization and after them the Step 2
    calls of the time synchronization, each at most once per DoF, in
    ascending DoF order and for enabled DoFs only. *)
Theorem calculate_call_trace (throw_error ret : bool) (delta_time : Q)
    (tr : Trajectory) :
  exists last checks steps,
    snd (Trajectory.calculate throw_error ret inp delta_time tr)
    = setup_calls inp (seq 0 last)
      ++ map call_check_with_timing checks ++ map call_step2 steps
    /\ (last <= length (Trajectory.profiles tr))%nat
    /\ StronglySorted lt checks /\ StronglySorted lt steps
    /\ (forall d, In d checks \/ In d steps ->
          Trajectory.enabled_at inp d = true)
    /\ (last = length (Trajectory.profiles tr)
        \/ (checks = [] /\ steps = [])).
Proof.
  unfold Trajectory.calculate.
  pose proof (prepare_loop_calls throw_error
                (length (Trajectory.profiles tr)) 0 tr) as Hprep.
  assert (Hnone : forall last c1,
            (last <= length (Trajectory.profiles tr))%nat ->
            c1 = setup_calls inp (seq 0 last) ->
            exists last checks steps,
              c1 = setup_calls inp (seq 0 last)
                   ++ map call_check_with_timing checks ++ map call_step2 steps
              /\ (last <= length (Trajectory.profiles tr))%nat
              /\ StronglySorted lt checks /\ StronglySorted lt steps
              /\ (forall d, In d checks \/ In d steps ->
                    Trajectory.enabled_at inp d = true)
              /\ (last = length (Trajectory.profiles tr)
                  \/ (checks = [] /\ steps = []))).
  { intros last c1 Hlast ->. exists last, [], [].
    cbn [map app]. rewrite app_nil_r.
    split; [reflexivity|]. split; [exact Hlast|].
    split; [constructor|]. split; [constructor|].
    split; [intros d [[] | []] | right; auto]. }
  destruct (Trajectory.for_each (Trajectory.prepare_dof throw_error inp) _ tr)
    as [[tr1 c1] [o|]].
  { destruct Hprep as [_ [k [Hk [_ [_ C]]]]]. cbn [snd].
    apply (Hnone (S k)); [lia | exact C]. }
  destruct Hprep as [_ C].
  destruct (Trajectory.synchronize _ _ _ _ _ _) as [[[t lim] ps]|];
    [|cbn [snd]; apply (Hnone (length (Trajectory.profiles tr))); auto].
  destruct (ret && _);
    [cbn [snd]; apply (Hnone (length (Trajectory.profiles tr))); auto|].
  destruct (dzero _);
    [cbn [snd]; apply (Hnone (length (Trajectory.profiles tr))); auto|].
  destruct (Trajectory.for_each (Trajectory.none_sync_dof _ _) _ _)
    as [[tr3 c3] o3].
  destruct (forallb _ _);
    [cbn [snd]; apply (Hnone (length (Trajectory.profiles tr))); auto|].
  destruct (phase_then_time_calls throw_error lim tr3)
    as [checks [steps [Hc [Hl1 [Hl2 Hen]]]]].
  destruct (Trajectory.phase_then_time _ _ _ _) as [[tr4 c4] o4].
  cbn [fst snd] in Hc. subst c4 c1.
  exists (length (Trajectory.profiles tr)), checks, steps.
  assert (Hcalls : forall o : Outcome,
            snd (o, tr4,
                 setup_calls inp (seq 0 (length (Trajectory.profiles tr)))
                 ++ map call_check_with_timing checks ++ map call_step2 steps)
            = setup_calls inp (seq 0 (length (Trajectory.profiles tr)))
              ++ map call_check_with_timing checks ++ map call_step2 steps)
    by reflexivity.
  destruct o4; (split; [apply Hcalls|]); auto 10.
Qed.

End CalculateTrace.

(** One DoF for which Step 1 finds no profile: the call ends with
    [ErrorExecutionTimeCalculation] after the brake and Step 1 of DoF 0. *)
Lemma calculate_step1_failure_witness :
  exists d,
    (d < length (Trajectory.profiles (Examples.fresh 1)))%nat
    /\ Trajectory.enabled_at Examples.too_fast d = true
    /\ Returns ErrorExecutionTimeCalculation = step1_failure false d
    /\ [call_brake 0; call_step1 0]
       = setup_calls Examples.too_fast (seq 0 (S d))
    /\ Trajectory.duration
         (snd (fst (@Trajectory.calculate Examples.without_profiles false
                      false Examples.too_fast 0 (Examples.fresh 1))))
       = Trajectory.duration (Examples.fresh 1).
Proof.
  apply (@calculate_step1_failure Examples.without_profiles Examples.too_fast
           false false 0 (Examples.fresh 1)).
  - vm_compute. reflexivity.
  - exists 0%nat. reflexivity.
Defined.

(** ** calculate: DoFs without synchronization *)

Section NoneSynchronization.
Context {planner : Planner}.
Variable inp : InputParameter.
Variable dof : nat.

Lemma passes_over_refl (s : Trajectory) : passes_over dof s s [].
Proof. unfold passes_over. repeat split; auto. Qed.

Lemma passes_over_trans (s1 s2 s3 : Trajectory) (c1 c2 : list Call) :
  passes_over dof s1 s2 c1 -> passes_over dof s2 s3 c2 ->
  passes_over dof s1 s3 (c1 ++ c2).
Proof.
  unfold passes_over. intros [P1 [B1 [S1 [L1 C1]]]] [P2 [B2 [S2 [L2 C2]]]].
  split; [congruence|]. split; [congruence|]. split; [congruence|].
  split; [congruence|].
  intros c Hc. apply in_app_or in Hc. destruct Hc; auto.
Qed.

Lemma passes_over_set_profile (s : Trajectory) (d : nat) (x : Profile)
    (calls : list Call) :
  d <> dof -> (forall c, In c calls -> call_dof c = d) ->
  passes_over dof s
    (Trajectory.set_profiles (set (Trajectory.profiles s) d x) s) calls.
Proof.
  intros Hd Hc. unfold passes_over.
  cbn [Trajectory.profiles Trajectory.set_profiles Trajectory.blocks
       Trajectory.inp_per_dof_synchronization].
  split; [unfold Trajectory.profile_at; apply nth_set_other; exact Hd|].
  split; [reflexivity|]. split; [reflexivity|]. split; [apply set_length|].
  intros c Hin. rewrite (Hc c Hin). exact Hd.
Qed.

Lemma for_each_passes_over (body : Trajectory -> nat -> Trajectory.Step) :
  (forall s d,
      Trajectory.sync_at (Trajectory.inp_per_dof_synchronization s) dof
      = Synchronization.None ->
      let '(s', calls, _) := body s d in passes_over dof s s' calls) ->
  forall dofs s,
    Trajectory.sync_at (Trajectory.inp_per_dof_synchronization s) dof
    = Synchronization.None ->
    let '(s', calls, _) := Trajectory.for_each body dofs s in
    passes_over dof s s' calls.
Proof.
  intros Hbody. induction dofs as [|d rest IH]; intros s Hs; simpl.
  - apply passes_over_refl.
  - specialize (Hbody s d Hs).
    destruct (body s d) as [[s1 c1] [o|]]; [exact Hbody|].
    assert (Hs1 : Trajectory.sync_at
                    (Trajectory.inp_per_dof_synchronization s1) dof
                  = Synchronization.None).
    { destruct Hbody as [_ [_ [S _]]]. rewrite S. exact Hs. }
    specialize (IH s1 Hs1).
    destruct (Trajectory.for_each body rest s1) as [[s2 c2] o2].
    eapply passes_over_trans; eassumption.
Qed.

Lemma time_sync_dof_passes_over (throw_error : bool) (limiting_dof : Z)
    (s : Trajectory) (d : nat) :
  Trajectory.sync_at (Trajectory.inp_per_dof_synchronization s) dof
  = Synchronization.None ->
  let '(s', calls, _) :=
    Trajectory.time_sync_dof throw_error inp limiting_dof s d in
  passes_over dof s s' calls.
Proof.
  intros Hs. unfold Trajectory.time_sync_dof.
  destruct (Nat.eq_dec d dof) as [-> | Hd].
  { rewrite Hs. cbn [Synchronization.eqb]. rewrite !orb_true_r.
    apply passes_over_refl. }
  destruct (_ || _); [apply passes_over_refl|].
  destruct (Trajectory.time_not_necessary inp s d).
  { apply passes_over_set_profile; [exact Hd | intros c []]. }
  destruct (Trajectory.extremal_profile _ _).
  { apply passes_over_set_profile; [exact Hd | intros c []]. }
  split_pairs.
  destruct (negb _); (apply passes_over_set_profile; [exact Hd|]);
    intros c [<- | []]; reflexivity.
Qed.

Lemma phase_loop_passes_over (limiting_dof : Z) (s0 : Trajectory) :
  Trajectory.sync_at (Trajectory.inp_per_dof_synchronization s0) dof
  = Synchronization.None ->
  forall dofs acc,
    passes_over dof s0 (fst (fst acc)) (snd (fst acc)) ->
    passes_over dof s0
      (fst (fst (fold_left (Trajectory.phase_sync_dof inp limiting_dof)
                   dofs acc)))
      (snd (fst (fold_left (Trajectory.phase_sync_dof inp limiting_dof)
                   dofs acc))).
Proof.
  intros Hs0.
  induction dofs as [|d rest IH]; intros acc Hk; simpl; [exact Hk|].
  apply IH. destruct acc as [[s calls] found]. cbn [fst snd] in *.
  unfold Trajectory.phase_sync_dof.
  destruct (Nat.eq_dec d dof) as [-> | Hd].
  { pose proof Hk as [_ [_ [S _]]]. rewrite S, Hs0.
    cbn [Synchronization.eqb negb]. rewrite !orb_true_r. exact Hk. }
  destruct (_ || _); [exact Hk|].
  split_pairs. cbn [fst snd].
  eapply passes_over_trans; [exact Hk|].
  eapply (passes_over_trans _ _ _ [] [call_check_with_timing d]).
  - apply passes_over_set_profile; [exact Hd | intros c []].
  - apply passes_over_set_profile; [exact Hd|]. intros c [<- | []]. reflexivity.
Qed.

Lemma phase_then_time_passes_over (throw_error : bool) (limiting_dof : Z)
    (s : Trajectory) :
  Trajectory.sync_at (Trajectory.inp_per_dof_synchronization s) dof
  = Synchronization.None ->
  let '(s', calls, _) :=
    Trajectory.phase_then_time throw_error inp limiting_dof s in
  passes_over dof s s' calls.
Proof.
  intros Hs. unfold Trajectory.phase_then_time.
  assert (Hphase : let '(s', calls, _) :=
                     Trajectory.phase_synchronization inp limiting_dof s in
                   passes_over dof s s' calls).
  { unfold Trajectory.phase_synchronization.
    destruct (_ && _); [|apply passes_over_refl].
    assert (Hc : forall jMax direction,
              passes_over dof s
                (snd (Trajectory.is_input_collinear inp s jMax direction
                        limiting_dof)) []).
    { intros jMax direction. unfold Trajectory.is_input_collinear.
      destruct (Trajectory.collinear_scales _ _ _ _ _) as [pd' [scales|]].
      - destruct (Trajectory.collinear_check _ _ _ _ _ _ _ _) as [jerk' ok].
        unfold passes_over. cbn. repeat split; auto.
      - unfold passes_over. cbn. repeat split; auto. }
    specialize (Hc (InputParameter.max_jerk inp)
                  (Profile.direction
                     (Trajectory.limiting_profile (Trajectory.profiles s)
                        limiting_dof))).
    destruct (Trajectory.is_input_collinear _ _ _ _ _) as [collinear s1].
    cbn [snd] in Hc.
    destruct collinear; [|exact Hc].
    pose proof (phase_loop_passes_over limiting_dof s Hs
                  (seq 0 (length (Trajectory.profiles s))) (s1, [], true) Hc)
      as Hl.
    destruct (fold_left _ _ _) as [[s2 c2] found]. exact Hl. }
  destruct (Trajectory.phase_synchronization inp limiting_dof s)
    as [[s1 c1] done].
  destruct done; [exact Hphase|].
  assert (Hs1 : Trajectory.sync_at
                  (Trajectory.inp_per_dof_synchronization s1) dof
                = Synchronization.None).
  { destruct Hphase as [_ [_ [S _]]]. rewrite S. exact Hs. }
  pose proof (for_each_passes_over _
                (time_sync_dof_passes_over throw_error limiting_dof)
                (seq 0 (length (Trajectory.profiles s))) s1 Hs1) as Ht.
  destruct (Trajectory.for_each _ _ s1) as [[s2 c2] o2].
  eapply passes_over_trans; eassumption.
Qed.

(** The None synchronization loop gives an enabled DoF without
    synchronization that is not the limiting one the fastest profile of its
    block. *)
Lemma none_loop_assigns (limiting_dof : Z) :
  Trajectory.enabled_at inp dof = true ->
  Trajectory.is_limiting dof limiting_dof = false ->
  forall dofs s s' calls o,
    NoDup dofs ->
    Trajectory.sync_at (Trajectory.inp_per_dof_synchronization s) dof
    = Synchronization.None ->
    Trajectory.for_each (Trajectory.none_sync_dof inp limiting_dof) dofs s
    = (s', calls, o) ->
    Trajectory.blocks s' = Trajectory.blocks s
    /\ Trajectory.inp_per_dof_synchronization s'
       = Trajectory.inp_per_dof_synchronization s
    /\ length (Trajectory.profiles s') = length (Trajectory.profiles s)
    /\ (~ In dof dofs ->
        Trajectory.profile_at (Trajectory.profiles s') dof
        = Trajectory.profile_at (Trajectory.profiles s) dof)
    /\ (In dof dofs -> (dof < length (Trajectory.profiles s))%nat ->
        Trajectory.profile_at (Trajectory.profiles s') dof
        = Block.p_min (Trajectory.block_at (Trajectory.blocks s) dof)).
Proof.
  intros Hen Hlim.
  assert (Hbody : forall s d,
            Trajectory.sync_at (Trajectory.inp_per_dof_synchronization s) dof
            = Synchronization.None ->
            exists s1,
              Trajectory.none_sync_dof inp limiting_dof s d = (s1, [], None)
              /\ Trajectory.blocks s1 = Trajectory.blocks s
              /\ Trajectory.inp_per_dof_synchronization s1
                 = Trajectory.inp_per_dof_synchronization s
              /\ length (Trajectory.profiles s1)
                 = length (Trajectory.profiles s)
              /\ (d <> dof ->
                  Trajectory.profile_at (Trajectory.profiles s1) dof
                  = Trajectory.profile_at (Trajectory.profiles s) dof)
              /\ (d = dof -> (dof < length (Trajectory.profiles s))%nat ->
                  Trajectory.profile_at (Trajectory.profiles s1) dof
                  = Block.p_min
                      (Trajectory.block_at (Trajectory.blocks s) dof))).
  { intros s d Hs. unfold Trajectory.none_sync_dof.
    destruct (Nat.eq_dec d dof) as [Heq | Hd].
    - subst d. rewrite Hen, Hlim, Hs. cbn [andb negb Synchronization.eqb].
      eexists. split; [reflexivity|].
      cbn [Trajectory.blocks Trajectory.set_profiles Trajectory.profiles
           Trajectory.inp_per_dof_synchronization].
      split; [reflexivity|]. split; [reflexivity|].
      split; [apply set_length|].
      split; [intros Hn; exfalso; apply Hn; reflexivity|].
      intros _ Hlen. unfold Trajectory.profile_at.
      apply nth_set_same. exact Hlen.
    - destruct (_ && _); eexists; (split; [reflexivity|]);
        cbn [Trajectory.blocks Trajectory.set_profiles Trajectory.profiles
             Trajectory.inp_per_dof_synchronization].
      + split; [reflexivity|]. split; [reflexivity|].
        split; [apply set_length|].
        split; [|intros Heq; contradiction].
        intros _. unfold Trajectory.profile_at. apply nth_set_other. exact Hd.
      + split; [reflexivity|]. split; [reflexivity|].
        split; [reflexivity|].
        split; [reflexivity | intros Heq; contradiction]. }
  induction dofs as [|d rest IH]; intros s s' calls o Hnd Hs Hloop.
  - simpl in Hloop. injection Hloop as <- _ _.
    split; [reflexivity|]. split; [reflexivity|]. split; [reflexivity|].
    split; [reflexivity | intros []].
  - inversion Hnd as [|? ? Hnotin Hnd']; subst.
    cbn [Trajectory.for_each] in Hloop.
    destruct (Hbody s d Hs) as [s1 [E [B1 [S1 [L1 [Pn1 Pi1]]]]]].
    rewrite E in Hloop.
    destruct (Trajectory.for_each _ rest s1) as [[s2 c2] o2] eqn:Erest.
    injection Hloop as <- _ _.
    destruct (IH s1 s2 c2 o2 Hnd' ltac:(rewrite S1; exact Hs) Erest)
      as [B [S [L [Pn Pi]]]].
    split; [congruence|]. split; [congruence|]. split; [congruence|].
    split.
    + intros Hn. rewrite Pn by (intros Hin; apply Hn; right; exact Hin).
      apply Pn1. intros Heq. apply Hn. left. exact Heq.
    + intros [Heq | Hin] Hlen.
      * subst d. rewrite (Pn Hnotin). apply Pi1; [reflexivity | exact Hlen].
      * rewrite Pi; [rewrite B1; reflexivity | exact Hin | lia].
Qed.

Lemma in_setup_calls (l : list nat) (c : Call) :
  In c (setup_calls inp l) ->
  exists d, c = call_brake d \/ c = call_step1 d.
Proof.
  unfold setup_calls. intros H. apply in_flat_map in H.
  destruct H as [d [_ H]].
  destruct (Trajectory.enabled_at inp d); [|destruct H].
  destruct H as [<- | [<- | []]]; eauto.
Qed.

(** X18: An enabled DoF with [Synchronization::None] that [synchronize] did
    not select as the limiting one ends with the fastest profile of its
    block, [blocks[dof].p_min], whenever [calculate] gets past the duration
    checks (a non-zero duration that is not refused as too long), whatever
    happens to the other DoFs afterwards; neither the timing check nor Step
    2 is called for it. *)
Theorem none_synchronization_keeps_fastest (throw_error ret : bool)
    (delta_time : Q) (tr tr1 : Trajectory) (calls1 : list Call)
    (t_sync : double) (limiting_dof : Z) (profiles' : list Profile) :
  Trajectory.for_each (Trajectory.prepare_dof throw_error inp)
    (seq 0 (length (Trajectory.profiles tr))) tr = (tr1, calls1, None) ->
  Trajectory.synchronize (Trajectory.degrees_of_freedom tr1)
    (Trajectory.blocks tr1) (InputParameter.minimum_duration inp)
    (Trajectory.profiles tr1)
    (match InputParameter.duration_discretization inp with
     | Discrete => true
     | Continuous => false
     end) delta_time
  = Some (t_sync, limiting_dof, profiles') ->
  (dof < length (Trajectory.blocks tr1))%nat ->
  (dof < length (Trajectory.profiles tr1))%nat ->
  Trajectory.enabled_at inp dof = true ->
  Trajectory.sync_at (Trajectory.inp_per_dof_synchronization tr1) dof
  = Synchronization.None ->
  Trajectory.is_limiting dof limiting_dof = false ->
  dzero t_sync = false ->
  ret && dlt (Fin 7600) t_sync = false ->
  let '(_, tr', calls) :=
    Trajectory.calculate throw_error ret inp delta_time tr in
  Trajectory.profile_at (Trajectory.profiles tr') dof
  = Block.p_min (Trajectory.block_at (Trajectory.blocks tr') dof)
  /\ ~ In (call_check_with_timing dof) calls
  /\ ~ In (call_step2 dof) calls.
Proof.
  intros Hprep Hsync Hblocks Hprofiles Hen Hnone Hlim Hzero Hlong.
  unfold Trajectory.calculate.
  pose proof (prepare_loop_calls inp throw_error
                (length (Trajectory.profiles tr)) 0 tr) as Hcalls.
  rewrite Hprep in *. rewrite Hsync.
  destruct Hcalls as [_ Hcalls].
  cbn [Trajectory.duration Trajectory.set_duration]. rewrite Hlong, Hzero.
  set (tr2 := Trajectory.set_duration t_sync
                (Trajectory.set_profiles profiles' tr1)).
  assert (Hsetup : forall c, In c calls1 ->
            c <> call_check_with_timing dof /\ c <> call_step2 dof).
  { intros c Hc. rewrite Hcalls in Hc.
    destruct (in_setup_calls _ _ Hc) as [d [-> | ->]]; split; discriminate. }
  destruct (synchronize_frame _ _ _ _ _ _ _ _ _ Hsync) as [Hlen _].
  destruct (Trajectory.for_each (Trajectory.none_sync_dof inp limiting_dof)
              _ tr2) as [[tr3 c3] o3] eqn:Eloop.
  destruct (none_loop_assigns limiting_dof Hen Hlim _ tr2 _ _ _
              (seq_NoDup _ _) Hnone Eloop) as [B3 [S3 [L3 [_ P3]]]].
  specialize (P3 ltac:(apply in_seq; cbn; lia) ltac:(cbn; lia)).
  assert (Hdone : forall (s : Trajectory) (later : list Call),
            passes_over dof tr3 s later ->
            Trajectory.profile_at (Trajectory.profiles s) dof
            = Block.p_min (Trajectory.block_at (Trajectory.blocks s) dof)
            /\ ~ In (call_check_with_timing dof) (calls1 ++ later)
            /\ ~ In (call_step2 dof) (calls1 ++ later)).
  { intros s later [P [B [_ [_ C]]]].
    split; [rewrite P, B, B3; exact P3|].
    split; intros Hin; apply in_app_or in Hin; destruct Hin as [Hin | Hin].
    - apply (proj1 (Hsetup _ Hin)). reflexivity.
    - apply (C _ Hin). reflexivity.
    - apply (proj2 (Hsetup _ Hin)). reflexivity.
    - apply (C _ Hin). reflexivity. }
  destruct (forallb _ _).
  { specialize (Hdone tr3 [] (passes_over_refl tr3)).
    rewrite app_nil_r in Hdone. exact Hdone. }
  pose proof (phase_then_time_passes_over throw_error limiting_dof tr3
                ltac:(rewrite S3; exact Hnone)) as Hpt.
  destruct (Trajectory.phase_then_time throw_error inp limiting_dof tr3)
    as [[tr4 c4] [o4|]]; exact (Hdone _ _ Hpt).
Qed.

End NoneSynchronization.

(** Two DoFs of which the second is independent: the first one, with the
    longer motion, is the limiting one, and the second ends with the
    fastest profile of its block. *)
Lemma none_synchronization_keeps_fastest_witness :
  let '(_, tr', calls) :=
    @Trajectory.calculate Examples.stand_in false false
      Examples.one_independent 0 (Examples.fresh 2) in
  Trajectory.profile_at (Trajectory.profiles tr') 1
  = Block.p_min (Trajectory.block_at (Trajectory.blocks tr') 1)
  /\ ~ In (call_check_with_timing 1) calls
  /\ ~ In (call_step2 1) calls.
Proof.
  pose (prep := Trajectory.for_each
                  (@Trajectory.prepare_dof Examples.stand_in false
                     Examples.one_independent)
                  (seq 0 2) (Examples.fresh 2)).
  eapply (@none_synchronization_keeps_fastest Examples.stand_in
            Examples.one_independent 1 false false 0 (Examples.fresh 2)
            (fst (fst prep)) (snd (fst prep))).
  - vm_compute. reflexivity.
  - vm_compute. reflexivity.
  - vm_compute. lia.
  - vm_compute. lia.
  - reflexivity.
  - vm_compute. reflexivity.
  - reflexivity.
  - reflexivity.
  - reflexivity.
Defined.

(** ** at_time: the segment a sampling time falls into *)

Lemma sorted_get_le (arr : list Q) :
  StronglySorted Qle arr ->
  forall i j, (i <= j < length arr)%nat -> get arr i <= get arr j.
Proof.
  unfold get. induction 1 as [|x rest Hs IH Hall]; intros i j Hij.
  - simpl in Hij. lia.
  - destruct i as [|i], j as [|j]; simpl in *; try lia.
    + apply Qle_refl.
    + rewrite Forall_forall in Hall. apply Hall. apply nth_In. lia.
    + apply IH. lia.
Qed.

(** The binary search on a sorted array: it ends at the first index of the
    range whose element is greater than [val]. *)
Lemma upper_bound_loop_spec (arr : list Q) (val : Q) :
  StronglySorted Qle arr ->
  forall fuel first len,
    (len <= fuel)%nat -> (first + len <= length arr)%nat ->
    let r := Trajectory.upper_bound_loop fuel arr val first len in
    (first <= r <= first + len)%nat
    /\ (forall i, (first <= i < r)%nat -> get arr i <= val)
    /\ (forall i, (r <= i < first + len)%nat -> val < get arr i).
Proof.
  intros Hsorted. pose proof (sorted_get_le arr Hsorted) as Hle.
  induction fuel as [|fuel IH]; intros first len Hfuel Hlen.
  - simpl. split; [lia|]. split; intros i Hi; lia.
  - cbn [Trajectory.upper_bound_loop].
    destruct (Nat.eqb len 0) eqn:E0.
    { apply Nat.eqb_eq in E0. split; [lia|]. split; intros i Hi; lia. }
    apply Nat.eqb_neq in E0.
    assert (Hhalf : (len / 2 < len)%nat) by (apply Nat.div_lt; lia).
    destruct (Qltb val (get arr (first + len / 2))) eqn:Em.
    + apply Qltb_lt in Em.
      destruct (IH first (len / 2)%nat ltac:(lia) ltac:(lia))
        as [Hr [Hlow Hhigh]].
      split; [lia|]. split; [exact Hlow|].
      intros i Hi.
      destruct (Nat.lt_ge_cases i (first + len / 2)) as [Hlt | Hge].
      * apply Hhigh. lia.
      * eapply Qlt_le_trans; [exact Em|]. apply Hle. lia.
    + apply Qltb_ge in Em.
      destruct (IH (first + len / 2 + 1)%nat (len - len / 2 - 1)%nat
                  ltac:(lia) ltac:(lia)) as [Hr [Hlow Hhigh]].
      split; [lia|]. split.
      * intros i Hi.
        destruct (Nat.lt_ge_cases i (first + len / 2 + 1)) as [Hlt | Hge].
        -- eapply Qle_trans; [|exact Em]. apply Hle. lia.
        -- apply Hlow. lia.
      * intros i Hi. apply Hhigh. lia.
Qed.

(** [std::upper_bound] as [at_time] uses it, on a sorted array: the result
    is the index of the first element greater than [val] (the size of the
    array if there is none): every element before it is at most [val],
    every element from it on is greater. *)
Lemma upper_bound_first_greater (arr : list Q) (val : Q) :
  StronglySorted Qle arr ->
  (Trajectory.upper_bound arr val <= length arr)%nat
  /\ (forall i, (i < Trajectory.upper_bound arr val)%nat -> get arr i <= val)
  /\ (forall i, (Trajectory.upper_bound arr val <= i < length arr)%nat ->
        val < get arr i).
Proof.
  intros Hsorted. unfold Trajectory.upper_bound.
  destruct (upper_bound_loop_spec arr val Hsorted (length arr) 0 (length arr)
              ltac:(lia) ltac:(lia)) as [Hr [Hlow Hhigh]].
  split; [lia|]. split.
  - intros i Hi. apply Hlow. lia.
  - intros i Hi. apply Hhigh. lia.
Qed.

(** A profile entry past the written range is not touched. *)
Lemma write_samples_high (sample : Profile -> Q * Q * Q) (ps : list Profile) :
  forall (dof : nat) (np nv na : list Q),
    let '(np', nv', na') := Trajectory.write_samples sample ps dof (np, nv, na) in
    forall k, (dof + length ps <= k)%nat ->
      nth k np' 0 = nth k np 0 /\ nth k nv' 0 = nth k nv 0
      /\ nth k na' 0 = nth k na 0.
Proof.
  induction ps as [|p rest IH]; intros dof np nv na.
  - simpl. auto.
  - cbn [Trajectory.write_samples].
    destruct (sample p) as [[x y] z].
    specialize (IH (dof + 1)%nat (set np dof x) (set nv dof y) (set na dof z)).
    destruct (Trajectory.write_samples sample rest (dof + 1)
                (set np dof x, set nv dof y, set na dof z))
      as [[np' nv'] na'].
    intros k Hk. simpl in Hk.
    destruct (IH k ltac:(lia)) as [H1 [H2 H3]].
    rewrite H1, H2, H3, !nth_set_other by lia. auto.
Qed.

(** X21: What [at_time] does to its outputs.  Only the variant with a
    run-time number of DoFs throws, and only when an output vector has not
    [degrees_of_freedom] entries.  Otherwise the output vectors keep their
    sizes, the section is [1] when [time >= duration] and [0] otherwise, and
    the entries past [profiles.size()] are not written. *)
Theorem at_time_outputs (DOFs : nat) (tr : Trajectory) (time : Q)
    (np nv na : list Q) :
  match Trajectory.at_time DOFs tr time np nv na with
  | None =>
      DOFs = 0%nat
      /\ ~ (Trajectory.degrees_of_freedom tr = length np
            /\ Trajectory.degrees_of_freedom tr = length nv
            /\ Trajectory.degrees_of_freedom tr = length na)
  | Some (np', nv', na', new_section) =>
      (DOFs = 0%nat ->
       Trajectory.degrees_of_freedom tr = length np
       /\ Trajectory.degrees_of_freedom tr = length nv
       /\ Trajectory.degrees_of_freedom tr = length na)
      /\ length np' = length np /\ length nv' = length nv
      /\ length na' = length na
      /\ new_section = (if dge (Fin time) (Trajectory.duration tr)
                        then 1%nat else 0%nat)
      /\ forall k, (length (Trajectory.profiles tr) <= k)%nat ->
           nth k np' 0 = nth k np 0 /\ nth k nv' 0 = nth k nv 0
           /\ nth k na' 0 = nth k na 0
  end.
Proof.
  unfold Trajectory.at_time.
  assert (Hwritten : forall sample,
            let '(np', nv', na') :=
              Trajectory.write_samples sample (Trajectory.profiles tr) 0
                (np, nv, na) in
            length np' = length np /\ length nv' = length nv
            /\ length na' = length na
            /\ forall k, (length (Trajectory.profiles tr) <= k)%nat ->
                 nth k np' 0 = nth k np 0 /\ nth k nv' 0 = nth k nv 0
                 /\ nth k na' 0 = nth k na 0).
  { intros sample.
    pose proof (write_samples_spec sample (Trajectory.profiles tr) 0 np nv na)
      as Hspec.
    pose proof (write_samples_high sample (Trajectory.profiles tr) 0 np nv na)
      as Hhigh.
    destruct (Trajectory.write_samples sample (Trajectory.profiles tr) 0
                (np, nv, na)) as [[np' nv'] na'].
    destruct Hspec as [[L1 [L2 L3]] _].
    split; [exact L1|]. split; [exact L2|]. split; [exact L3|].
    intros k Hk. apply Hhigh. simpl. exact Hk. }
  destruct (Nat.eqb DOFs 0) eqn:E0; cbn [andb].
  - apply Nat.eqb_eq in E0.
    destruct (Nat.eqb (Trajectory.degrees_of_freedom tr) (length np)) eqn:E1;
      cbn [negb orb].
    2:{ apply Nat.eqb_neq in E1. split; [exact E0 | tauto]. }
    destruct (Nat.eqb (Trajectory.degrees_of_freedom tr) (length nv)) eqn:E2;
      cbn [negb orb].
    2:{ apply Nat.eqb_neq in E2. split; [exact E0 | tauto]. }
    destruct (Nat.eqb (Trajectory.degrees_of_freedom tr) (length na)) eqn:E3;
      cbn [negb orb].
    2:{ apply Nat.eqb_neq in E3. split; [exact E0 | tauto]. }
    apply Nat.eqb_eq in E1, E2, E3.
    destruct (dge (Fin time) (Trajectory.duration tr));
      [specialize (Hwritten (fun p => Trajectory.sample_after p time))
      |specialize (Hwritten (fun p => Trajectory.sample_within p time))];
      destruct (Trajectory.write_samples _ _ _ _) as [[np' nv'] na'];
      destruct Hwritten as [L1 [L2 [L3 Hk]]]; auto 10.
  - apply Nat.eqb_neq in E0.
    destruct (dge (Fin time) (Trajectory.duration tr));
      [specialize (Hwritten (fun p => Trajectory.sample_after p time))
      |specialize (Hwritten (fun p => Trajectory.sample_within p time))];
      destruct (Trajectory.write_samples _ _ _ _) as [[np' nv'] na'];
      destruct Hwritten as [L1 [L2 [L3 Hk]]];
      (split; [intros H; contradiction | auto 10]).
Qed.

(** X22: Sampling before the end of the trajectory, past the brake prefix of
    the DoF and before the end of its profile: with [t] the time into the
    profile, the state is integrated from the start of the segment [index]
    that contains [t], that is [t_sum[i] <= t] for every [i < index] and [t
    < t_sum[index]], over the time since the start of that segment, with the
    segment's jerk. *)
Theorem at_time_within_segment (DOFs : nat) (tr : Trajectory) (time : Q)
    (np nv na np' nv' na' : list Q) (new_section dof : nat) :
  let p := Trajectory.profile_at (Trajectory.profiles tr) dof in
  let brake := BrakeProfile.duration (Profile.brake p) in
  let t := if Qltb 0 brake then time - brake else time in
  Trajectory.at_time DOFs tr time np nv na
  = Some (np', nv', na', new_section) ->
  dge (Fin time) (Trajectory.duration tr) = false ->
  (dof < length (Trajectory.profiles tr))%nat ->
  (dof < length np)%nat -> (dof < length nv)%nat -> (dof < length na)%nat ->
  Qltb 0 brake && Qltb time brake = false ->
  StronglySorted Qle (Profile.t_sum p) -> length (Profile.t_sum p) = 7%nat ->
  t < get (Profile.t_sum p) 6 ->
  new_section = 0%nat
  /\ exists index,
       (index < 7)%nat
       /\ (forall i, (i < index)%nat -> get (Profile.t_sum p) i <= t)
       /\ t < get (Profile.t_sum p) index
       /\ (nth dof np' 0, nth dof nv' 0, nth dof na' 0)
          = Profile.integrate
              (match index with
               | O => t
               | S before => t - get (Profile.t_sum p) before
               end)
              (get (Profile.p p) index) (get (Profile.v p) index)
              (get (Profile.a p) index) (get (Profile.j p) index).
Proof.
  intros p brake t Hat Hbefore Hdof Hnp Hnv Hna Hbrake Hsorted Hlen Hend.
  unfold Trajectory.at_time in Hat. rewrite Hbefore in Hat.
  destruct (_ && _); [discriminate|].
  pose proof (write_samples_spec (fun p => Trajectory.sample_within p time)
                (Trajectory.profiles tr) 0 np nv na) as Hspec.
  destruct (Trajectory.write_samples _ _ _ _) as [[np0 nv0] na0].
  injection Hat as <- <- <- <-.
  destruct Hspec as [_ [_ Hvalue]].
  specialize (Hvalue dof Hdof Hnp Hnv Hna). cbn [Nat.add] in Hvalue.
  split; [reflexivity|].
  destruct (upper_bound_first_greater (Profile.t_sum p) t Hsorted)
    as [Hr [Hlow Hhigh]].
  set (index := Trajectory.upper_bound (Profile.t_sum p) t) in *.
  assert (Hindex : (index < 7)%nat).
  { destruct (Nat.lt_ge_cases index 7) as [Hlt | Hge]; [exact Hlt|].
    exfalso. apply (Qlt_not_le _ _ Hend). apply Hlow. lia. }
  exists index. split; [exact Hindex|]. split.
  { intros i Hi. apply Hlow. lia. }
  split.
  { apply Hhigh. lia. }
  rewrite Hvalue. unfold Trajectory.sample_within.
  fold (Trajectory.profile_at (Trajectory.profiles tr) dof). fold p.
  fold brake. rewrite Hbrake. fold t.
  assert (Hnot : Qle_bool (get (Profile.t_sum p) 6) t = false).
  { destruct (Qle_bool (get (Profile.t_sum p) 6) t) eqn:E; [|reflexivity].
    apply Qle_bool_iff in E. exfalso. apply (Qlt_not_le _ _ Hend E). }
  rewrite Hnot. fold index.
  destruct index as [|before]; [reflexivity|].
  cbn [Nat.ltb Nat.leb].
  replace (S before - 1)%nat with before by lia. reflexivity.
Qed.

(** The finished example trajectory sampled at 3/2: the third segment. *)
Lemma at_time_within_segment_witness :
  exists np' nv' na',
    Trajectory.at_time 1 Examples.finished (3 # 2) [0] [0] [0]
    = Some (np', nv', na', 0%nat)
    /\ (nth 0 np' 0, nth 0 nv' 0, nth 0 na' 0)
       = Profile.integrate ((3 # 2) - 1) 0 0 0 0.
Proof.
  destruct (Trajectory.at_time 1 Examples.finished (3 # 2) [0] [0] [0])
    as [[[[np' nv'] na'] new_section]|] eqn:Hat; [|discriminate Hat].
  destruct (at_time_within_segment 1 Examples.finished (3 # 2) [0] [0] [0]
              np' nv' na' new_section 0 Hat)
    as [-> [index [Hindex [Hlow [Hhigh Hvalue]]]]];
    try reflexivity; try (simpl; lia).
  { repeat (constructor; [|repeat (constructor; [discriminate|]); constructor]).
    constructor. }
  exists np', nv', na'. split; [reflexivity|].
  rewrite Hvalue.
  destruct index as [|[|[|index]]].
  - exfalso. vm_compute in Hhigh. discriminate.
  - exfalso. vm_compute in Hhigh. discriminate.
  - reflexivity.
  - exfalso. specialize (Hlow 2%nat ltac:(lia)). vm_compute in Hlow.
    apply Hlow. reflexivity.
Defined.

(** ** is_input_collinear *)

Section Collinear.
Variable inp : InputParameter.
Variable tr : Trajectory.






End Collinear.


(** ** Block: the order of the two profiles of an interval *)

(** X7: [add_interval] does not depend on the order of its two profiles
    unless their total durations tie: with different durations both orders
    give the same interval, with equal durations the interval carries the
    profile given first. *)
Theorem add_interval_order (l r : Profile) :
  (~ Profile.total_duration l == Profile.total_duration r ->
   Block.add_interval l r = Block.add_interval r l)
  /\ (Profile.total_duration l == Profile.total_duration r ->
      Block.profile (Block.add_interval l r) = l
      /\ Block.profile (Block.add_interval r l) = r).
Proof.
  unfold Block.add_interval.
  fold (Profile.total_duration l). fold (Profile.total_duration r).
  destruct (Qltb (Profile.total_duration l) (Profile.total_duration r)) eqn:E1;
    destruct (Qltb (Profile.total_duration r) (Profile.total_duration l)) eqn:E2.
  - apply Qltb_lt in E1, E2. exfalso.
    apply (Qlt_irrefl (Profile.total_duration l)).
    eapply Qlt_trans; eassumption.
  - apply Qltb_lt in E1. split; [reflexivity|].
    intros H. rewrite H in E1. exfalso. apply (Qlt_irrefl _ E1).
  - apply Qltb_lt in E2. split; [reflexivity|].
    intros H. rewrite H in E2. exfalso. apply (Qlt_irrefl _ E2).
  - apply Qltb_ge in E1, E2. split; [|auto].
    intros H. exfalso. apply H. apply Qle_antisym; assumption.
Qed.

(** ** synchronize: the floor *)

(** The duration [synchronize] commits is never below the floor. *)
Lemma synchronize_above_floor (n : nat) (blks : list Block) (f : Q)
    (ps : list Profile) (discrete_duration : bool) (delta_time : Q)
    (t_sync : double) (limiting_dof : Z) (ps' : list Profile) :
  Trajectory.synchronize n blks (Some f) ps discrete_duration delta_time
  = Some (t_sync, limiting_dof, ps') ->
  dle (Fin f) t_sync.
Proof.
  unfold Trajectory.synchronize, Trajectory.synchronize_with. rewrite andb_false_r. cbn [andb].
  destruct (Trajectory.scan _ _ _ _) as [i|] eqn:Escan; [|discriminate].
  destruct (Trajectory.take_profile _ _ _ _) as [lim ps2].
  intros H. injection H as <- _ _.
  destruct (scan_some _ _ _ _ _ Escan) as [before [after [_ [Hrej _]]]].
  apply rejected_false in Hrej. apply Hrej.
Qed.

(** ** calculate: the requested minimum duration *)

Section MinimumDuration.
Context {planner : Planner}.
Variable inp : InputParameter.

(** X16: When [calculate] commits a duration (it returns [Working] or
    [ErrorTrajectoryDuration]; the quantum is positive when the duration
    is discrete), the duration of the trajectory is the one [synchronize]
    handed back after the set-up loop, no later stage having changed it;
    and if the input asks for a minimum duration, the duration is not below
    it. *)
Theorem calculate_respects_minimum_duration (throw_error ret : bool)
    (delta_time : Q) (tr tr' : Trajectory) (out : Outcome)
    (calls : list Call) :
  (InputParameter.duration_discretization inp = Discrete -> 0 < delta_time) ->
  Trajectory.calculate throw_error ret inp delta_time tr = (out, tr', calls) ->
  out = Returns Working \/ out = Returns ErrorTrajectoryDuration ->
  (exists tr1 calls1 limiting_dof profiles',
     Trajectory.for_each (Trajectory.prepare_dof throw_error inp)
       (seq 0 (length (Trajectory.profiles tr))) tr = (tr1, calls1, None)
     /\ Trajectory.synchronize (Trajectory.degrees_of_freedom tr1)
          (Trajectory.blocks tr1) (InputParameter.minimum_duration inp)
          (Trajectory.profiles tr1)
          (match InputParameter.duration_discretization inp with
           | Discrete => true
           | Continuous => false
           end) delta_time
        = Some (Trajectory.get_duration tr', limiting_dof, profiles'))
  /\ (forall f, InputParameter.minimum_duration inp = Some f ->
        dle (Fin f) (Trajectory.get_duration tr')).
Proof.
  intros _ Hcalc Hout. unfold Trajectory.calculate in Hcalc.
  destruct (Trajectory.for_each (Trajectory.prepare_dof throw_error inp) _ tr)
    as [[tr1 c1] [o|]] eqn:Eprep.
  { injection Hcalc as -> _ _. exfalso.
    apply (for_each_outcome _
             (fun o => o <> Returns Working
                       /\ o <> Returns ErrorTrajectoryDuration))
      in Eprep; [destruct Eprep, Hout; contradiction|].
    intros s d s' cs o' Hb. unfold Trajectory.prepare_dof in Hb.
    destruct (negb (Trajectory.enabled_at inp d)); [discriminate|].
    revert Hb. split_pairs. destruct (negb _); [|discriminate].
    intros H. injection H as _ _ <-.
    destruct throw_error; split; discriminate. }
  destruct (Trajectory.synchronize _ _ _ _ _ _)
    as [[[t lim] ps]|] eqn:Esync.
  2:{ injection Hcalc as <- _ _.
      destruct throw_error, Hout; discriminate. }
  set (tr2 := Trajectory.set_duration t (Trajectory.set_profiles ps tr1)) in *.
  assert (Hfinal : forall s, same_plan tr2 s ->
            (exists tr1' calls1 limiting_dof profiles',
               (tr1, c1, @None Outcome) = (tr1', calls1, None)
               /\ Trajectory.synchronize (Trajectory.degrees_of_freedom tr1')
                    (Trajectory.blocks tr1')
                    (InputParameter.minimum_duration inp)
                    (Trajectory.profiles tr1')
                    (match InputParameter.duration_discretization inp with
                     | Discrete => true
                     | Continuous => false
                     end) delta_time
                  = Some (Trajectory.get_duration s, limiting_dof, profiles'))
            /\ (forall f, InputParameter.minimum_duration inp = Some f ->
                  dle (Fin f) (Trajectory.get_duration s))).
  { intros s [_ [_ D]]. unfold Trajectory.get_duration. rewrite D.
    split.
    - exists tr1, c1, lim, ps. split; [reflexivity | exact Esync].
    - intros f Hf. rewrite Hf in Esync.
      apply (synchronize_above_floor _ _ _ _ _ _ _ _ _ Esync). }
  destruct (ret && dlt (Fin 7600) (Trajectory.duration tr2)).
  { injection Hcalc as _ <- _. apply Hfinal. apply same_plan_refl. }
  destruct (dzero (Trajectory.duration tr2)).
  { injection Hcalc as _ <- _. apply Hfinal. apply same_plan_refl. }
  pose proof (for_each_same_plan _ (none_sync_dof_same_plan inp lim)
                (seq 0 (length (Trajectory.blocks tr2))) tr2) as Hnone.
  destruct (Trajectory.for_each (Trajectory.none_sync_dof inp lim) _ tr2)
    as [[tr3 c3] o3].
  cbn [fst] in Hnone.
  destruct (forallb Trajectory.is_none _).
  { injection Hcalc as _ <- _. apply Hfinal. exact Hnone. }
  pose proof (phase_then_time_same_plan inp throw_error lim tr3) as Hpt.
  destruct (Trajectory.phase_then_time throw_error inp lim tr3)
    as [[tr4 c4] o4].
  cbn [fst] in Hpt.
  destruct o4; injection Hcalc as _ <- _;
    apply Hfinal; eapply same_plan_trans; eassumption.
Qed.

End MinimumDuration.

(** [calculate] for the example with a floor of 8: the duration is 8. *)
Lemma calculate_respects_minimum_duration_witness :
  dle (Fin 8)
    (Trajectory.get_duration
       (snd (fst (@Trajectory.calculate Examples.stand_in false false
                    Examples.with_floor 0 (Examples.fresh 1))))).
Proof.
  refine (proj2 (@calculate_respects_minimum_duration Examples.stand_in
                   Examples.with_floor false false 0 (Examples.fresh 1)
                   _ (Returns Working) _ _ _ _) 8 _).
  - intros H. discriminate H.
  - vm_compute. reflexivity.
  - left. reflexivity.
  - reflexivity.
Defined.

(** ** Time synchronization: DoFs synchronized only if necessary *)

Section TimeIfNecessary.
Context {planner : Planner}.
Variable inp : InputParameter.
Variable limiting_dof : Z.
Variable dof : nat.
Hypothesis enabled : Trajectory.enabled_at inp dof = true.
Hypothesis not_limiting : Trajectory.is_limiting dof limiting_dof = false.

Lemma time_sync_dof_not_necessary (throw_error : bool) (s : Trajectory) :
  Trajectory.time_not_necessary inp s dof = true ->
  Trajectory.time_sync_dof throw_error inp limiting_dof s dof
  = (Trajectory.set_profiles
       (set (Trajectory.profiles s) dof
          (Block.p_min (Trajectory.block_at (Trajectory.blocks s) dof))) s,
     [], None).
Proof.
  intros Hn. unfold Trajectory.time_sync_dof.
  rewrite enabled, not_limiting, Hn. cbn [negb orb].
  unfold Trajectory.time_not_necessary in Hn.
  apply andb_true_iff in Hn. destruct Hn as [Hn _].
  apply andb_true_iff in Hn. destruct Hn as [Hn _].
  destruct (Trajectory.sync_at _ dof); try discriminate. reflexivity.
Qed.

Lemma time_sync_loop_not_necessary (throw_error : bool) :
  forall dofs s s' calls out,
    NoDup dofs ->
    Trajectory.for_each (Trajectory.time_sync_dof throw_error inp limiting_dof)
      dofs s = (s', calls, out) ->
    Trajectory.time_not_necessary inp s dof = true ->
    (dof < length (Trajectory.profiles s))%nat ->
    ~ In (call_step2 dof) calls
    /\ (In dof dofs -> out = None ->
        Trajectory.profile_at (Trajectory.profiles s') dof
        = Block.p_min (Trajectory.block_at (Trajectory.blocks s) dof)).
Proof.
  induction dofs as [|d rest IH]; intros s s' calls out Hnd H Hn Hlen.
  - simpl in H. injection H as <- <- _. split; [intros [] | intros []].
  - simpl in H. inversion Hnd as [|? ? Hnotin Hnd']; subst.
    destruct (Nat.eq_dec d dof) as [Heq | Hne].
    + subst d. rewrite (time_sync_dof_not_necessary throw_error s Hn) in H.
      destruct (Trajectory.for_each _ rest _) as [[s2 c2] o2] eqn:Er.
      injection H as <- <- <-.
      destruct (time_sync_loop_frame _ _ _ _ _ _ _ _ Er)
        as [[ps2 [-> [L2 K2]]] C2].
      cbn [Trajectory.profiles Trajectory.set_profiles app] in *.
      split.
      * intros Hc. destruct (C2 _ Hc) as [d' [Hd' Heq]].
        injection Heq as <-. contradiction.
      * intros _ _. rewrite (K2 dof Hnotin).
        unfold Trajectory.profile_at. apply nth_set_same. exact Hlen.
    + pose proof (time_sync_dof_frame throw_error inp limiting_dof s d) as Hf.
      destruct (Trajectory.time_sync_dof throw_error inp limiting_dof s d)
        as [[s1 c1] o1].
      destruct Hf as [[ps1 [-> [L1 K1]]] C1].
      assert (Hc1 : ~ In (call_step2 dof) c1).
      { intros Hc. apply C1 in Hc. injection Hc as <-. contradiction. }
      destruct o1 as [o|].
      * injection H as <- <- <-. split; [exact Hc1|]. intros _ Ho. discriminate.
      * destruct (Trajectory.for_each _ rest _) as [[s2 c2] o2] eqn:Er.
        injection H as <- <- <-.
        destruct (IH _ _ _ _ Hnd' Er Hn
                    ltac:(cbn [Trajectory.profiles Trajectory.set_profiles];
                          lia)) as [Hc2 Hp].
        split.
        -- intros Hc. apply in_app_or in Hc. destruct Hc; contradiction.
        -- intros [Heq | Hin] Ho; [congruence|]. apply Hp; assumption.
Qed.

(** X20: In the time synchronization loop of [calculate], an enabled DoF
    other than the limiting one that is synchronized [TimeIfNecessary] and
    whose target velocity and acceleration are zero within [eps] is never
    passed to Step 2, and when the loop runs to its end the DoF has the
    fastest profile of its block, whatever the duration of the trajectory
    is. *)
Theorem time_if_necessary_keeps_fastest (throw_error : bool)
    (tr tr' : Trajectory) (calls : list Call) (out : option Outcome) :
  Trajectory.for_each (Trajectory.time_sync_dof throw_error inp limiting_dof)
    (seq 0 (length (Trajectory.profiles tr))) tr = (tr', calls, out) ->
  (dof < length (Trajectory.profiles tr))%nat ->
  Trajectory.sync_at (Trajectory.inp_per_dof_synchronization tr) dof
  = Synchronization.TimeIfNecessary ->
  Qabs (get (InputParameter.target_velocity inp) dof) < eps ->
  Qabs (get (InputParameter.target_acceleration inp) dof) < eps ->
  ~ In (call_step2 dof) calls
  /\ (out = None ->
      Trajectory.profile_at (Trajectory.profiles tr') dof
      = Block.p_min (Trajectory.block_at (Trajectory.blocks tr) dof)).
Proof.
  intros Hloop Hlen Hsync Hv Ha.
  assert (Hn : Trajectory.time_not_necessary inp tr dof = true).
  { unfold Trajectory.time_not_necessary. rewrite Hsync.
    apply Qltb_lt in Hv, Ha. rewrite Hv, Ha. reflexivity. }
  destruct (time_sync_loop_not_necessary throw_error _ _ _ _ _
              (seq_NoDup _ _) Hloop Hn Hlen) as [Hc Hp].
  split; [exact Hc|]. intros Ho. apply Hp; [|exact Ho].
  apply in_seq. lia.
Qed.

End TimeIfNecessary.

(** The second DoF of the example is synchronized only if necessary and
    comes to rest: it keeps its fastest profile of duration 2 although the
    trajectory takes 5. *)
Lemma time_if_necessary_keeps_fastest_witness :
  ~ In (call_step2 1)
      (snd (fst (Trajectory.for_each
                   (@Trajectory.time_sync_dof Examples.stand_in false
                      Examples.first_plan 0)
                   (seq 0 2) Examples.if_necessary)))
  /\ (snd (Trajectory.for_each
             (@Trajectory.time_sync_dof Examples.stand_in false
                Examples.first_plan 0)
             (seq 0 2) Examples.if_necessary) = None ->
      Trajectory.profile_at
        (Trajectory.profiles
           (fst (fst (Trajectory.for_each
                        (@Trajectory.time_sync_dof Examples.stand_in false
                           Examples.first_plan 0)
                        (seq 0 2) Examples.if_necessary)))) 1
      = Block.p_min
          (Trajectory.block_at (Trajectory.blocks Examples.if_necessary) 1)).
Proof.
  apply (@time_if_necessary_keeps_fastest Examples.stand_in
           Examples.first_plan 0 1 eq_refl eq_refl false
           Examples.if_necessary).
  - vm_compute. reflexivity.
  - simpl. lia.
  - reflexivity.
  - reflexivity.
  - reflexivity.
Defined.

(** ** Block: a failure that has overwritten the block *)

(** X6: When [calculate_block] returns [false], the block passed in is left
    alone only on the paths that return before the fastest profile is looked
    up (an even count other than two).  With two profiles that are not
    within [8 eps] in the instantiation that is not [numerical_robust], and
    with an odd count from seven on, the block has been overwritten with
    [Block(p)] for the fastest valid profile [p], without intervals. *)
Theorem calculate_block_failure (robust : bool) (block0 : Block)
    (vps : list Profile) (counter : nat) :
  snd (Block.calculate_block robust block0 vps counter) = false ->
  fst (Block.calculate_block robust block0 vps counter)
  = if Nat.eqb counter 2 || Nat.odd counter
    then Block.Block_of
           (Block.vp vps (Block.min_element (firstn counter vps)))
    else block0.
Proof.
  unfold Block.calculate_block.
  assert (Hassemble : forall c,
            snd (Block.assemble vps c) = false ->
            fst (Block.assemble vps c)
            = Block.Block_of
                (Block.vp vps (Block.min_element (firstn c vps)))).
  { intros c. unfold Block.assemble.
    destruct (Nat.eqb c 3); [discriminate|].
    destruct (Nat.eqb c 5); [|reflexivity].
    destruct (Direction_eqb _ _); discriminate. }
  assert (Hremoved : forall index,
            snd (let (vps', c') := Block.remove_profile vps 4 index in
                 Block.assemble vps' c') = false ->
            False).
  { intros index. unfold Block.remove_profile, Block.assemble.
    cbn [Nat.sub Nat.eqb]. discriminate. }
  destruct (Nat.eqb counter 1) eqn:E1; [discriminate|].
  destruct (Nat.eqb counter 2) eqn:E2.
  { apply Nat.eqb_eq in E2. subst counter. cbn [orb].
    destruct (Block.t_sum_close 8 _ _); [discriminate|].
    destruct robust; [discriminate|]. apply Hassemble. }
  cbn [orb].
  destruct (Nat.eqb counter 4) eqn:E4.
  { apply Nat.eqb_eq in E4. subst counter. cbn [Nat.odd Nat.even negb].
    destruct (_ && _); [intros H; destruct (Hremoved _ H)|].
    destruct (_ && _); [intros H; destruct (Hremoved _ H)|].
    destruct (_ && _); [intros H; destruct (Hremoved _ H)|].
    reflexivity. }
  destruct (Nat.eqb (counter mod 2) 0) eqn:Em.
  - apply Nat.eqb_eq in Em.
    assert (Ho : Nat.odd counter = false).
    { unfold Nat.odd. apply negb_false_iff. apply Nat.even_spec.
      exists (counter / 2)%nat.
      pose proof (Nat.div_mod_eq counter 2). lia. }
    rewrite Ho. reflexivity.
  - apply Nat.eqb_neq in Em.
    assert (Ho : Nat.odd counter = true).
    { destruct (Nat.odd counter) eqn:Eo; [reflexivity|]. exfalso. apply Em.
      unfold Nat.odd in Eo. apply negb_false_iff in Eo.
      apply Nat.even_spec in Eo. destruct Eo as [k ->].
      rewrite Nat.mul_comm. apply Nat.Div0.mod_mul. }
    rewrite Ho. apply Hassemble.
Qed.

(** Two valid profiles that differ by a second, not [numerical_robust]:
    the call fails and the block holds the faster of the two. *)
Lemma calculate_block_failure_witness :
  fst (Block.calculate_block false (Block.Block_of Profile.zero)
         Examples.five_profiles 2)
  = Block.Block_of (Examples.profile_of 1 0 UP).
Proof.
  apply (calculate_block_failure false (Block.Block_of Profile.zero)
           Examples.five_profiles 2).
  reflexivity.
Defined.

(** ** Phase synchronization *)

Section PhaseSynchronization.
Context {planner : Planner}.
Variable inp : InputParameter.
Variable limiting_dof : Z.

Lemma limiting_profile_set (ps : list Profile) (d : nat) (x : Profile) :
  Trajectory.is_limiting d limiting_dof = false ->
  Trajectory.limiting_profile (set ps d x) limiting_dof
  = Trajectory.limiting_profile ps limiting_dof.
Proof.
  unfold Trajectory.is_limiting, Trajectory.limiting_profile.
  intros H. apply Z.eqb_neq in H.
  destruct (Z.ltb limiting_dof 0) eqn:E; [reflexivity|].
  apply Z.ltb_ge in E. unfold Trajectory.profile_at.
  apply nth_set_other. lia.
Qed.

(** One round of the phase synchronization loop. *)
Lemma phase_sync_dof_round (s : Trajectory) (calls : list Call)
    (found : bool) (d : nat) :
  let '(s', calls', _) :=
    Trajectory.phase_sync_dof inp limiting_dof (s, calls, found) d in
  Trajectory.inp_per_dof_synchronization s'
  = Trajectory.inp_per_dof_synchronization s
  /\ length (Trajectory.profiles s') = length (Trajectory.profiles s)
  /\ Trajectory.limiting_profile (Trajectory.profiles s') limiting_dof
     = Trajectory.limiting_profile (Trajectory.profiles s) limiting_dof
  /\ (forall k, k <> d ->
        Trajectory.profile_at (Trajectory.profiles s') k
        = Trajectory.profile_at (Trajectory.profiles s) k)
  /\ (if phase_checked inp limiting_dof s d
      then calls' = calls ++ [call_check_with_timing d]
           /\ ((d < length (Trajectory.profiles s))%nat ->
               Profile.limits (Trajectory.profile_at (Trajectory.profiles s') d)
               = Profile.limits
                   (Trajectory.limiting_profile (Trajectory.profiles s)
                      limiting_dof))
      else calls' = calls /\ s' = s).
Proof.
  unfold Trajectory.phase_sync_dof, phase_checked, phase_synchronized.
  destruct (Trajectory.enabled_at inp d); cbn [negb orb andb]; [|auto 10].
  destruct (Trajectory.is_limiting d limiting_dof) eqn:El;
    cbn [negb orb andb]; [auto 10|].
  destruct (Synchronization.eqb _ _); cbn [negb]; [|auto 10].
  destruct (check_with_timing _ _ _ _ _ _ _ _ _) as [ok p3].
  cbn [Trajectory.profiles Trajectory.set_profiles
       Trajectory.inp_per_dof_synchronization].
  split; [reflexivity|]. split; [rewrite !set_length; reflexivity|].
  split; [rewrite !limiting_profile_set by exact El; reflexivity|].
  split.
  { intros k Hk. unfold Trajectory.profile_at.
    rewrite !nth_set_other by congruence. reflexivity. }
  split; [reflexivity|]. intros Hlen.
  unfold Trajectory.profile_at at 1.
  rewrite nth_set_same by (rewrite set_length; exact Hlen).
  cbn [Profile.limits Profile.set_limits].
  rewrite limiting_profile_set by exact El. reflexivity.
Qed.

(** The phase synchronization loop over DoFs without repetition. *)
Lemma phase_loop_rounds :
  forall dofs s calls found,
    NoDup dofs ->
    let '(s', calls', _) :=
      fold_left (Trajectory.phase_sync_dof inp limiting_dof) dofs
        (s, calls, found) in
    Trajectory.inp_per_dof_synchronization s'
    = Trajectory.inp_per_dof_synchronization s
    /\ length (Trajectory.profiles s') = length (Trajectory.profiles s)
    /\ Trajectory.limiting_profile (Trajectory.profiles s') limiting_dof
       = Trajectory.limiting_profile (Trajectory.profiles s) limiting_dof
    /\ calls' = calls ++ map call_check_with_timing
                          (filter (phase_checked inp limiting_dof s) dofs)
    /\ (forall k, ~ In k dofs \/ phase_checked inp limiting_dof s k = false ->
          Trajectory.profile_at (Trajectory.profiles s') k
          = Trajectory.profile_at (Trajectory.profiles s) k)
    /\ (forall k, In k dofs -> phase_checked inp limiting_dof s k = true ->
          (k < length (Trajectory.profiles s))%nat ->
          Profile.limits (Trajectory.profile_at (Trajectory.profiles s') k)
          = Profile.limits
              (Trajectory.limiting_profile (Trajectory.profiles s)
                 limiting_dof)).
Proof.
  induction dofs as [|d rest IH]; intros s calls found Hnd.
  - simpl. rewrite app_nil_r. repeat split; auto. intros k [].
  - inversion Hnd as [|? ? Hnotin Hnd']; subst. cbn [fold_left].
    pose proof (phase_sync_dof_round s calls found d) as Hd.
    destruct (Trajectory.phase_sync_dof inp limiting_dof (s, calls, found) d)
      as [[s1 c1] f1].
    destruct Hd as [S1 [L1 [M1 [K1 R1]]]].
    specialize (IH s1 c1 f1 Hnd').
    destruct (fold_left _ rest (s1, c1, f1)) as [[s2 c2] f2].
    destruct IH as [S2 [L2 [M2 [C2 [K2 R2]]]]].
    assert (Hsame : forall k, phase_checked inp limiting_dof s1 k
                              = phase_checked inp limiting_dof s k).
    { intros k. unfold phase_checked, phase_synchronized. rewrite S1.
      reflexivity. }
    split; [congruence|]. split; [congruence|]. split; [congruence|].
    split.
    { rewrite C2. rewrite (filter_ext _ _ Hsame). cbn [filter].
      destruct (phase_checked inp limiting_dof s d).
      - destruct R1 as [-> _]. rewrite <- app_assoc. reflexivity.
      - destruct R1 as [-> _]. reflexivity. }
    split.
    { intros k Hk.
      destruct (Nat.eq_dec k d) as [-> | Hne].
      - destruct Hk as [Hk | Hk]; [exfalso; apply Hk; left; reflexivity|].
        rewrite Hk in R1. destruct R1 as [_ ->].
        apply K2. left. exact Hnotin.
      - rewrite K2.
        + apply K1. exact Hne.
        + destruct Hk as [Hk | Hk].
          * left. intros Hin. apply Hk. right. exact Hin.
          * right. rewrite Hsame. exact Hk. }
    intros k [Heq | Hin] Hk Hlen.
    + subst k. rewrite Hk in R1. destruct R1 as [_ R1].
      rewrite K2 by (left; exact Hnotin). apply R1. exact Hlen.
    + rewrite R2; [congruence | exact Hin | rewrite Hsame; exact Hk | lia].
Qed.

(** The flag of the loop stays [true] when the timing check accepts every
    profile. *)
Lemma phase_loop_found :
  (forall signs p tf jf vMax vMin aMax aMin jMax,
      fst (check_with_timing signs p tf jf vMax vMin aMax aMin jMax) = true) ->
  forall dofs s calls,
    snd (fold_left (Trajectory.phase_sync_dof inp limiting_dof) dofs
           (s, calls, true)) = true.
Proof.
  intros Hall. induction dofs as [|d rest IH]; intros s calls; [reflexivity|].
  cbn [fold_left]. unfold Trajectory.phase_sync_dof at 2.
  destruct (_ || _); [apply IH|].
  match goal with
  | |- context [check_with_timing ?a ?b ?c ?d ?e ?f ?g ?h ?i] =>
      pose proof (Hall a b c d e f g h i) as Hok;
      destruct (check_with_timing a b c d e f g h i) as [ok p3]
  end.
  cbn [fst] in Hok. subst ok. apply IH.
Qed.

(** X19: The phase synchronization block of [calculate], for a limiting DoF
    that is an index of the vectors.  The block goes into its loop when
    some DoF is phase-synchronized, every DoF is in position control and
    [is_input_collinear] answers [true]; then it calls the timing check
    exactly for the DoFs that are enabled, phase-synchronized and not the
    limiting one, once each in ascending order, and each of these DoFs
    ends with the limits of the limiting profile.  Otherwise it makes no
    call, reports no success and leaves all profiles alone.  The profiles
    of the DoFs that are not checked are left as they were in every case.
    It reports success only if it went into the loop and every DoF is
    synchronized by [Phase] or [None]; if the timing check accepts every
    profile, it reports success exactly then. *)
Theorem phase_synchronization_checks (tr : Trajectory) :
  is_index limiting_dof (length (Trajectory.profiles tr)) ->
  is_index limiting_dof (length (Trajectory.pd tr)) ->
  is_index limiting_dof (length (InputParameter.max_jerk inp)) ->
  let attempted :=
    existsb Trajectory.is_phase (Trajectory.inp_per_dof_synchronization tr)
    && forallb Trajectory.is_position
         (Trajectory.inp_per_dof_control_interface tr)
    && fst (Trajectory.is_input_collinear inp tr (InputParameter.max_jerk inp)
              (Profile.direction
                 (Trajectory.limiting_profile (Trajectory.profiles tr)
                    limiting_dof))
              limiting_dof) in
  let '(tr', calls, done) :=
    Trajectory.phase_synchronization inp limiting_dof tr in
  let checked :=
    filter (phase_checked inp limiting_dof tr)
      (seq 0 (length (Trajectory.profiles tr))) in
  calls = (if attempted then map call_check_with_timing checked else [])
  /\ (forall d, phase_checked inp limiting_dof tr d = false ->
        Trajectory.profile_at (Trajectory.profiles tr') d
        = Trajectory.profile_at (Trajectory.profiles tr) d)
  /\ (attempted = false ->
      done = false /\ Trajectory.profiles tr' = Trajectory.profiles tr)
  /\ (attempted = true ->
      forall d, In d checked ->
        Profile.limits (Trajectory.profile_at (Trajectory.profiles tr') d)
        = Profile.limits
            (Trajectory.limiting_profile (Trajectory.profiles tr')
               limiting_dof))
  /\ (done = true ->
      attempted = true
      /\ forallb (fun s => Trajectory.is_phase s || Trajectory.is_none s)
           (Trajectory.inp_per_dof_synchronization tr) = true)
  /\ ((forall signs p tf jf vMax vMin aMax aMin jMax,
          fst (check_with_timing signs p tf jf vMax vMin aMax aMin jMax)
          = true) ->
      done = attempted
             && forallb (fun s => Trajectory.is_phase s || Trajectory.is_none s)
                  (Trajectory.inp_per_dof_synchronization tr)).
Proof.
  intros _ _ _. unfold Trajectory.phase_synchronization.
  destruct (existsb Trajectory.is_phase _) eqn:Ephase; cbn [andb].
  2:{ split; [reflexivity|]. split; [reflexivity|].
      split; [intros _; split; reflexivity|].
      split; [intros H; discriminate|].
      split; [intros H; discriminate | reflexivity]. }
  destruct (forallb Trajectory.is_position _) eqn:Eposition.
  2:{ split; [reflexivity|]. split; [reflexivity|].
      split; [intros _; split; reflexivity|].
      split; [intros H; discriminate|].
      split; [intros H; discriminate | reflexivity]. }
  assert (Hc : forall jMax direction,
            let s := snd (Trajectory.is_input_collinear inp tr jMax direction
                            limiting_dof) in
            Trajectory.profiles s = Trajectory.profiles tr
            /\ Trajectory.inp_per_dof_synchronization s
               = Trajectory.inp_per_dof_synchronization tr).
  { intros jMax direction. unfold Trajectory.is_input_collinear.
    destruct (Trajectory.collinear_scales _ _ _ _ _) as [pd' [scales|]].
    - destruct (Trajectory.collinear_check _ _ _ _ _ _ _ _) as [jerk' ok].
      cbn. auto.
    - cbn. auto. }
  specialize (Hc (InputParameter.max_jerk inp)
                (Profile.direction
                   (Trajectory.limiting_profile (Trajectory.profiles tr)
                      limiting_dof))).
  destruct (Trajectory.is_input_collinear _ _ _ _ _) as [collinear s1].
  cbn [snd fst] in *. destruct Hc as [P1 S1].
  destruct collinear.
  2:{ split; [reflexivity|].
      split; [intros d _; rewrite P1; reflexivity|].
      split; [intros _; split; [reflexivity | exact P1]|].
      split; [intros H; discriminate|].
      split; [intros H; discriminate | reflexivity]. }
  pose proof (phase_loop_rounds (seq 0 (length (Trajectory.profiles tr)))
                s1 [] true (seq_NoDup _ _)) as Hloop.
  pose proof (fun Hall => phase_loop_found Hall
                (seq 0 (length (Trajectory.profiles tr))) s1 []) as Hfound.
  destruct (fold_left _ _ _) as [[s2 c2] found].
  cbn [snd] in Hfound.
  destruct Hloop as [S2 [L2 [M2 [C2 [K2 R2]]]]].
  assert (Hsame : forall k, phase_checked inp limiting_dof s1 k
                            = phase_checked inp limiting_dof tr k).
  { intros k. unfold phase_checked, phase_synchronized. rewrite S1.
    reflexivity. }
  rewrite (filter_ext _ _ Hsame) in C2. cbn [app] in C2.
  assert (Hsync : Trajectory.inp_per_dof_synchronization s2
                  = Trajectory.inp_per_dof_synchronization tr)
    by congruence.
  rewrite Hsync.
  split; [exact C2|]. split.
  { intros d Hd. rewrite K2 by (right; rewrite Hsame; exact Hd).
    rewrite P1. reflexivity. }
  split; [intros H; discriminate|].
  split.
  { intros _ d Hd. apply filter_In in Hd. destruct Hd as [Hin Hd].
    apply in_seq in Hin. rewrite M2. apply R2.
    - apply in_seq. lia.
    - rewrite Hsame. exact Hd.
    - rewrite P1. lia. }
  split.
  { intros Hdone. apply andb_true_iff in Hdone. destruct Hdone as [_ Hall].
    split; [reflexivity | exact Hall]. }
  intros Hall. rewrite (Hfound Hall). reflexivity.
Qed.

End PhaseSynchronization.

(** The two DoFs in phase, the first one limiting: the timing check is
    called for the second DoF, and only for it. *)
Lemma phase_synchronization_checks_witness :
  snd (fst (@Trajectory.phase_synchronization Examples.stand_in
              Examples.in_phase 0 Examples.phased))
  = [call_check_with_timing 1].
Proof.
  pose proof (@phase_synchronization_checks Examples.stand_in
                Examples.in_phase 0 Examples.phased) as H.
  destruct (@Trajectory.phase_synchronization Examples.stand_in
              Examples.in_phase 0 Examples.phased) as [[tr' calls] done].
  destruct H as [H _].
  - unfold is_index. simpl. lia.
  - unfold is_index. simpl. lia.
  - unfold is_index. simpl. lia.
  - cbn [fst snd]. rewrite H. vm_compute. reflexivity.
Defined.

(** ** Step 1: the candidate that saturates all three limits *)

Section Step1Properties.
Variable Power : Q -> Z -> Q.
Hypothesis Power_2 : forall x, Power x 2 == x * x.

(** X23: The closed form of [time_up_acc0_acc1_vel] is a solution: for
    limits other than zero, the seven segments it computes, run with the
    jerks it sets, take the DoF from [(p0, v0, a0)] to exactly [(pf, vf,
    af)]; the acceleration is [aMax] after the first segment, the velocity
    is [vMax] at zero acceleration after the third and after the fourth, and
    the acceleration is [-aMax] after the fifth.  ([time_down_acc0_acc1_vel]
    is the same computation with the three limits negated.) *)
Theorem acc0_acc1_vel_reaches_target (s : Step1.Step1) (vMax aMax jMax : Q) :
  ~ vMax == 0 -> ~ aMax == 0 -> ~ jMax == 0 ->
  let ts := Step1.acc0_acc1_vel_times Power s vMax aMax jMax in
  let js := Step1.acc0_acc1_vel_jerks jMax in
  let start := (Step1.p0 s, Step1.v0 s, Step1.a0 s) in
  (let '(p, v, a) := run_segments ts js start in
   p == Step1.pf s /\ v == Step1.vf s /\ a == Step1.af s)
  /\ (let '(_, _, a) := run_segments (firstn 1 ts) js start in a == aMax)
  /\ (let '(_, v, a) := run_segments (firstn 3 ts) js start in
      v == vMax /\ a == 0)
  /\ (let '(_, v, a) := run_segments (firstn 4 ts) js start in
      v == vMax /\ a == 0)
  /\ (let '(_, _, a) := run_segments (firstn 5 ts) js start in a == - aMax).
Proof.
  intros Hv Ha Hj.
  unfold Step1.acc0_acc1_vel_times, Step1.acc0_acc1_vel_jerks.
  cbn [firstn run_segments Profile.integrate].
  rewrite !Power_2.
  split; [split; [|split]|]; [field; auto ..|].
  split; [field; auto|].
  split; [split; field; auto|].
  split; [split; field; auto|].
  field; auto.
Qed.

(** X24: The DOWN candidate of a problem has the segment times of the UP
    candidate of the mirrored problem, and [time_down_acc0_acc1_vel] called
    with a positive [jMax] leaves in [valid_profiles] what was there,
    followed at most by one profile, tagged [ACC0_ACC1_VEL] with direction
    [DOWN]. *)
Theorem time_down_acc0_acc1_vel_mirrors
    (profile_set : list Q -> Profile -> Profile)
    (profile_check : Profile -> Q -> Q -> Q -> Q -> Q -> bool)
    (s : Step1.Step1) (profile : Profile) (vMax aMax jMax : Q) :
  ~ vMax == 0 -> ~ aMax == 0 -> 0 < jMax ->
  Forall2 Qeq
    (Step1.acc0_acc1_vel_times Power s (- vMax) (- aMax) (- jMax))
    (Step1.acc0_acc1_vel_times Power (mirrored s) vMax aMax jMax)
  /\ let s' := fst (Step1.time_down_acc0_acc1_vel Power profile_set
                      profile_check s profile vMax aMax jMax) in
     Step1.valid_profiles s' = Step1.valid_profiles s
     \/ exists q,
          Step1.valid_profiles s' = Step1.valid_profiles s ++ [q]
          /\ Profile.limits q = ACC0_ACC1_VEL
          /\ Profile.direction q = DOWN.
Proof.
  intros Hv Ha Hj.
  assert (Hj0 : ~ jMax == 0).
  { intros H. rewrite H in Hj. apply (Qlt_irrefl _ Hj). }
  split.
  - unfold Step1.acc0_acc1_vel_times, mirrored.
    cbn [Step1.p0 Step1.v0 Step1.a0 Step1.pf Step1.vf Step1.af].
    repeat (constructor; [rewrite ?Power_2; field; auto|]). constructor.
  - unfold Step1.time_down_acc0_acc1_vel, Step1.time_up_acc0_acc1_vel.
    destruct (profile_check _ _ _ _ _ _); [|left; reflexivity].
    right. unfold Step1.add_profile. eexists.
    cbn [fst Step1.valid_profiles Step1.set_valid_profiles].
    split; [reflexivity|].
    assert (Hneg : Qltb 0 (- jMax) = false).
    { apply Qltb_ge. lra. }
    rewrite Hneg. split; reflexivity.
Qed.

End Step1Properties.

(** From rest at 0 to rest at 5 with all limits 1: the segments
    [1, 0, 1, 3, 1, 0, 1] end at position 5 at rest. *)
Lemma acc0_acc1_vel_reaches_target_witness :
  let '(p, v, a) :=
    run_segments
      (Step1.acc0_acc1_vel_times (fun x _ => x * x) Examples.rest_to_five 1 1 1)
      (Step1.acc0_acc1_vel_jerks 1) (0, 0, 0) in
  p == 5 /\ v == 0 /\ a == 0.
Proof.
  refine (proj1 (acc0_acc1_vel_reaches_target (fun x _ => x * x)
                   (fun x => Qeq_refl (x * x)) Examples.rest_to_five 1 1 1
                   _ _ _));
    intros H; discriminate H.
Defined.

(** The mirrored problem for the same DoF. *)
Lemma time_down_acc0_acc1_vel_mirrors_witness :
  Forall2 Qeq
    (Step1.acc0_acc1_vel_times (fun x _ => x * x) Examples.rest_to_five
       (- (1)) (- (1)) (- (1)))
    (Step1.acc0_acc1_vel_times (fun x _ => x * x)
       (mirrored Examples.rest_to_five) 1 1 1).
Proof.
  refine (proj1 (time_down_acc0_acc1_vel_mirrors (fun x _ => x * x)
                   (fun x => Qeq_refl (x * x)) (fun _ p => p)
                   (fun _ _ _ _ _ _ => true) Examples.rest_to_five
                   Profile.zero 1 1 1 _ _ _)).
  - intros H; discriminate H.
  - intros H; discriminate H.
  - reflexivity.
Defined.

(** ** synchronize: blocks without intervals *)



(** ** calculate: the limiting DoF *)

Section LimitingDoF.
Context {planner : Planner}.
Variable inp : InputParameter.
Variable limiting_dof : Z.
Variable dof : nat.
Hypothesis limiting : Trajectory.is_limiting dof limiting_dof = true.

Lemma for_each_passes_limiting (body : Trajectory -> nat -> Trajectory.Step) :
  (forall s d, let '(s', calls, _) := body s d in passes_over dof s s' calls) ->
  forall dofs s,
    let '(s', calls, _) := Trajectory.for_each body dofs s in
    passes_over dof s s' calls.
Proof.
  intros Hbody. induction dofs as [|d rest IH]; intros s; simpl.
  - apply passes_over_refl.
  - specialize (Hbody s d).
    destruct (body s d) as [[s1 c1] [o|]]; [exact Hbody|].
    specialize (IH s1).
    destruct (Trajectory.for_each body rest s1) as [[s2 c2] o2].
    eapply passes_over_trans; eassumption.
Qed.

Lemma none_sync_dof_passes_limiting (s : Trajectory) (d : nat) :
  let '(s', calls, _) := Trajectory.none_sync_dof inp limiting_dof s d in
  passes_over dof s s' calls.
Proof.
  unfold Trajectory.none_sync_dof.
  destruct (Nat.eq_dec d dof) as [Heq | Hd].
  { subst d. rewrite limiting. cbn [negb andb]. rewrite andb_false_r.
    apply passes_over_refl. }
  destruct (_ && _); [|apply passes_over_refl].
  apply passes_over_set_profile; [exact Hd | intros c []].
Qed.

Lemma time_sync_dof_passes_limiting (throw_error : bool) (s : Trajectory)
    (d : nat) :
  let '(s', calls, _) :=
    Trajectory.time_sync_dof throw_error inp limiting_dof s d in
  passes_over dof s s' calls.
Proof.
  unfold Trajectory.time_sync_dof.
  destruct (Nat.eq_dec d dof) as [Heq | Hd].
  { subst d. rewrite limiting. rewrite orb_true_r. cbn [orb].
    apply passes_over_refl. }
  destruct (_ || _); [apply passes_over_refl|].
  destruct (Trajectory.time_not_necessary inp s d).
  { apply passes_over_set_profile; [exact Hd | intros c []]. }
  destruct (Trajectory.extremal_profile _ _).
  { apply passes_over_set_profile; [exact Hd | intros c []]. }
  split_pairs.
  destruct (negb _); (apply passes_over_set_profile; [exact Hd|]);
    intros c [<- | []]; reflexivity.
Qed.

Lemma phase_loop_passes_limiting (s0 : Trajectory) :
  forall dofs acc,
    passes_over dof s0 (fst (fst acc)) (snd (fst acc)) ->
    passes_over dof s0
      (fst (fst (fold_left (Trajectory.phase_sync_dof inp limiting_dof)
                   dofs acc)))
      (snd (fst (fold_left (Trajectory.phase_sync_dof inp limiting_dof)
                   dofs acc))).
Proof.
  induction dofs as [|d rest IH]; intros acc Hk; simpl; [exact Hk|].
  apply IH. destruct acc as [[s calls] found]. cbn [fst snd] in *.
  unfold Trajectory.phase_sync_dof.
  destruct (Nat.eq_dec d dof) as [Heq | Hd].
  { subst d. rewrite limiting. rewrite orb_true_r. cbn [orb]. exact Hk. }
  destruct (_ || _); [exact Hk|].
  destruct (check_with_timing _ _ _ _ _ _ _ _ _) as [ok p3]. cbn [fst snd].
  eapply passes_over_trans; [exact Hk|].
  eapply (passes_over_trans _ _ _ _ [] [call_check_with_timing d]).
  - apply passes_over_set_profile; [exact Hd | intros c []].
  - apply passes_over_set_profile; [exact Hd|]. intros c [<- | []]. reflexivity.
Qed.

Lemma phase_then_time_passes_limiting (throw_error : bool) (s : Trajectory) :
  let '(s', calls, _) :=
    Trajectory.phase_then_time throw_error inp limiting_dof s in
  passes_over dof s s' calls.
Proof.
  unfold Trajectory.phase_then_time.
  assert (Hphase : let '(s', calls, _) :=
                     Trajectory.phase_synchronization inp limiting_dof s in
                   passes_over dof s s' calls).
  { unfold Trajectory.phase_synchronization.
    destruct (_ && _); [|apply passes_over_refl].
    assert (Hc : forall jMax direction,
              passes_over dof s
                (snd (Trajectory.is_input_collinear inp s jMax direction
                        limiting_dof)) []).
    { intros jMax direction. unfold Trajectory.is_input_collinear.
      destruct (Trajectory.collinear_scales _ _ _ _ _) as [pd' [scales|]].
      - destruct (Trajectory.collinear_check _ _ _ _ _ _ _ _) as [jerk' ok].
        unfold passes_over. cbn. repeat split; auto.
      - unfold passes_over. cbn. repeat split; auto. }
    specialize (Hc (InputParameter.max_jerk inp)
                  (Profile.direction
                     (Trajectory.limiting_profile (Trajectory.profiles s)
                        limiting_dof))).
    destruct (Trajectory.is_input_collinear _ _ _ _ _) as [collinear s1].
    cbn [snd] in Hc.
    destruct collinear; [|exact Hc].
    pose proof (phase_loop_passes_limiting s
                  (seq 0 (length (Trajectory.profiles s))) (s1, [], true) Hc)
      as Hl.
    destruct (fold_left _ _ _) as [[s2 c2] found]. exact Hl. }
  destruct (Trajectory.phase_synchronization inp limiting_dof s)
    as [[s1 c1] done].
  destruct done; [exact Hphase|].
  pose proof (for_each_passes_limiting _
                (time_sync_dof_passes_limiting throw_error)
                (seq 0 (length (Trajectory.profiles s))) s1) as Ht.
  destruct (Trajectory.for_each _ _ s1) as [[s2 c2] o2].
  eapply passes_over_trans; eassumption.
Qed.

(** X17: The DoF that [synchronize] selects as the limiting one needs no
    Step 2: once the set-up loop and [synchronize] have succeeded,
    [calculate] leaves the profile that [synchronize] assigned to it as it
    is, however the call ends, and calls neither the timing check nor Step 2
    for it. *)
Theorem limiting_dof_needs_no_step2 (throw_error ret : bool) (delta_time : Q)
    (tr tr1 : Trajectory) (calls1 : list Call) (t_sync : double)
    (profiles' : list Profile) :
  Trajectory.for_each (Trajectory.prepare_dof throw_error inp)
    (seq 0 (length (Trajectory.profiles tr))) tr = (tr1, calls1, None) ->
  Trajectory.synchronize (Trajectory.degrees_of_freedom tr1)
    (Trajectory.blocks tr1) (InputParameter.minimum_duration inp)
    (Trajectory.profiles tr1)
    (match InputParameter.duration_discretization inp with
     | Discrete => true
     | Continuous => false
     end) delta_time
  = Some (t_sync, limiting_dof, profiles') ->
  let '(_, tr', calls) :=
    Trajectory.calculate throw_error ret inp delta_time tr in
  Trajectory.profile_at (Trajectory.profiles tr') dof
  = Trajectory.profile_at profiles' dof
  /\ ~ In (call_check_with_timing dof) calls
  /\ ~ In (call_step2 dof) calls.
Proof.
  intros Hprep Hsync. unfold Trajectory.calculate.
  pose proof (prepare_loop_calls inp throw_error
                (length (Trajectory.profiles tr)) 0 tr) as Hcalls.
  rewrite Hprep in *. rewrite Hsync.
  destruct Hcalls as [_ Hcalls].
  set (tr2 := Trajectory.set_duration t_sync
                (Trajectory.set_profiles profiles' tr1)).
  assert (Hsetup : forall c, In c calls1 ->
            c <> call_check_with_timing dof /\ c <> call_step2 dof).
  { intros c Hc. rewrite Hcalls in Hc.
    destruct (in_setup_calls _ _ _ Hc) as [d [-> | ->]]; split; discriminate. }
  assert (Hdone : forall (s : Trajectory) (later : list Call),
            passes_over dof tr2 s later ->
            Trajectory.profile_at (Trajectory.profiles s) dof
            = Trajectory.profile_at profiles' dof
            /\ ~ In (call_check_with_timing dof) (calls1 ++ later)
            /\ ~ In (call_step2 dof) (calls1 ++ later)).
  { intros s later [P [_ [_ [_ C]]]].
    split; [rewrite P; reflexivity|].
    split; intros Hin; apply in_app_or in Hin; destruct Hin as [Hin | Hin].
    - apply (proj1 (Hsetup _ Hin)). reflexivity.
    - apply (C _ Hin). reflexivity.
    - apply (proj2 (Hsetup _ Hin)). reflexivity.
    - apply (C _ Hin). reflexivity. }
  assert (Hearly : Trajectory.profile_at (Trajectory.profiles tr2) dof
                   = Trajectory.profile_at profiles' dof
                   /\ ~ In (call_check_with_timing dof) calls1
                   /\ ~ In (call_step2 dof) calls1).
  { specialize (Hdone tr2 [] (passes_over_refl dof tr2)).
    rewrite app_nil_r in Hdone. exact Hdone. }
  destruct (ret && _); [exact Hearly|].
  destruct (dzero _); [exact Hearly|].
  pose proof (for_each_passes_limiting _ none_sync_dof_passes_limiting
                (seq 0 (length (Trajectory.blocks tr2))) tr2) as Hnone.
  destruct (Trajectory.for_each (Trajectory.none_sync_dof inp limiting_dof)
              _ tr2) as [[tr3 c3] o3].
  destruct (forallb _ _).
  { destruct Hnone as [P [B [S [L _]]]].
    specialize (Hdone tr3 []). rewrite app_nil_r in Hdone. apply Hdone.
    unfold passes_over. repeat split; auto. }
  pose proof (phase_then_time_passes_limiting throw_error tr3) as Hpt.
  destruct (Trajectory.phase_then_time throw_error inp limiting_dof tr3)
    as [[tr4 c4] o4].
  assert (Hboth : passes_over dof tr2 tr4 c4).
  { destruct Hnone as [P [B [S [L _]]]], Hpt as [P' [B' [S' [L' C']]]].
    unfold passes_over. repeat split; try congruence. exact C'. }
  destruct o4; exact (Hdone _ _ Hboth).
Qed.

End LimitingDoF.

(** Two DoFs of which the first, with the longer motion, is the limiting
    one. *)
Lemma limiting_dof_needs_no_step2_witness :
  let '(_, tr', calls) :=
    @Trajectory.calculate Examples.stand_in false false Examples.first_plan 0
      (Examples.fresh 2) in
  Trajectory.profile_at (Trajectory.profiles tr') 0
  = Trajectory.profile_at
      (set (Trajectory.profiles Examples.prepared) 0
         (Block.p_min
            (Trajectory.block_at (Trajectory.blocks Examples.prepared) 0))) 0
  /\ ~ In (call_check_with_timing 0) calls
  /\ ~ In (call_step2 0) calls.
Proof.
  eapply (@limiting_dof_needs_no_step2 Examples.stand_in Examples.first_plan
            0 0 eq_refl false false 0 (Examples.fresh 2)
            Examples.prepared
            [call_brake 0; call_step1 0; call_brake 1; call_step1 1]).
  - vm_compute. reflexivity.
  - vm_compute. reflexivity.
Defined.
